(** * SourceView.cpp: the buffered file reader and the line index

    A shallow embedding of [IBufferedFileReader], [HandleFileReader] and
    [FileLines] from [src/gui/Src/Gui/SourceView.cpp], the vocabulary in
    which their specification is stated, the invariants of an open reader
    and of a parsed file, and the properties C1 to C10 of the line index
    and of the reader, each with the concrete files that illustrate it.
    The last part adds [SourceView::loadFile] with the destructors, and
    the properties X1 to X19: the kernel calls the reader makes, the
    window of its buffer, the handle, the shape of the offset table and
    what [loadFile] leaves behind.

    Conventions of the embedding.
    - The x64 build is modelled: [size_t] and [uint64_t] are 64 bits wide,
      [DWORD] is 32 bits wide, [LONGLONG] is the signed 64-bit integer.
      Integers are [Z]; every conversion and every unsigned operation of the
      source is written with its wrap-around.
    - [char] buffers, [std::string] and [std::vector<char>] are [list byte].
    - A destination pointer [void* dest] is the list of bytes stored from
      that address on; a store of [n] bytes replaces the first [n] of them.
    - The Win32 calls the reader makes are modelled by [Kernel]: the bytes of
      the file behind the handle, the file pointer, the calls made so far
      and a schedule saying which of the coming calls fail. *)

From Stdlib Require Import ZArith List Bool Lia.
From Stdlib.Strings Require Import Byte.
Import ListNotations.
Local Open Scope Z_scope.

(** ** Integers of the x64 build *)

Definition to_uint64 (z : Z) : Z := z mod 2 ^ 64.
Definition to_size_t (z : Z) : Z := z mod 2 ^ 64.
Definition to_DWORD (z : Z) : Z := z mod 2 ^ 32.

(** [LARGE_INTEGER::QuadPart] is a [LONGLONG]: the value of a [uint64_t]
    assigned to it is read back in two's complement. *)
Definition to_LONGLONG (z : Z) : Z :=
  if z mod 2 ^ 64 <? 2 ^ 63 then z mod 2 ^ 64 else z mod 2 ^ 64 - 2 ^ 64.

(** ** Bytes, strings and vectors *)

Definition CR : byte := x0d.
Definition LF : byte := x0a.

Definition len {A : Type} (l : list A) : Z := Z.of_nat (length l).

(** [std::vector<char>::resize(n)] and [std::string::resize(n)], when they
    return: the first [n] elements are kept, missing ones are
    value-initialised. *)
Definition resize (n : Z) (v : list byte) : list byte :=
  firstn (Z.to_nat n) v ++ repeat x00 (Z.to_nat n - length v).

(** [std::string::max_size()].  A [resize] to more throws
    [std::length_error], and the function that called it is left through
    the exception with the string as it was: [resize] above is the content
    after a call that returns.  The value is the library's: 2^62 - 1 in
    libstdc++ for x86-64, which is taken here, and more in the Microsoft
    library.  [std::vector<char>::max_size()] is 2^63 - 1 in both. *)
Definition string_max_size : Z := 2 ^ 62 - 1.

(** [n] bytes of [v] from offset [off] on (fewer when [v] ends before). *)
Definition slice (v : list byte) (off n : Z) : list byte :=
  firstn (Z.to_nat n) (skipn (Z.to_nat off) v).

(** Storing [src] at a destination whose bytes are [dest]. *)
Definition store (dest src : list byte) : list byte :=
  src ++ skipn (length src) dest.

(** ** The Win32 file calls *)

Inductive Syscall : Type :=
| SysCreateFileW
| SysGetFileSizeEx
| SysSetFilePointerEx (liDistanceToMove : Z)
| SysReadFile (nNumberOfBytesToRead : Z)
| SysCloseHandle.

Inductive HANDLE : Type :=
| INVALID_HANDLE_VALUE
| FILE_HANDLE.

Definition HANDLE_eqb (a b : HANDLE) : bool :=
  match a, b with
  | INVALID_HANDLE_VALUE, INVALID_HANDLE_VALUE => true
  | FILE_HANDLE, FILE_HANDLE => true
  | _, _ => false
  end.

(** The file named by [szFileName] as the operating system presents it.
    [k_faults] is consumed one entry per fallible call, [true] meaning that
    the call fails; once it is exhausted every call succeeds.  [k_trace]
    lists the calls made, oldest first. *)
Record Kernel : Type := mkKernel {
  k_bytes : list byte;
  k_faults : list bool;
  k_open : bool;
  k_pointer : Z;
  k_trace : list Syscall
}.

Definition fault_now (k : Kernel) : bool := hd false (k_faults k).

(** One fallible call is made: it is logged and its schedule entry used up. *)
Definition called (c : Syscall) (k : Kernel) : Kernel :=
  mkKernel (k_bytes k) (tl (k_faults k)) (k_open k) (k_pointer k)
           (k_trace k ++ [c]).

Definition set_open (b : bool) (k : Kernel) : Kernel :=
  mkKernel (k_bytes k) (k_faults k) b (k_pointer k) (k_trace k).

Definition set_pointer (p : Z) (k : Kernel) : Kernel :=
  mkKernel (k_bytes k) (k_faults k) (k_open k) p (k_trace k).

(** [CreateFileW(szFileName, GENERIC_READ, FILE_SHARE_READ, nullptr,
    OPEN_EXISTING, 0, nullptr)]. *)
Definition CreateFileW (k : Kernel) : HANDLE * Kernel :=
  let k' := called SysCreateFileW k in
  if fault_now k then (INVALID_HANDLE_VALUE, k')
  else (FILE_HANDLE, set_pointer 0 (set_open true k')).

(** [GetFileSizeEx(h, &size)]: the result and [size.QuadPart]. *)
Definition GetFileSizeEx (k : Kernel) : bool * Z * Kernel :=
  let k' := called SysGetFileSizeEx k in
  if fault_now k then (false, 0, k')
  else (true, len (k_bytes k), k').

(** [SetFilePointerEx(h, distance, nullptr, FILE_BEGIN)]: a negative
    distance is refused; moving past the end of the file is allowed. *)
Definition SetFilePointerEx (k : Kernel) (distance : Z) : bool * Kernel :=
  let k' := called (SysSetFilePointerEx distance) k in
  if fault_now k || (distance <? 0) then (false, k')
  else (true, set_pointer distance k').

(** [ReadFile(h, lpBuffer, n, &read, nullptr)] on a synchronous disk file:
    the bytes from the file pointer on, at most [n] and at most up to the
    end of the file, are stored at [lpBuffer] and the pointer advances. *)
Definition ReadFile (k : Kernel) (lpBuffer : list byte) (n : Z)
  : bool * list byte * Kernel :=
  let k' := called (SysReadFile n) k in
  if fault_now k then (false, lpBuffer, k')
  else
    let data := slice (k_bytes k) (k_pointer k) n in
    (true, store lpBuffer data, set_pointer (k_pointer k + len data) k').

(** [CloseHandle(h)] on a valid handle. *)
Definition CloseHandle (k : Kernel) : Kernel :=
  mkKernel (k_bytes k) (k_faults k) false (k_pointer k)
           (k_trace k ++ [SysCloseHandle]).

(** ** struct IBufferedFileReader *)

Module IBufferedFileReader.

Inductive Direction : Type :=
| Right
| Left.

(** The pure virtual members.  [read] returns its result, the bytes at
    [dest] afterwards and the reader afterwards. *)
Class Impl (R : Type) : Type := {
  isopen : R -> bool;
  read : R -> list byte -> Z -> Z -> bool * list byte * R;
  size : R -> Z;
  setbuffersize : R -> Z -> R;
  setbufferdirection : R -> Direction -> R
}.

Section Derived.
Context {R : Type} `{Impl R}.

(** [bool readchar(uint64_t index, char & ch)] *)
Definition readchar (r : R) (index : Z) (ch : byte) : bool * byte * R :=
  let '(ok, dest, r') := read r [ch] index 1 in
  (ok, hd ch dest, r').

(** [bool readstring(uint64_t index, size_t size, std::string & str)] *)
Definition readstring (r : R) (index size : Z) (str : list byte)
  : bool * list byte * R :=
  let str := resize size str in
  read r str index size.

(** [bool readvector(uint64_t index, size_t size, std::vector<char> & vec)] *)
Definition readvector (r : R) (index size : Z) (vec : list byte)
  : bool * list byte * R :=
  let vec := resize size vec in
  read r vec index size.
End Derived.

End IBufferedFileReader.

(** ** class HandleFileReader *)

Record HandleFileReader : Type := mkReader {
  mHandle : HANDLE;
  mFileSize : Z;
  mBuffer : list byte;
  mBufferIndex : Z;
  mBufferSize : Z;
  mBufferDirection : IBufferedFileReader.Direction;
  os : Kernel
}.

Definition with_os (k : Kernel) (r : HandleFileReader) : HandleFileReader :=
  mkReader (mHandle r) (mFileSize r) (mBuffer r) (mBufferIndex r)
           (mBufferSize r) (mBufferDirection r) k.

Definition with_buffer (b : list byte) (i : Z) (r : HandleFileReader)
  : HandleFileReader :=
  mkReader (mHandle r) (mFileSize r) b i (mBufferSize r)
           (mBufferDirection r) (os r).

Module HandleFileReader.

(** [bool isopen() const] *)
Definition isopen (r : HandleFileReader) : bool :=
  negb (HANDLE_eqb (mHandle r) INVALID_HANDLE_VALUE).

(** [bool readnobuffer(void* dest, uint64_t index, size_t size)] *)
Definition readnobuffer (r : HandleFileReader) (dest : list byte)
           (index size : Z) : bool * list byte * HandleFileReader :=
  if negb (isopen r) then (false, dest, r)
  else
    let distance := to_LONGLONG index in
    let '(moved, k1) := SetFilePointerEx (os r) distance in
    if negb moved then (false, dest, with_os k1 r)
    else
      let '(done, dest', k2) := ReadFile k1 dest (to_DWORD size) in
      (done, dest', with_os k2 r).

(** [HandleFileReader(const wchar_t* szFileName)]; the members start
    from their default initialisers, [mFileSize] from [uint64_t(-1)]. *)
Definition new (k : Kernel) : HandleFileReader :=
  let '(h, k1) := CreateFileW k in
  match h with
  | FILE_HANDLE =>
      let '(ok, quad, k2) := GetFileSizeEx k1 in
      if ok
      then mkReader h (to_uint64 quad) [] 0 0 IBufferedFileReader.Right k2
      else mkReader INVALID_HANDLE_VALUE (to_uint64 (-1)) [] 0 0
                    IBufferedFileReader.Right (CloseHandle k2)
  | INVALID_HANDLE_VALUE =>
      mkReader h (to_uint64 (-1)) [] 0 0 IBufferedFileReader.Right k1
  end.

(** [~HandleFileReader()] *)
Definition delete (r : HandleFileReader) : HandleFileReader :=
  if isopen r
  then mkReader INVALID_HANDLE_VALUE (mFileSize r) (mBuffer r)
                (mBufferIndex r) (mBufferSize r) (mBufferDirection r)
                (CloseHandle (os r))
  else r.

(** [bool read(void* dest, uint64_t index, size_t size)].  The copy out
    of [mBuffer] is the one of the release build ([memcpy]); an index
    outside [mBuffer], undefined in the source, reads as if the vector
    ended there ([x00] for the single byte). *)
Definition read (r : HandleFileReader) (dest : list byte) (index size : Z)
  : bool * list byte * HandleFileReader :=
  if to_uint64 (index + size) >? mFileSize r then (false, dest, r)
  else if size >? mBufferSize r then readnobuffer r dest index size
  else
    let '(filled, r1) :=
      if (index <? mBufferIndex r)
         || (to_uint64 (index + size)
             >? to_size_t (mBufferIndex r + len (mBuffer r)))
      then
        let bufferSize :=
          Z.min (to_uint64 (mBufferSize r)) (to_uint64 (mFileSize r - index)) in
        let r' := with_buffer (resize (to_size_t bufferSize) (mBuffer r))
                              (to_size_t index) r in
        let '(ok, data, r'') :=
          readnobuffer r' (mBuffer r') (mBufferIndex r') (len (mBuffer r')) in
        (ok, with_buffer data (mBufferIndex r'') r'')
      else (true, r) in
    if negb filled then (false, dest, r1)
    else if size =? 1
    then (true,
          store dest [nth (Z.to_nat (to_uint64 (index - mBufferIndex r1)))
                          (mBuffer r1) x00],
          r1)
    else (true,
          store dest (slice (mBuffer r1)
                            (to_uint64 (index - mBufferIndex r1)) size),
          r1).

(** [uint64_t size()] *)
Definition size (r : HandleFileReader) : Z := mFileSize r.

(** [void setbuffersize(size_t size)] *)
Definition setbuffersize (r : HandleFileReader) (size : Z)
  : HandleFileReader :=
  mkReader (mHandle r) (mFileSize r) (mBuffer r) (mBufferIndex r)
           (to_size_t (Z.min (to_uint64 size) (mFileSize r)))
           (mBufferDirection r) (os r).

(** [void setbufferdirection(Direction direction)] *)
Definition setbufferdirection (r : HandleFileReader)
           (direction : IBufferedFileReader.Direction) : HandleFileReader :=
  mkReader (mHandle r) (mFileSize r) (mBuffer r) (mBufferIndex r)
           (mBufferSize r) direction (os r).

End HandleFileReader.

#[export] Instance HandleFileReader_impl
  : IBufferedFileReader.Impl HandleFileReader := {
  IBufferedFileReader.isopen := HandleFileReader.isopen;
  IBufferedFileReader.read := HandleFileReader.read;
  IBufferedFileReader.size := HandleFileReader.size;
  IBufferedFileReader.setbuffersize := HandleFileReader.setbuffersize;
  IBufferedFileReader.setbufferdirection := HandleFileReader.setbufferdirection
}.

(** ** class FileLines *)

Record FileLines : Type := mkFileLines {
  mLines : list Z;
  mReader : option HandleFileReader
}.

Module FileLines.

(** A default-constructed [FileLines]. *)
Definition new : FileLines := mkFileLines [] None.

(** [bool isopen()] *)
Definition isopen (fl : FileLines) : bool :=
  match mReader fl with
  | Some r => IBufferedFileReader.isopen r
  | None => false
  end.

(** [bool open(const wchar_t* szFileName)]; [k] is the file the name
    denotes.  A reader that was held before is destroyed. *)
Definition open (fl : FileLines) (k : Kernel) : bool * FileLines :=
  if isopen fl then (false, fl)
  else
    let r := HandleFileReader.new k in
    (IBufferedFileReader.isopen r, mkFileLines (mLines fl) (Some r)).

(** The body of the [for] loop of [parse], run for the [n] indices from
    [i] on.  The result is [false] when [parse] returns from inside the
    loop. *)
Fixpoint parse_loop (n : nat) (i : Z) (r : HandleFileReader)
         (lines : list Z) (curIndex curSize : Z)
  : bool * HandleFileReader * list Z * Z * Z :=
  match n with
  | O => (true, r, lines, curIndex, curSize)
  | S n' =>
      let '(ok, ch, r1) := IBufferedFileReader.readchar r i x00 in
      if negb ok then (false, r1, lines, curIndex, curSize)
      else if (ch =? CR)%byte
      then parse_loop n' (to_uint64 (i + 1)) r1 lines curIndex curSize
      else if (ch =? LF)%byte
      then parse_loop n' (to_uint64 (i + 1)) r1 (lines ++ [to_uint64 curIndex])
                      (to_size_t (i + 1)) 0
      else parse_loop n' (to_uint64 (i + 1)) r1 lines curIndex
                      (to_size_t (curSize + 1))
  end.

(** [bool parse()]; the loop runs for [i = 0 .. filesize - 1]. *)
Definition parse (fl : FileLines) : bool * FileLines :=
  match mReader fl with
  | None => (false, fl)
  | Some r =>
      if negb (IBufferedFileReader.isopen r) then (false, fl)
      else
        let filesize := IBufferedFileReader.size r in
        let r := IBufferedFileReader.setbufferdirection
                   r IBufferedFileReader.Right in
        let r := IBufferedFileReader.setbuffersize r (10 * 1024 * 1024) in
        let '(ok, r, lines, curIndex, curSize) :=
          parse_loop (Z.to_nat filesize) 0 r (mLines fl) 0 0 in
        if negb ok then (false, mkFileLines lines (Some r))
        else
          let lines :=
            if curSize >? 0 then lines ++ [to_uint64 curIndex] else lines in
          let lines := lines ++ [to_uint64 (filesize + 1)] in
          (true, mkFileLines lines (Some r))
  end.

(** [size_t size() const] *)
Definition size (fl : FileLines) : Z := to_size_t (len (mLines fl) - 1).

(** [while(!result.empty() && result.back() == '\r') result.pop_back();]
    on the string read back to front. *)
Fixpoint pop_back_cr (reversed : list byte) : list byte :=
  match reversed with
  | b :: rest => if (b =? CR)%byte then pop_back_cr rest else reversed
  | [] => []
  end.

Definition strip_cr (result : list byte) : list byte :=
  rev (pop_back_cr (rev result)).

(** [std::string operator[](size_t index)]; an element of [mLines] outside
    the vector, undefined in the source, reads as 0, and so does a call
    without a reader. *)
Definition operator_subscript (fl : FileLines) (index : Z)
  : list byte * FileLines :=
  let lineStart := nth (Z.to_nat index) (mLines fl) 0 in
  let nextLineStart := nth (Z.to_nat (to_size_t (index + 1))) (mLines fl) 0 in
  match mReader fl with
  | None => ([], fl)
  | Some r =>
      let '(_, result, r') :=
        IBufferedFileReader.readstring r lineStart
                   (to_size_t (to_uint64 (nextLineStart - lineStart - 1))) [] in
      (strip_cr result, mkFileLines (mLines fl) (Some r'))
  end.

End FileLines.

(** * Vocabulary of the specification *)

Definition is_LF (b : byte) : bool := (b =? LF)%byte.
Definition is_CR (b : byte) : bool := (b =? CR)%byte.

(** The number of line-feed bytes. *)
Definition count_LF (bs : list byte) : Z := len (filter is_LF bs).

(** The bytes with every carriage return dropped. *)
Definition drop_cr (bs : list byte) : list byte :=
  filter (fun b => negb (is_CR b)) bs.

(** Empty once carriage returns are dropped. *)
Definition blank (bs : list byte) : bool :=
  match drop_cr bs with
  | [] => true
  | _ :: _ => false
  end.

(** The bytes after the last line feed of [cur ++ bs], [cur] holding none:
    the final line, which no line feed terminates. *)
Fixpoint final_line_from (cur bs : list byte) : list byte :=
  match bs with
  | [] => cur
  | b :: rest =>
      if is_LF b then final_line_from [] rest
      else final_line_from (cur ++ [b]) rest
  end.

Definition final_line (bs : list byte) : list byte := final_line_from [] bs.

(** The bytes at the offsets [a], ..., [b - 1]. *)
Definition span (bytes : list byte) (a b : Z) : list byte :=
  slice bytes a (b - a).

(** A string without the carriage returns at its end. *)
Fixpoint rstrip_cr (s : list byte) : list byte :=
  match s with
  | [] => []
  | b :: rest =>
      match rstrip_cr rest with
      | [] => if is_CR b then [] else [b]
      | kept => b :: kept
      end
  end.

(** The calls of [operator[]] for the indices [js], one after the other. *)
Definition after_lines (fl : FileLines) (js : list Z) : FileLines :=
  fold_left (fun fl j => snd (FileLines.operator_subscript fl j)) js fl.

(** The lines [0], ..., [size() - 1], fetched in this order. *)
Fixpoint lines_from (n : nat) (i : Z) (fl : FileLines) : list (list byte) :=
  match n with
  | O => []
  | S n' =>
      let '(line, fl') := FileLines.operator_subscript fl i in
      line :: lines_from n' (i + 1) fl'
  end.

Definition all_lines (fl : FileLines) : list (list byte) :=
  lines_from (Z.to_nat (FileLines.size fl)) 0 fl.

(** Lines put together with one line feed between consecutive lines. *)
Definition join_lf (ls : list (list byte)) : list byte :=
  match ls with
  | [] => []
  | l :: rest => l ++ concat (map (cons LF) rest)
  end.

(** The bytes without the carriage returns that end a line: those followed
    by nothing but carriage returns up to the next line feed or the end. *)
Fixpoint chomp (bs : list byte) : list byte :=
  match bs with
  | [] => []
  | b :: rest =>
      let kept := chomp rest in
      if is_CR b && match kept with [] => true | c :: _ => is_LF c end
      then kept
      else b :: kept
  end.

(** The file ends with a line feed, carriage returns after it apart. *)
Definition ends_terminated (bs : list byte) : bool :=
  existsb is_LF bs && blank (final_line bs).

(** Calls on a reader, and the reader after a sequence of them. *)
Inductive Call : Type :=
| CallSetBufferSize (size : Z)
| CallSetBufferDirection (direction : IBufferedFileReader.Direction)
| CallRead (dest : list byte) (index size : Z).

Definition step (r : HandleFileReader) (c : Call) : HandleFileReader :=
  match c with
  | CallSetBufferSize size => HandleFileReader.setbuffersize r size
  | CallSetBufferDirection d => HandleFileReader.setbufferdirection r d
  | CallRead dest index size => snd (HandleFileReader.read r dest index size)
  end.

Definition run (r : HandleFileReader) (cs : list Call) : HandleFileReader :=
  fold_left step cs r.

(** The arguments of a [read] have their C++ types and the end of the
    requested range is representable in 64 bits. *)
Definition representable (c : Call) : Prop :=
  match c with
  | CallRead _ index size => 0 <= index /\ 0 <= size /\ index + size < 2 ^ 64
  | _ => True
  end.

(** What a caller of [read] observes: the result and the destination. *)
Definition outcome (x : bool * list byte * HandleFileReader)
  : bool * list byte := fst x.

(** A client of the reader that is configured with the direction [d]:
    its requests and the replies it observes.  The direction is set when a
    reader is constructed, as [FileLines::parse] does after [open]. *)
Inductive Request : Type :=
| ReqOpen (k : Kernel)
| ReqSetBufferSize (size : Z)
| ReqRead (dest : list byte) (index size : Z).

Inductive Reply : Type :=
| RepOpen (isopen : bool) (size : Z)
| RepDone
| RepRead (ok : bool) (dest : list byte)
| RepNoReader.

Definition serve (d : IBufferedFileReader.Direction)
           (st : option HandleFileReader) (q : Request)
  : Reply * option HandleFileReader :=
  match q, st with
  | ReqOpen k, _ =>
      let r := HandleFileReader.setbufferdirection (HandleFileReader.new k) d in
      (RepOpen (HandleFileReader.isopen r) (HandleFileReader.size r), Some r)
  | ReqSetBufferSize size, Some r =>
      (RepDone, Some (HandleFileReader.setbuffersize r size))
  | ReqRead dest index size, Some r =>
      let '(ok, dest', r') := HandleFileReader.read r dest index size in
      (RepRead ok dest', Some r')
  | _, None => (RepNoReader, None)
  end.

Fixpoint session (d : IBufferedFileReader.Direction)
         (st : option HandleFileReader) (qs : list Request) : list Reply :=
  match qs with
  | [] => []
  | q :: rest =>
      let '(reply, st') := serve d st q in
      reply :: session d st' rest
  end.

(** * Invariants and auxiliary definitions *)

(** [Opened bytes r]: [r] holds a handle to a file with contents [bytes]
    whose size it has recorded; [GetFileSizeEx] reports sizes below 2^63. *)
Record Opened (bytes : list byte) (r : HandleFileReader) : Prop := {
  o_handle : mHandle r = FILE_HANDLE;
  o_bytes : k_bytes (os r) = bytes;
  o_size : mFileSize r = len bytes;
  o_fits : len bytes < 2 ^ 63;
  o_bufsize : 0 <= mBufferSize r <= len bytes
}.

(** [Cached bytes r]: moreover the buffer holds the bytes of the file from
    [mBufferIndex] on. *)
Record Cached (bytes : list byte) (r : HandleFileReader) : Prop := {
  c_opened : Opened bytes r;
  c_index : 0 <= mBufferIndex r;
  c_window : mBufferIndex r + len (mBuffer r) <= len bytes;
  c_mirror : mBuffer r = slice bytes (mBufferIndex r) (len (mBuffer r))
}.

(** [Whole bytes r]: the buffer of [r] holds the whole file, and requests
    up to the size of the file go through the buffer. *)
Definition Whole (bytes : list byte) (r : HandleFileReader) : Prop :=
  Cached bytes r
  /\ mBufferIndex r = 0
  /\ len (mBuffer r) = len bytes
  /\ mBufferSize r = len bytes.

(** The offsets [parse] pushes while it scans [bs], the bytes from offset
    [i] on, including the one for a last line that is not terminated. *)
Fixpoint starts (bs : list byte) (i curIndex curSize : Z) : list Z :=
  match bs with
  | [] => if curSize >? 0 then [curIndex] else []
  | ch :: rest =>
      if (ch =? CR)%byte then starts rest (i + 1) curIndex curSize
      else if (ch =? LF)%byte then curIndex :: starts rest (i + 1) (i + 1) 0
      else starts rest (i + 1) curIndex (curSize + 1)
  end.

(** The offset table of a file: the line starts and the sentinel. *)
Definition line_starts (bytes : list byte) : list Z :=
  starts bytes 0 0 0 ++ [len bytes + 1].

(** [Indexed bytes fl]: [fl] holds the offset table of the file [bytes] and
    an open reader whose buffer, of at most 10 MiB, mirrors the file. *)
Definition Indexed (bytes : list byte) (fl : FileLines) : Prop :=
  mLines fl = line_starts bytes
  /\ exists r, mReader fl = Some r
             /\ Cached bytes r
             /\ mBufferSize r = Z.min (10 * 1024 * 1024) (len bytes).

(** The faults still to come for the reader of [fl]. *)
Definition pending (fl : FileLines) : list bool :=
  match mReader fl with
  | Some r => k_faults (os r)
  | None => []
  end.

(** [Steady bytes fl]: the reads of [operator[]] cannot fail, because no
    fault is to come or because the buffer holds the whole file. *)
Definition Steady (bytes : list byte) (fl : FileLines) : Prop :=
  pending fl = [] \/ exists r, mReader fl = Some r /\ Whole bytes r.

(** Each entry is below the next one. *)
Fixpoint increasing (l : list Z) : Prop :=
  match l with
  | a :: (b :: _) as rest => a < b /\ increasing rest
  | _ => True
  end.

(** The spans [operator[]] reads for a table [T]. *)
Fixpoint spans (bytes : list byte) (T : list Z) : list (list byte) :=
  match T with
  | a :: (b :: _) as rest => span bytes a (b - 1) :: spans bytes rest
  | _ => []
  end.

(** The spans of the table of [cur ++ bs], told from the bytes: a line
    runs up to the next line feed; the last line of the table runs up to
    the end of the file. *)
Fixpoint raw_from (cur bs : list byte) : list (list byte) :=
  match bs with
  | [] => if blank cur then [] else [cur]
  | b :: rest =>
      if is_LF b
      then match raw_from [] rest with
           | [] => [cur ++ b :: rest]
           | ls => cur :: ls
           end
      else raw_from (cur ++ [b]) rest
  end.

(** Two readers that differ in the direction only. *)
Definition same_but_direction (st1 st2 : option HandleFileReader) : Prop :=
  match st1, st2 with
  | Some r1, Some r2 =>
      r2 = HandleFileReader.setbufferdirection r1 (mBufferDirection r2)
  | None, None => True
  | _, _ => False
  end.

(** A file with the given bytes whose calls fail as [faults] says. *)
Definition file (bytes : list byte) (faults : list bool) : Kernel :=
  mkKernel bytes faults false 0 [].

(** [open] and [parse] on a fresh [FileLines]. *)
Definition opened (k : Kernel) : FileLines :=
  snd (FileLines.open FileLines.new k).

(** ... followed by [parse]. *)
Definition parsed (k : Kernel) : FileLines :=
  snd (FileLines.parse (opened k)).

(** The scenario file ["abc\r\ndef\nghi"]. *)
Definition abc_def_ghi : list byte :=
  ["a"; "b"; "c"; CR; LF; "d"; "e"; "f"; LF; "g"; "h"; "i"]%byte.

(** A file of one line of 4 GiB and one byte. *)
Definition long_line : list byte := repeat "a"%byte (Z.to_nat (2 ^ 32 + 1)).

(** * Definitions for the further properties *)

(** The bytes split at the line feeds of [cur ++ bs], [cur] holding none. *)
Fixpoint split_lf_from (cur bs : list byte) : list (list byte) :=
  match bs with
  | [] => [cur]
  | b :: rest =>
      if is_LF b then cur :: split_lf_from [] rest
      else split_lf_from (cur ++ [b]) rest
  end.

Definition split_lf (bs : list byte) : list (list byte) := split_lf_from [] bs.

(** The calls of [CloseHandle] in a list of kernel calls. *)
Definition is_close (c : Syscall) : bool :=
  match c with
  | SysCloseHandle => true
  | _ => false
  end.

Definition closes (t : list Syscall) : nat := length (filter is_close t).

(** The kernel calls one [read] at offset [index] may make: none, a move of
    the file pointer to [index], or that move and one [ReadFile]. *)
Definition read_calls (index : Z) (s : list Syscall) : Prop :=
  s = []
  \/ s = [SysSetFilePointerEx (to_LONGLONG index)]
  \/ exists m, 0 <= m < 2 ^ 32
               /\ s = [SysSetFilePointerEx (to_LONGLONG index); SysReadFile m].

(** The window of the buffer covers the request. *)
Definition covered (r : HandleFileReader) (index n : Z) : Prop :=
  mBufferIndex r <= index /\ index + n <= mBufferIndex r + len (mBuffer r).

(** The [ReadFile] calls of a trace: how many, and the bytes they ask
    for in all. *)
Definition is_read (c : Syscall) : bool :=
  match c with
  | SysReadFile _ => true
  | _ => false
  end.

Definition reads (t : list Syscall) : Z := len (filter is_read t).

Fixpoint requested (t : list Syscall) : Z :=
  match t with
  | SysReadFile n :: rest => n + requested rest
  | _ :: rest => requested rest
  | [] => 0
  end.

(** ** class SourceView: [loadFile] and the destructor *)

(** The texts of the message boxes of [loadFile], both titled "Error". *)
Inductive Warning : Type :=
| FailedToOpenFile
| FailedToParseFile.

(** The calls [loadFile] makes on [QMessageBox] and on the table view it
    derives from, which are outside this file. *)
Inductive GuiCall : Type :=
| QMessageBox_warning (text : Warning)
| setRowCount (count : Z)
| setTableOffset (value : Z)
| reloadData.

(** The members [loadFile] uses: the path, as its UTF-16 code units, and
    the pointer [mFileLines], [None] for [nullptr].  [disk] is the file the
    path names while no reader holds it, [gui] the calls made so far. *)
Record SourceView : Type := mkSourceView {
  mSourcePath : list Z;
  mFileLines : option FileLines;
  disk : Kernel;
  gui : list GuiCall
}.

(** [delete fl] for a [FileLines*]: the [unique_ptr] destroys the reader
    when it holds one; the result is the file as the destructor leaves
    it. *)
Definition delete_FileLines (fl : FileLines) (k : Kernel) : Kernel :=
  match mReader fl with
  | Some r => os (HandleFileReader.delete r)
  | None => k
  end.

(** [void SourceView::loadFile()] *)
Definition loadFile (v : SourceView) : SourceView :=
  if len (mSourcePath v) =? 0 then v
  else
    let k := match mFileLines v with
             | Some old => delete_FileLines old (disk v)
             | None => disk v
             end in
    let '(_, fl) := FileLines.open FileLines.new k in
    if negb (FileLines.isopen fl)
    then mkSourceView (mSourcePath v) None (delete_FileLines fl k)
                      (gui v ++ [QMessageBox_warning FailedToOpenFile])
    else
      let '(ok, fl) := FileLines.parse fl in
      if negb ok
      then mkSourceView (mSourcePath v) None (delete_FileLines fl k)
                        (gui v ++ [QMessageBox_warning FailedToParseFile])
      else mkSourceView (mSourcePath v) (Some fl) k
                        (gui v ++ [setRowCount (FileLines.size fl);
                                   setTableOffset 0; reloadData]).

(** [SourceView::~SourceView()]: the file as it is left. *)
Definition delete_SourceView (v : SourceView) : Kernel :=
  match mFileLines v with
  | Some fl => delete_FileLines fl (disk v)
  | None => disk v
  end.

(** The file of a view, wherever it is held. *)
Definition kernel (v : SourceView) : Kernel :=
  match mFileLines v with
  | Some fl => match mReader fl with
               | Some r => os r
               | None => disk v
               end
  | None => disk v
  end.

(** A view holds an open, usable [FileLines] or none at all, and the
    handle is open exactly when it holds one. *)
Definition tidy (v : SourceView) : Prop :=
  match mFileLines v with
  | Some fl => FileLines.isopen fl = true /\ k_open (kernel v) = true
  | None => k_open (disk v) = false
  end.

(** * Properties *)

(** ** Integers *)

Lemma to_uint64_small z : 0 <= z < 2 ^ 64 -> to_uint64 z = z.
Proof. intros; unfold to_uint64; apply Z.mod_small; assumption. Qed.

Lemma to_size_t_small z : 0 <= z < 2 ^ 64 -> to_size_t z = z.
Proof. intros; unfold to_size_t; apply Z.mod_small; assumption. Qed.

Lemma to_DWORD_small z : 0 <= z < 2 ^ 32 -> to_DWORD z = z.
Proof. intros; unfold to_DWORD; apply Z.mod_small; assumption. Qed.

Lemma to_LONGLONG_small z : 0 <= z < 2 ^ 63 -> to_LONGLONG z = z.
Proof.
  intros Hz. unfold to_LONGLONG.
  rewrite Z.mod_small by lia.
  destruct (z <? 2 ^ 63) eqn:E; [reflexivity | apply Z.ltb_ge in E; lia].
Qed.

Lemma to_uint64_range z : 0 <= to_uint64 z < 2 ^ 64.
Proof. unfold to_uint64; apply Z.mod_pos_bound; lia. Qed.

Lemma to_DWORD_range z : 0 <= to_DWORD z < 2 ^ 32.
Proof. unfold to_DWORD; apply Z.mod_pos_bound; lia. Qed.

Lemma to_DWORD_le z : 0 <= z -> to_DWORD z <= z.
Proof. intros; unfold to_DWORD; apply Z.mod_le; lia. Qed.

(** ** Lists of bytes *)

Lemma len_nonneg {A} (l : list A) : 0 <= len l.
Proof. unfold len; lia. Qed.

Lemma len_app {A} (l1 l2 : list A) : len (l1 ++ l2) = len l1 + len l2.
Proof. unfold len; rewrite length_app; lia. Qed.

Lemma len_nil {A} : len (@nil A) = 0.
Proof. reflexivity. Qed.

Lemma len_cons {A} (a : A) l : len (a :: l) = 1 + len l.
Proof. unfold len; simpl length; lia. Qed.

Lemma resize_length n v : 0 <= n -> len (resize n v) = n.
Proof.
  intros Hn. unfold len, resize.
  rewrite length_app, length_firstn, repeat_length. lia.
Qed.

Lemma store_length dest src :
  length (store dest src) = Nat.max (length src) (length dest).
Proof. unfold store; rewrite length_app, length_skipn; lia. Qed.

Lemma store_whole dest src :
  (length dest <= length src)%nat -> store dest src = src.
Proof.
  intros Hl. unfold store.
  rewrite skipn_all2 by assumption. apply app_nil_r.
Qed.

Lemma slice_length_le v off n : (length (slice v off n) <= Z.to_nat n)%nat.
Proof. unfold slice; rewrite length_firstn; lia. Qed.

Lemma slice_length v off n :
  0 <= off -> 0 <= n -> off + n <= len v -> len (slice v off n) = n.
Proof.
  unfold len, slice; intros.
  rewrite length_firstn, length_skipn. lia.
Qed.

Lemma slice_nil v off : slice v off 0 = [].
Proof. reflexivity. Qed.

(** A slice of a slice is a slice of the whole. *)
Lemma slice_slice v a m b n :
  0 <= a -> 0 <= b -> 0 <= n -> b + n <= m ->
  slice (slice v a m) b n = slice v (a + b) n.
Proof.
  intros Ha Hb Hn Hm. unfold slice.
  rewrite skipn_firstn_comm, firstn_firstn, skipn_skipn.
  replace (Z.to_nat b + Z.to_nat a)%nat with (Z.to_nat (a + b)) by lia.
  f_equal. lia.
Qed.

Lemma slice_one v off :
  0 <= off < len v -> slice v off 1 = [nth (Z.to_nat off) v x00].
Proof.
  unfold len, slice; intros Ho.
  assert (Hlt : (Z.to_nat off < length v)%nat) by lia.
  revert Hlt. generalize (Z.to_nat off) as k. clear Ho.
  induction v as [|x v IH]; intros [|k] Hk; simpl in *; try lia.
  - reflexivity.
  - apply IH; lia.
Qed.

Lemma slice_all v : slice v 0 (len v) = v.
Proof.
  unfold slice, len. rewrite Nat2Z.id. simpl. apply firstn_all.
Qed.

(** ** The kernel file object *)

Lemma called_bytes c k : k_bytes (called c k) = k_bytes k.
Proof. reflexivity. Qed.

Lemma fault_now_healthy k : k_faults k = [] -> fault_now k = false.
Proof. unfold fault_now; intros ->; reflexivity. Qed.

(** ** [readnobuffer] on an open reader *)

Lemma readnobuffer_closed r dest index n :
  HandleFileReader.isopen r = false ->
  HandleFileReader.readnobuffer r dest index n = (false, dest, r).
Proof. intros H; unfold HandleFileReader.readnobuffer; rewrite H; reflexivity. Qed.

(** What a positioned read gives: the reader changes in its kernel state
    only; the file keeps its bytes; on success the requested bytes, as far
    as 32 bits can count them, are stored at the destination; when no
    fault is scheduled the read succeeds. *)
Lemma readnobuffer_spec r dest index n :
  HandleFileReader.isopen r = true ->
  0 <= index < 2 ^ 63 ->
  exists ok dest' k',
    HandleFileReader.readnobuffer r dest index n = (ok, dest', with_os k' r)
    /\ k_bytes k' = k_bytes (os r)
    /\ (ok = true ->
        dest' = store dest (slice (k_bytes (os r)) index (to_DWORD n)))
    /\ (ok = false -> dest' = dest)
    /\ (k_faults (os r) = [] -> ok = true /\ k_faults k' = []).
Proof.
  intros Hopen Hidx.
  unfold HandleFileReader.readnobuffer. rewrite Hopen. cbn [negb].
  rewrite to_LONGLONG_small by assumption.
  unfold SetFilePointerEx.
  destruct (fault_now (os r)) eqn:F1; cbn [orb negb].
  - eexists false, dest, _. split; [reflexivity|].
    split; [reflexivity|]. split; [discriminate|]. split; [reflexivity|].
    intros Hh. rewrite (fault_now_healthy _ Hh) in F1. discriminate.
  - destruct (index <? 0) eqn:Eneg; [apply Z.ltb_lt in Eneg; lia|].
    cbn [negb]. unfold ReadFile.
    set (k1 := set_pointer index (called (SysSetFilePointerEx index) (os r))).
    destruct (fault_now k1) eqn:F2.
    + eexists false, dest, _. split; [reflexivity|].
      split; [reflexivity|]. split; [discriminate|]. split; [reflexivity|].
      intros Hh. unfold fault_now, k1 in F2; cbn in F2.
      rewrite Hh in F2. discriminate.
    + eexists true, _, _. split; [reflexivity|].
      split; [reflexivity|]. split; [intros _; reflexivity|].
      split; [discriminate|].
      intros Hh. split; [reflexivity|]. cbn. rewrite Hh. reflexivity.
Qed.

(** ** Any reader: what [read] may change *)

(** A positioned read changes the kernel state only, keeps the bytes of the
    file, leaves the destination alone when it fails and otherwise stores
    at most [to_DWORD n] bytes there. *)
Lemma readnobuffer_frame r dest index n :
  exists ok dest' k',
    HandleFileReader.readnobuffer r dest index n = (ok, dest', with_os k' r)
    /\ k_bytes k' = k_bytes (os r)
    /\ (ok = false -> dest' = dest)
    /\ (dest' = dest
        \/ exists p, dest' = store dest (slice (k_bytes (os r)) p (to_DWORD n))).
Proof.
  unfold HandleFileReader.readnobuffer.
  destruct (HandleFileReader.isopen r); cbn [negb].
  - unfold SetFilePointerEx.
    destruct (fault_now (os r) || (to_LONGLONG index <? 0)); cbn [negb].
    + eexists false, dest, _. split; [reflexivity|].
      split; [reflexivity|]. split; [reflexivity | left; reflexivity].
    + unfold ReadFile.
      match goal with |- context [fault_now ?k] => destruct (fault_now k) end.
      * eexists false, dest, _. split; [reflexivity|].
        split; [reflexivity|]. split; [reflexivity | left; reflexivity].
      * eexists true, _, _. split; [reflexivity|].
        split; [reflexivity|]. split; [discriminate|].
        right. eexists. reflexivity.
  - exists false, dest, (os r). split; [destruct r; reflexivity|].
    split; [reflexivity|]. split; [reflexivity | left; reflexivity].
Qed.

Lemma store_keeps_length dest src :
  (length src <= length dest)%nat -> length (store dest src) = length dest.
Proof. intros H. rewrite store_length. lia. Qed.

(** [read] never changes the handle, the recorded size or the buffer size,
    and the file keeps its bytes. *)
Lemma read_frame r dest index n :
  let r' := snd (HandleFileReader.read r dest index n) in
  mHandle r' = mHandle r /\ mFileSize r' = mFileSize r
  /\ mBufferSize r' = mBufferSize r
  /\ mBufferDirection r' = mBufferDirection r
  /\ k_bytes (os r') = k_bytes (os r).
Proof.
  unfold HandleFileReader.read.
  destruct (to_uint64 (index + n) >? mFileSize r);
    [cbn; repeat split; reflexivity|].
  destruct (n >? mBufferSize r).
  - destruct (readnobuffer_frame r dest index n)
      as (ok & d & k' & Heq & Hk & _). rewrite Heq. cbn.
    repeat split; try reflexivity. exact Hk.
  - match goal with
    | |- context [if ?c then _ else (true, r)] => destruct c
    end.
    + match goal with
      | |- context [HandleFileReader.readnobuffer ?a ?b ?c ?d] =>
          destruct (readnobuffer_frame a b c d)
            as (ok & d' & k' & Heq & Hk & _); rewrite Heq
      end.
      destruct ok; cbn [negb]; [destruct (n =? 1)|]; cbn;
        repeat split; try reflexivity; exact Hk.
    + cbn [negb]. destruct (n =? 1); cbn; repeat split; reflexivity.
Qed.

(** When [read] fails the destination is as it was; when the destination
    has room for the [n] bytes asked for, it keeps its length. *)
Lemma read_dest r dest index n :
  0 <= n ->
  let '(ok, dest', _) := HandleFileReader.read r dest index n in
  (ok = false -> dest' = dest)
  /\ (n <= len dest -> len dest' = len dest).
Proof.
  intros Hn. unfold HandleFileReader.read.
  destruct (to_uint64 (index + n) >? mFileSize r);
    [split; reflexivity|].
  destruct (n >? mBufferSize r).
  - destruct (readnobuffer_frame r dest index n)
      as (ok & d & k' & Heq & Hk & Hko & Hd). rewrite Heq.
    split; [exact Hko|]. intros Hl.
    destruct Hd as [->|[p ->]]; [reflexivity|].
    unfold len in *. rewrite store_keeps_length; [reflexivity|].
    pose proof (slice_length_le (k_bytes (os r)) p (to_DWORD n)).
    pose proof (to_DWORD_le n Hn). lia.
  - match goal with
    | |- context [if ?c then _ else (true, r)] => destruct c
    end.
    + match goal with
      | |- context [HandleFileReader.readnobuffer ?a ?b ?c ?d] =>
          destruct (readnobuffer_frame a b c d)
            as (ok & d' & k' & Heq & Hk & _); rewrite Heq
      end.
      destruct ok; cbn [negb]; [|split; reflexivity].
      destruct (n =? 1) eqn:E; (split; [discriminate|]); intros Hl;
        unfold len in *; rewrite store_keeps_length; try reflexivity.
      * apply Z.eqb_eq in E. cbn [length]. lia.
      * match goal with
        | |- context [slice ?v ?o n] => pose proof (slice_length_le v o n)
        end. lia.
    + cbn [negb].
      destruct (n =? 1) eqn:E; (split; [discriminate|]); intros Hl;
        unfold len in *; rewrite store_keeps_length; try reflexivity.
      * apply Z.eqb_eq in E. cbn [length]. lia.
      * match goal with
        | |- context [slice ?v ?o n] => pose proof (slice_length_le v o n)
        end. lia.
Qed.

(** C10. After [readstring(index, size, str)], whatever it returns, the
    string has length [size]; when it returns [false] the string is the
    old one resized to [size], which is not the old string unless that had
    length [size] already.  The call returns when [size] is at most
    [max_size()]; above it [str.resize(size)] throws and [readstring]
    returns neither [true] nor [false]. *)
Theorem readstring_length (r : HandleFileReader) index size str ok str' r' :
  0 <= size <= string_max_size ->
  IBufferedFileReader.readstring r index size str = (ok, str', r') ->
  len str' = size
  /\ (ok = false -> str' = resize size str)
  /\ (ok = false -> len str <> size -> str' <> str).
Proof.
  intros [Hs _]. unfold IBufferedFileReader.readstring.
  cbn [IBufferedFileReader.read HandleFileReader_impl].
  pose proof (read_dest r (resize size str) index size Hs) as H.
  intros Heq. rewrite Heq in H. destruct H as [Hko Hlen].
  rewrite resize_length in Hlen by assumption.
  assert (Hl : len str' = size) by (apply Hlen; lia).
  split; [exact Hl|]. split; [exact Hko|].
  intros _ Hne Heq'. apply Hne. rewrite <- Heq'. exact Hl.
Qed.

(** ** Invariants of an open reader *)

Lemma Opened_isopen bytes r : Opened bytes r -> HandleFileReader.isopen r = true.
Proof.
  intros [Hh _ _ _ _]. unfold HandleFileReader.isopen. rewrite Hh. reflexivity.
Qed.

Lemma Opened_with_os bytes r k :
  Opened bytes r -> k_bytes k = k_bytes (os r) -> Opened bytes (with_os k r).
Proof.
  intros [Hh Hb Hs Hf Hbs] Hk. constructor; cbn; try assumption. congruence.
Qed.

Lemma Opened_with_buffer bytes r b i :
  Opened bytes r -> Opened bytes (with_buffer b i r).
Proof. intros [Hh Hb Hs Hf Hbs]. constructor; cbn; assumption. Qed.

Lemma Cached_with_os bytes r k :
  Cached bytes r -> k_bytes k = k_bytes (os r) -> Cached bytes (with_os k r).
Proof.
  intros [HO Hi Hw Hm] Hk. constructor; cbn; try assumption.
  apply Opened_with_os; assumption.
Qed.

(** Bytes taken from the buffer are the bytes of the file. *)
Lemma buffer_slice bytes r index n :
  Cached bytes r ->
  mBufferIndex r <= index -> 0 <= n ->
  index + n <= mBufferIndex r + len (mBuffer r) ->
  slice (mBuffer r) (index - mBufferIndex r) n = slice bytes index n.
Proof.
  intros [HO Hi Hw Hm] Hle Hn Hin.
  transitivity (slice (slice bytes (mBufferIndex r) (len (mBuffer r)))
                      (index - mBufferIndex r) n).
  - f_equal. exact Hm.
  - rewrite slice_slice by lia. f_equal. lia.
Qed.

Lemma buffer_nth bytes r index :
  Cached bytes r ->
  mBufferIndex r <= index ->
  index + 1 <= mBufferIndex r + len (mBuffer r) ->
  [nth (Z.to_nat (index - mBufferIndex r)) (mBuffer r) x00]
  = slice bytes index 1.
Proof.
  intros HC Hle Hin.
  rewrite <- (buffer_slice bytes r index 1 HC) by lia.
  symmetry. apply slice_one. lia.
Qed.

(** The copy out of the buffer at the end of [read]. *)
Lemma read_copy bytes r dest index n :
  Cached bytes r ->
  mBufferIndex r <= index -> 0 <= n ->
  index + n <= mBufferIndex r + len (mBuffer r) ->
  (if n =? 1
   then (true,
         store dest [nth (Z.to_nat (to_uint64 (index - mBufferIndex r)))
                         (mBuffer r) x00], r)
   else (true,
         store dest (slice (mBuffer r) (to_uint64 (index - mBufferIndex r)) n),
         r))
  = (true, store dest (slice bytes index n), r).
Proof.
  intros HC Hle Hn Hin.
  pose proof (c_window _ _ HC) as Hw. pose proof (c_index _ _ HC) as Hi.
  pose proof (o_fits _ _ (c_opened _ _ HC)) as Hf.
  pose proof (len_nonneg (mBuffer r)) as Hl.
  rewrite to_uint64_small by lia.
  destruct (n =? 1) eqn:E.
  - apply Z.eqb_eq in E. subst n.
    rewrite (buffer_nth bytes r index HC) by lia. reflexivity.
  - rewrite (buffer_slice bytes r index n HC) by lia. reflexivity.
Qed.

(** [read] on a reader whose buffer mirrors the file, for a request inside
    the file and transfers that 32 bits can count. *)
Lemma read_cached bytes r dest index n :
  Cached bytes r ->
  0 <= index -> 0 <= n -> index + n <= len bytes ->
  n < 2 ^ 32 -> mBufferSize r < 2 ^ 32 ->
  exists ok dest' r',
    HandleFileReader.read r dest index n = (ok, dest', r')
    /\ Opened bytes r'
    /\ mBufferSize r' = mBufferSize r
    /\ (ok = true ->
        dest' = store dest (slice bytes index n) /\ Cached bytes r')
    /\ (ok = false -> dest' = dest)
    /\ (k_faults (os r) = [] -> ok = true /\ k_faults (os r') = []).
Proof.
  intros HC Hi Hn Hrange Hn32 Hb32.
  pose proof HC as [HO Hidx Hwin Hmir].
  pose proof HO as [Hh Hb Hsz Hfit Hbs].
  pose proof (len_nonneg (mBuffer r)) as Hl.
  pose proof (Opened_isopen _ _ HO) as Hopen.
  unfold HandleFileReader.read.
  rewrite to_uint64_small by lia.
  destruct (index + n >? mFileSize r) eqn:E1; [apply Z.gtb_lt in E1; lia|].
  destruct (n >? mBufferSize r) eqn:E2.
  - (* larger than the buffer: positioned read *)
    destruct (readnobuffer_spec r dest index n Hopen ltac:(lia))
      as (ok & d & k' & Heq & Hkb & Hok & Hko & Hhl).
    rewrite Heq. exists ok, d, (with_os k' r).
    split; [reflexivity|]. split; [apply Opened_with_os; assumption|].
    split; [reflexivity|]. split.
    + intros Ht. split.
      * rewrite (Hok Ht), to_DWORD_small, Hb by lia. reflexivity.
      * apply Cached_with_os; assumption.
    + split; [assumption|]. exact Hhl.
  - rewrite Z.gtb_ltb in E2. apply Z.ltb_ge in E2.
    rewrite (to_size_t_small (mBufferIndex r + len (mBuffer r))) by lia.
    destruct ((index <? mBufferIndex r)
              || (index + n >? mBufferIndex r + len (mBuffer r))) eqn:E3.
    + (* the window is refilled *)
      rewrite (to_uint64_small (mBufferSize r)) by lia.
      rewrite (to_uint64_small (mFileSize r - index)) by lia.
      set (B := Z.min (mBufferSize r) (mFileSize r - index)).
      assert (HB : 0 <= B < 2 ^ 32) by (unfold B; lia).
      assert (HBn : n <= B) by (unfold B; lia).
      assert (HBf : index + B <= len bytes) by (unfold B; lia).
      rewrite (to_size_t_small B), (to_size_t_small index) by lia.
      cbv zeta.
      set (r0 := with_buffer (resize B (mBuffer r)) index r).
      assert (HO0 : Opened bytes r0) by (apply Opened_with_buffer; assumption).
      destruct (readnobuffer_spec r0 (mBuffer r0) (mBufferIndex r0)
                  (len (mBuffer r0)) (Opened_isopen _ _ HO0) ltac:(cbn; lia))
        as (ok & d & k' & Heq & Hkb & Hok & Hko & Hhl).
      rewrite Heq. cbv beta iota.
      change (mBufferIndex (with_os k' r0)) with index.
      cbn [mBufferIndex with_os with_buffer r0 mBuffer os] in Hok, Hkb, Hhl.
      rewrite resize_length in Hok by lia.
      rewrite to_DWORD_small in Hok by lia.
      set (r1 := with_buffer d index (with_os k' r0)).
      assert (HO1 : Opened bytes r1).
      { constructor; cbn; try assumption. congruence. }
      destruct ok; cbn [negb].
      * specialize (Hok eq_refl). rewrite Hb in Hok.
        assert (Hd : d = slice bytes index B).
        { rewrite Hok. apply store_whole.
          pose proof (resize_length B (mBuffer r) ltac:(lia)) as H1.
          pose proof (slice_length bytes index B ltac:(lia) ltac:(lia) HBf) as H2.
          unfold len in H1, H2. lia. }
        assert (Hld : len d = B) by (rewrite Hd; apply slice_length; lia).
        assert (HC1 : Cached bytes r1).
        { constructor; cbn; try assumption; try lia.
          rewrite Hld. exact Hd. }
        rewrite (read_copy bytes r1 dest index n HC1); cbn; try lia.
        eexists true, _, _. split; [reflexivity|].
        split; [exact HO1|]. split; [reflexivity|].
        split; [intros _; split; [reflexivity | exact HC1]|].
        split; [discriminate|]. intros Hf. split; [reflexivity|].
        apply Hhl. exact Hf.
      * eexists false, dest, _. split; [reflexivity|].
        split; [exact HO1|].
        split; [reflexivity|]. split; [discriminate|].
        split; [reflexivity|]. intros Hf. destruct (Hhl Hf); discriminate.
    + (* the window covers the request *)
      apply orb_false_iff in E3. destruct E3 as [E3 E4].
      apply Z.ltb_ge in E3. rewrite Z.gtb_ltb in E4. apply Z.ltb_ge in E4.
      cbn [negb].
      rewrite (read_copy bytes r dest index n HC) by lia.
      eexists true, _, r. split; [reflexivity|].
      split; [assumption|]. split; [reflexivity|].
      split; [intros _; split; [reflexivity | assumption]|].
      split; [discriminate|]. intros Hf; split; [reflexivity | assumption].
Qed.

(** A request the window covers is served from the buffer: no call is
    made and the reader stays as it is. *)
Lemma read_hit bytes r dest index n :
  Cached bytes r ->
  0 <= n <= mBufferSize r ->
  mBufferIndex r <= index ->
  index + n <= mBufferIndex r + len (mBuffer r) ->
  HandleFileReader.read r dest index n
  = (true, store dest (slice bytes index n), r).
Proof.
  intros HC Hn Hle Hin.
  pose proof HC as [HO Hidx Hwin Hmir].
  pose proof HO as [Hh Hb Hsz Hfit Hbs].
  pose proof (len_nonneg (mBuffer r)) as Hl.
  unfold HandleFileReader.read.
  rewrite to_uint64_small by lia.
  destruct (index + n >? mFileSize r) eqn:E1; [apply Z.gtb_lt in E1; lia|].
  destruct (n >? mBufferSize r) eqn:E2; [apply Z.gtb_lt in E2; lia|].
  rewrite (to_size_t_small (mBufferIndex r + len (mBuffer r))) by lia.
  destruct (index <? mBufferIndex r) eqn:E3; [apply Z.ltb_lt in E3; lia|].
  destruct (index + n >? mBufferIndex r + len (mBuffer r)) eqn:E4;
    [apply Z.gtb_lt in E4; lia|].
  cbn [orb negb]. apply read_copy; assumption || lia.
Qed.

Lemma read_whole bytes r dest index n :
  Whole bytes r ->
  0 <= index -> 0 <= n -> index + n <= len bytes ->
  HandleFileReader.read r dest index n
  = (true, store dest (slice bytes index n), r).
Proof.
  intros (HC & Hi & Hl & Hs) Hidx Hn Hin.
  apply read_hit; try assumption; lia.
Qed.

(** The first read of one byte through an empty buffer as large as the
    file leaves a window that starts at 0 and has the length of the file. *)
Lemma read_fresh_window bytes r dest :
  Cached bytes r ->
  mBuffer r = [] -> mBufferIndex r = 0 -> mBufferSize r = len bytes ->
  1 <= len bytes ->
  let r' := snd (HandleFileReader.read r dest 0 1) in
  mBufferIndex r' = 0 /\ len (mBuffer r') = len bytes.
Proof.
  intros HC Hbuf Hidx Hbs H1.
  pose proof (c_opened _ _ HC) as [Hh Hb Hsz Hfit _].
  unfold HandleFileReader.read. rewrite Hbuf, Hidx, Hbs, Hsz.
  change (len (@nil byte)) with 0.
  rewrite (to_uint64_small (0 + 1)) by lia.
  rewrite (to_size_t_small (0 + 0)) by lia.
  destruct (0 + 1 >? len bytes) eqn:E1; [apply Z.gtb_lt in E1; lia|].
  destruct (1 >? len bytes) eqn:E2; [apply Z.gtb_lt in E2; lia|].
  change ((0 <? 0) || (0 + 1 >? 0 + 0)) with true. cbv iota zeta.
  rewrite (to_uint64_small (len bytes)), (to_uint64_small (len bytes - 0))
    by lia.
  replace (Z.min (len bytes) (len bytes - 0)) with (len bytes) by lia.
  rewrite (to_size_t_small (len bytes)) by lia.
  change (to_size_t 0) with 0.
  match goal with
  | |- context [HandleFileReader.readnobuffer ?a ?b ?c ?d] =>
      destruct (readnobuffer_frame a b c d)
        as (ok & d' & k' & Heq & _ & _ & Hd); rewrite Heq
  end.
  cbn [mBuffer with_buffer mBufferIndex with_os] in Hd |- *.
  assert (Hlen : len d' = len bytes).
  { pose proof (resize_length (len bytes) [] ltac:(lia)) as Hr.
    rewrite Hr in Hd.
    destruct Hd as [->|[p ->]]; [exact Hr|].
    match goal with
    | |- context [slice ?v ?o ?m] => pose proof (slice_length_le v o m) as Hs
    end.
    pose proof (to_DWORD_le (len bytes) ltac:(lia)) as Hd.
    unfold len in *. rewrite store_keeps_length; [exact Hr|]. lia. }
  destruct ok; cbn [negb]; cbn; split; (reflexivity || exact Hlen).
Qed.

(** ** The scan of [parse] *)

Lemma slice_middle (pre : list byte) ch rest :
  slice (pre ++ ch :: rest) (len pre) 1 = [ch].
Proof.
  unfold slice, len. rewrite Nat2Z.id.
  rewrite skipn_app, skipn_all, Nat.sub_diag. reflexivity.
Qed.

Lemma readchar_cached bytes pre ch rest r :
  bytes = pre ++ ch :: rest ->
  Cached bytes r -> mBufferSize r < 2 ^ 32 ->
  exists ok c r',
    IBufferedFileReader.readchar r (len pre) x00 = (ok, c, r')
    /\ Opened bytes r'
    /\ mBufferSize r' = mBufferSize r
    /\ (ok = true -> c = ch /\ Cached bytes r')
    /\ (k_faults (os r) = [] -> ok = true /\ k_faults (os r') = []).
Proof.
  intros Hb HC H32.
  pose proof (len_nonneg pre) as Hp. pose proof (len_nonneg rest) as Hr.
  assert (Hlen : len bytes = len pre + 1 + len rest).
  { rewrite Hb, len_app, len_cons. lia. }
  destruct (read_cached bytes r [x00] (len pre) 1 HC)
    as (ok & d & r' & Heq & HO & Hbs & Hok & Hko & Hh); try lia.
  unfold IBufferedFileReader.readchar.
  cbn [IBufferedFileReader.read HandleFileReader_impl].
  rewrite Heq. exists ok, (hd x00 d), r'.
  split; [reflexivity|]. split; [assumption|]. split; [assumption|].
  split; [|assumption].
  intros Ht. destruct (Hok Ht) as [Hd HC']. split; [|assumption].
  rewrite Hd, Hb, slice_middle. reflexivity.
Qed.

(** The loop of [parse] pushes the offsets [starts] describes; it fails
    only when a read fails, and no read fails without a fault. *)
Lemma parse_loop_starts bytes : forall bs pre r lines ci cs,
  bytes = pre ++ bs ->
  Cached bytes r -> mBufferSize r < 2 ^ 32 ->
  0 <= ci <= len pre -> 0 <= cs <= len pre ->
  exists ok r' lines' ci' cs',
    FileLines.parse_loop (length bs) (len pre) r lines ci cs
    = (ok, r', lines', ci', cs')
    /\ Opened bytes r'
    /\ mBufferSize r' = mBufferSize r
    /\ (ok = true ->
        (if cs' >? 0 then lines' ++ [ci'] else lines')
        = lines ++ starts bs (len pre) ci cs
        /\ 0 <= ci' <= len bytes
        /\ Cached bytes r')
    /\ (k_faults (os r) = [] -> ok = true /\ k_faults (os r') = []).
Proof.
  induction bs as [|ch rest IH]; intros pre r lines ci cs Hb HC H32 Hci Hcs.
  - cbn [length FileLines.parse_loop starts].
    exists true, r, lines, ci, cs.
    split; [reflexivity|]. split; [apply (c_opened _ _ HC)|].
    split; [reflexivity|]. split.
    + intros _. split; [|split; [|assumption]].
      * destruct (cs >? 0); [reflexivity | symmetry; apply app_nil_r].
      * rewrite Hb, app_nil_r. lia.
    + intros Hf; split; [reflexivity | assumption].
  - pose proof (len_nonneg pre) as Hp. pose proof (len_nonneg rest) as Hr.
    pose proof (o_fits _ _ (c_opened _ _ HC)) as Hfit.
    assert (Hlen : len bytes = len pre + 1 + len rest).
    { rewrite Hb, len_app, len_cons. lia. }
    assert (Hpre : len (pre ++ [ch]) = len pre + 1).
    { rewrite len_app, len_cons, len_nil. lia. }
    assert (Hb' : bytes = (pre ++ [ch]) ++ rest).
    { rewrite Hb, <- app_assoc. reflexivity. }
    cbn [length FileLines.parse_loop starts].
    destruct (readchar_cached bytes pre ch rest r Hb HC H32)
      as (ok & c & r1 & Heq & HO1 & Hbs1 & Hok & Hh).
    rewrite Heq. destruct ok; cbn [negb].
    + destruct (Hok eq_refl) as [-> HC1].
      rewrite (to_uint64_small (len pre + 1)) by lia.
      rewrite (to_size_t_small (len pre + 1)) by lia.
      rewrite (to_uint64_small ci) by lia.
      rewrite (to_size_t_small (cs + 1)) by lia.
      rewrite <- Hpre.
      destruct (ch =? CR)%byte eqn:Ecr; [|destruct (ch =? LF)%byte eqn:Elf].
      * destruct (IH (pre ++ [ch]) r1 lines ci cs Hb' HC1)
          as (ok & r' & l' & ci' & cs' & Heq' & HO' & Hbs' & Hok' & Hh');
          try lia.
        exists ok, r', l', ci', cs'. split; [exact Heq'|].
        split; [assumption|]. split; [congruence|]. split; [assumption|].
        intros Hf. apply Hh'. apply Hh. assumption.
      * destruct (IH (pre ++ [ch]) r1 (lines ++ [ci]) (len (pre ++ [ch])) 0
                     Hb' HC1)
          as (ok & r' & l' & ci' & cs' & Heq' & HO' & Hbs' & Hok' & Hh');
          try lia.
        exists ok, r', l', ci', cs'. split; [exact Heq'|].
        split; [assumption|]. split; [congruence|]. split.
        -- intros Ht. destruct (Hok' Ht) as (H1 & H2 & H3).
           split; [|split; assumption].
           rewrite H1, <- app_assoc. reflexivity.
        -- intros Hf. apply Hh'. apply Hh. assumption.
      * destruct (IH (pre ++ [ch]) r1 lines ci (cs + 1) Hb' HC1)
          as (ok & r' & l' & ci' & cs' & Heq' & HO' & Hbs' & Hok' & Hh');
          try lia.
        exists ok, r', l', ci', cs'. split; [exact Heq'|].
        split; [assumption|]. split; [congruence|]. split; [assumption|].
        intros Hf. apply Hh'. apply Hh. assumption.
    + exists false, r1, lines, ci, cs. split; [reflexivity|].
      split; [assumption|]. split; [assumption|]. split; [discriminate|].
      intros Hf. destruct (Hh Hf). discriminate.
Qed.

(** With the whole file in the buffer the loop makes no call and leaves
    the reader as it is. *)
Lemma readchar_whole bytes pre ch rest r :
  bytes = pre ++ ch :: rest ->
  Whole bytes r ->
  IBufferedFileReader.readchar r (len pre) x00 = (true, ch, r).
Proof.
  intros Hb HW.
  pose proof (len_nonneg pre) as Hp. pose proof (len_nonneg rest) as Hr.
  assert (Hlen : len bytes = len pre + 1 + len rest).
  { rewrite Hb, len_app, len_cons. lia. }
  unfold IBufferedFileReader.readchar.
  cbn [IBufferedFileReader.read HandleFileReader_impl].
  rewrite (read_whole bytes r [x00] (len pre) 1 HW) by lia.
  rewrite Hb, slice_middle. reflexivity.
Qed.

Lemma parse_loop_whole bytes : forall bs pre r lines ci cs,
  bytes = pre ++ bs ->
  Whole bytes r ->
  exists lines' ci' cs',
    FileLines.parse_loop (length bs) (len pre) r lines ci cs
    = (true, r, lines', ci', cs').
Proof.
  induction bs as [|ch rest IH]; intros pre r lines ci cs Hb HW.
  - exists lines, ci, cs. reflexivity.
  - pose proof (len_nonneg pre) as Hp. pose proof (len_nonneg rest) as Hr.
    destruct HW as (HC & HW'). pose proof (o_fits _ _ (c_opened _ _ HC)) as Hf.
    assert (HW : Whole bytes r) by (split; assumption).
    assert (Hlen : len bytes = len pre + 1 + len rest).
    { rewrite Hb, len_app, len_cons. lia. }
    assert (Hpre : len (pre ++ [ch]) = len pre + 1).
    { rewrite len_app, len_cons, len_nil. lia. }
    assert (Hb' : bytes = (pre ++ [ch]) ++ rest).
    { rewrite Hb, <- app_assoc. reflexivity. }
    cbn [length FileLines.parse_loop].
    rewrite (readchar_whole bytes pre ch rest r Hb HW). cbn [negb].
    rewrite (to_uint64_small (len pre + 1)) by lia. rewrite <- Hpre.
    destruct (ch =? CR)%byte; [|destruct (ch =? LF)%byte]; apply IH; assumption.
Qed.

(** A scan that starts with an empty buffer as large as the file fills it
    with the whole file at its first read. *)
Lemma parse_loop_fresh bytes r lines ok r' lines' ci' cs' :
  Cached bytes r ->
  mBuffer r = [] -> mBufferIndex r = 0 -> mBufferSize r = len bytes ->
  len bytes < 2 ^ 32 ->
  FileLines.parse_loop (length bytes) 0 r lines 0 0
  = (ok, r', lines', ci', cs') ->
  ok = true -> Whole bytes r'.
Proof.
  intros HC Hbuf Hidx Hbs H32 Heq Hok. subst ok.
  destruct bytes as [|ch rest] eqn:Eb.
  - cbn in Heq. assert (Hr : r' = r) by congruence. subst r'.
    split; [assumption|]. split; [assumption|].
    split; [rewrite Hbuf; reflexivity | assumption].
  - rewrite <- Eb in *.
    assert (H1 : 1 <= len bytes).
    { rewrite Eb, len_cons. pose proof (len_nonneg rest). lia. }
    assert (Hlen : length bytes = S (length rest)) by (rewrite Eb; reflexivity).
    rewrite Hlen in Heq. cbn [FileLines.parse_loop] in Heq.
    destruct (readchar_cached bytes [] ch rest r Eb HC ltac:(lia))
      as (ok & c & r1 & Hrc & _ & Hbs1 & Hok1 & _).
    change (len (@nil byte)) with 0 in Hrc. rewrite Hrc in Heq.
    destruct ok; cbn [negb] in Heq; [|discriminate].
    destruct (Hok1 eq_refl) as [-> HC1].
    assert (HW : Whole bytes r1).
    { pose proof (read_fresh_window bytes r [x00] HC Hbuf Hidx Hbs H1) as Hw.
      unfold IBufferedFileReader.readchar in Hrc.
      cbn [IBufferedFileReader.read HandleFileReader_impl] in Hrc.
      destruct (HandleFileReader.read r [x00] 0 1) as [[ok d] r2].
      cbn [snd] in Hw. assert (Hr : r2 = r1) by congruence. subst r2.
      destruct Hw as [Hw1 Hw2].
      split; [assumption|]. split; [assumption|].
      split; [assumption | congruence]. }
    change (to_uint64 (0 + 1)) with (len [ch]) in Heq.
    change (to_size_t (0 + 1)) with (len [ch]) in Heq.
    destruct (ch =? CR)%byte; [|destruct (ch =? LF)%byte];
      match type of Heq with
      | FileLines.parse_loop _ _ _ ?l ?a ?b = _ =>
          destruct (parse_loop_whole bytes rest [ch] r1 l a b Eb HW)
            as (l2 & ci2 & cs2 & Heq2)
      end;
      rewrite Heq2 in Heq; assert (Hr : r' = r1) by congruence;
      subst r'; exact HW.
Qed.

(** ** Construction of the reader *)

(** The constructor leaves the reader open exactly when neither
    [CreateFileW] nor [GetFileSizeEx] fails. *)
Lemma new_isopen k :
  HandleFileReader.isopen (HandleFileReader.new k)
  = negb (hd false (k_faults k)) && negb (hd false (tl (k_faults k))).
Proof.
  destruct k as [bytes faults o p t].
  unfold HandleFileReader.new, CreateFileW, GetFileSizeEx, fault_now.
  destruct faults as [|[|] [|[|] fs]]; reflexivity.
Qed.

Lemma new_cached k :
  len (k_bytes k) < 2 ^ 63 ->
  HandleFileReader.isopen (HandleFileReader.new k) = true ->
  Cached (k_bytes k) (HandleFileReader.new k)
  /\ mBufferSize (HandleFileReader.new k) = 0
  /\ k_faults (os (HandleFileReader.new k)) = tl (tl (k_faults k)).
Proof.
  intros Hfit. pose proof (len_nonneg (k_bytes k)) as Hl.
  unfold HandleFileReader.new, CreateFileW, GetFileSizeEx, fault_now.
  destruct (hd false (k_faults k)) eqn:F1; [discriminate|].
  cbn [called set_open set_pointer k_faults k_bytes].
  destruct (hd false (tl (k_faults k))) eqn:F2; [discriminate|].
  intros _. split; [|split; reflexivity].
  constructor; cbn; try lia; [|reflexivity].
  constructor; cbn; try lia; try reflexivity.
  apply to_uint64_small. lia.
Qed.

(** ** [parse] *)

Lemma open_new k ok fl :
  FileLines.open FileLines.new k = (ok, fl) ->
  fl = mkFileLines [] (Some (HandleFileReader.new k))
  /\ ok = HandleFileReader.isopen (HandleFileReader.new k).
Proof.
  unfold FileLines.open. cbn. intros H. inversion H. split; reflexivity.
Qed.

Lemma setbuffersize_cached bytes r n :
  Cached bytes r ->
  Cached bytes (HandleFileReader.setbuffersize r n)
  /\ mBufferSize (HandleFileReader.setbuffersize r n)
     = Z.min (to_uint64 n) (len bytes).
Proof.
  intros [[Hh Hb Hs Hf Hbs] Hi Hw Hm].
  pose proof (to_uint64_range n) as Hn.
  pose proof (len_nonneg bytes) as Hl.
  assert (E : to_size_t (Z.min (to_uint64 n) (mFileSize r))
              = Z.min (to_uint64 n) (len bytes)).
  { rewrite Hs. apply to_size_t_small. lia. }
  split; [|exact E].
  constructor; cbn; try assumption.
  constructor; cbn; try assumption. rewrite E. lia.
Qed.

Lemma setbufferdirection_cached bytes r d :
  Cached bytes r -> Cached bytes (HandleFileReader.setbufferdirection r d).
Proof.
  intros [[Hh Hb Hs Hf Hbs] Hi Hw Hm].
  constructor; cbn; try assumption. constructor; cbn; assumption.
Qed.

(** After [open] and [parse] have succeeded the table is [line_starts]. *)
Lemma parse_indexed k fl1 fl2 :
  len (k_bytes k) < 2 ^ 63 ->
  FileLines.open FileLines.new k = (true, fl1) ->
  FileLines.parse fl1 = (true, fl2) ->
  Indexed (k_bytes k) fl2.
Proof.
  intros Hfit Hopen Hparse.
  destruct (open_new _ _ _ Hopen) as [-> Hisopen]. symmetry in Hisopen.
  destruct (new_cached k Hfit Hisopen) as (HC & Hbs0 & _).
  set (bytes := k_bytes k) in *.
  pose proof (len_nonneg bytes) as Hl.
  revert Hparse. unfold FileLines.parse. cbn [mReader mLines].
  cbn [IBufferedFileReader.isopen IBufferedFileReader.size
       IBufferedFileReader.setbuffersize IBufferedFileReader.setbufferdirection
       HandleFileReader_impl].
  rewrite Hisopen. cbn [negb].
  set (r0 := HandleFileReader.setbuffersize _ _).
  assert (HC0 : Cached bytes r0 /\ mBufferSize r0
                = Z.min (10 * 1024 * 1024) (len bytes)).
  { destruct (setbuffersize_cached bytes
                (HandleFileReader.setbufferdirection (HandleFileReader.new k)
                   IBufferedFileReader.Right) (10 * 1024 * 1024)
                (setbufferdirection_cached _ _ _ HC)) as [H1 H2].
    split; [exact H1|]. unfold r0. rewrite H2. reflexivity. }
  destruct HC0 as [HC0 Hbs].
  unfold HandleFileReader.size.
  rewrite (o_size _ _ (c_opened _ _ HC)).
  unfold len at 1. rewrite Nat2Z.id.
  destruct (parse_loop_starts bytes bytes [] r0 [] 0 0 eq_refl HC0
              ltac:(lia) ltac:(unfold len; cbn; lia) ltac:(unfold len; cbn; lia))
    as (ok & r' & l' & ci' & cs' & Heq & HO' & Hbs' & Hok & Hh).
  change (len (@nil byte)) with 0 in Heq. rewrite Heq.
  destruct ok; cbn [negb]; [|discriminate].
  destruct (Hok eq_refl) as (Hl' & Hci & HC').
  rewrite (to_uint64_small ci') by lia.
  rewrite (to_uint64_small (len bytes + 1)) by lia.
  intros H. inversion H; subst fl2; clear H.
  split; cbn [mLines mReader].
  - unfold line_starts. f_equal. exact Hl'.
  - exists r'. split; [reflexivity|]. split; [assumption|]. congruence.
Qed.

(** Without faults [open] and [parse] succeed, and no fault appears. *)
Lemma parse_healthy k :
  len (k_bytes k) < 2 ^ 63 ->
  k_faults k = [] ->
  exists fl1 fl2,
    FileLines.open FileLines.new k = (true, fl1)
    /\ FileLines.parse fl1 = (true, fl2)
    /\ pending fl2 = [].
Proof.
  intros Hfit Hf.
  assert (Hisopen : HandleFileReader.isopen (HandleFileReader.new k) = true).
  { rewrite new_isopen, Hf. reflexivity. }
  destruct (new_cached k Hfit Hisopen) as (HC & Hbs0 & Hf0).
  rewrite Hf in Hf0. cbn in Hf0.
  set (bytes := k_bytes k) in *.
  pose proof (len_nonneg bytes) as Hl.
  exists (mkFileLines [] (Some (HandleFileReader.new k))).
  unfold FileLines.open, FileLines.parse. cbn [FileLines.isopen FileLines.new mReader mLines].
  cbn [IBufferedFileReader.isopen IBufferedFileReader.size
       IBufferedFileReader.setbuffersize IBufferedFileReader.setbufferdirection
       HandleFileReader_impl].
  rewrite Hisopen. cbn [negb].
  set (r0 := HandleFileReader.setbuffersize _ _).
  assert (HC0 : Cached bytes r0 /\ mBufferSize r0
                = Z.min (10 * 1024 * 1024) (len bytes)).
  { destruct (setbuffersize_cached bytes
                (HandleFileReader.setbufferdirection (HandleFileReader.new k)
                   IBufferedFileReader.Right) (10 * 1024 * 1024)
                (setbufferdirection_cached _ _ _ HC)) as [H1 H2].
    split; [exact H1|]. unfold r0. rewrite H2. reflexivity. }
  destruct HC0 as [HC0 Hbs].
  unfold HandleFileReader.size.
  rewrite (o_size _ _ (c_opened _ _ HC)).
  unfold len at 1. rewrite Nat2Z.id.
  destruct (parse_loop_starts bytes bytes [] r0 [] 0 0 eq_refl HC0
              ltac:(lia) ltac:(unfold len; cbn; lia) ltac:(unfold len; cbn; lia))
    as (ok & r' & l' & ci' & cs' & Heq & HO' & Hbs' & Hok & Hh).
  change (len (@nil byte)) with 0 in Heq. rewrite Heq.
  destruct (Hh Hf0) as [-> Hf']. cbn [negb].
  eexists. split; [reflexivity|]. split; [reflexivity|].
  exact Hf'.
Qed.

Lemma new_fresh k :
  mBuffer (HandleFileReader.new k) = []
  /\ mBufferIndex (HandleFileReader.new k) = 0.
Proof.
  destruct k as [bytes faults o p t].
  unfold HandleFileReader.new, CreateFileW, GetFileSizeEx, fault_now.
  destruct faults as [|[|] [|[|] fs]]; split; reflexivity.
Qed.

(** After [open] and [parse] have succeeded on a file of at most 10 MiB
    the buffer holds the whole file. *)
Lemma parse_whole k fl1 fl2 :
  len (k_bytes k) <= 10 * 1024 * 1024 ->
  FileLines.open FileLines.new k = (true, fl1) ->
  FileLines.parse fl1 = (true, fl2) ->
  exists r, mReader fl2 = Some r /\ Whole (k_bytes k) r.
Proof.
  intros Hfit Hopen Hparse.
  destruct (open_new _ _ _ Hopen) as [-> Hisopen]. symmetry in Hisopen.
  destruct (new_cached k ltac:(lia) Hisopen) as (HC & Hbs0 & _).
  destruct (new_fresh k) as [Hbuf Hidx].
  set (bytes := k_bytes k) in *.
  pose proof (len_nonneg bytes) as Hl.
  revert Hparse. unfold FileLines.parse. cbn [mReader mLines].
  cbn [IBufferedFileReader.isopen IBufferedFileReader.size
       IBufferedFileReader.setbuffersize IBufferedFileReader.setbufferdirection
       HandleFileReader_impl].
  rewrite Hisopen. cbn [negb].
  set (r0 := HandleFileReader.setbuffersize _ _).
  assert (HC0 : Cached bytes r0 /\ mBufferSize r0 = len bytes).
  { destruct (setbuffersize_cached bytes
                (HandleFileReader.setbufferdirection (HandleFileReader.new k)
                   IBufferedFileReader.Right) (10 * 1024 * 1024)
                (setbufferdirection_cached _ _ _ HC)) as [H1 H2].
    split; [exact H1|]. unfold r0. rewrite H2.
    change (to_uint64 (10 * 1024 * 1024)) with (10 * 1024 * 1024). lia. }
  destruct HC0 as [HC0 Hbs].
  unfold HandleFileReader.size.
  rewrite (o_size _ _ (c_opened _ _ HC)).
  unfold len at 1. rewrite Nat2Z.id.
  destruct (FileLines.parse_loop (length bytes) 0 r0 [] 0 0)
    as [[[[ok r'] l'] ci'] cs'] eqn:Heq.
  destruct ok; cbn [negb]; [|discriminate].
  intros H. inversion H; subst fl2; clear H.
  exists r'. split; [reflexivity|].
  apply (parse_loop_fresh bytes r0 [] true r' l' ci' cs'); try assumption;
    try reflexivity; lia.
Qed.

Lemma read_steady bytes r dest index n :
  Cached bytes r ->
  k_faults (os r) = [] \/ Whole bytes r ->
  0 <= index -> 0 <= n -> index + n <= len bytes ->
  n < 2 ^ 32 -> mBufferSize r < 2 ^ 32 ->
  exists r',
    HandleFileReader.read r dest index n
    = (true, store dest (slice bytes index n), r')
    /\ Cached bytes r'
    /\ mBufferSize r' = mBufferSize r
    /\ (k_faults (os r') = [] \/ Whole bytes r').
Proof.
  intros HC [Hp|HW] Hi Hn Hin Hn32 Hb32.
  - destruct (read_cached bytes r dest index n HC)
      as (ok & d & r' & Heq & _ & Hbs' & Hok & _ & Hh); try lia.
    destruct (Hh Hp) as [-> Hp']. destruct (Hok eq_refl) as [-> HC'].
    exists r'. split; [exact Heq|]. split; [assumption|].
    split; [assumption | left; assumption].
  - exists r. rewrite (read_whole bytes r dest index n HW) by lia.
    split; [reflexivity|]. split; [assumption|].
    split; [reflexivity | right; assumption].
Qed.

Lemma parse_steady k fl1 fl2 :
  FileLines.open FileLines.new k = (true, fl1) ->
  FileLines.parse fl1 = (true, fl2) ->
  len (k_bytes k) <= 10 * 1024 * 1024
  \/ (len (k_bytes k) < 2 ^ 32 /\ pending fl2 = []) ->
  len (k_bytes k) < 2 ^ 32
  /\ Indexed (k_bytes k) fl2 /\ Steady (k_bytes k) fl2.
Proof.
  intros Hopen Hparse H.
  assert (H32 : len (k_bytes k) < 2 ^ 32) by lia.
  split; [exact H32|].
  split; [apply (parse_indexed k fl1 fl2 ltac:(lia) Hopen Hparse)|].
  destruct H as [Hsmall|[_ Hp]]; [right | left; exact Hp].
  apply (parse_whole k fl1 fl2 Hsmall Hopen Hparse).
Qed.

(** ** The number of lines *)

Lemma drop_cr_snoc cur b :
  drop_cr (cur ++ [b]) = if is_CR b then drop_cr cur else drop_cr cur ++ [b].
Proof.
  unfold drop_cr. rewrite filter_app. cbn [filter].
  destruct (is_CR b); cbn [negb]; [apply app_nil_r | reflexivity].
Qed.

Lemma blank_len cur : blank cur = (len (drop_cr cur) =? 0).
Proof. unfold blank. destruct (drop_cr cur); reflexivity. Qed.

Lemma CR_not_LF b : (b =? CR)%byte = true -> (b =? LF)%byte = false.
Proof. intros H. apply byte_dec_bl in H. subst b. reflexivity. Qed.

(** One offset per line feed, and one more when the final line has a byte
    that is not a carriage return. *)
Lemma starts_length : forall bs cur i ci cs,
  cs = len (drop_cr cur) ->
  len (starts bs i ci cs)
  = count_LF bs + (if blank (final_line_from cur bs) then 0 else 1).
Proof.
  induction bs as [|b rest IH]; intros cur i ci cs Hcs.
  - cbn [starts final_line_from]. unfold count_LF. cbn [filter].
    rewrite blank_len, <- Hcs.
    pose proof (len_nonneg (drop_cr cur)) as Hl.
    destruct (cs >? 0) eqn:E; destruct (cs =? 0) eqn:E'; try reflexivity;
      rewrite Z.gtb_ltb in E;
      [apply Z.ltb_lt in E | apply Z.ltb_ge in E];
      [apply Z.eqb_eq in E' | apply Z.eqb_neq in E']; lia.
  - cbn [starts final_line_from]. unfold count_LF, is_LF. cbn [filter].
    fold is_LF. fold (count_LF rest).
    destruct (b =? CR)%byte eqn:Ecr.
    + rewrite (CR_not_LF _ Ecr).
      apply IH. rewrite drop_cr_snoc. unfold is_CR. rewrite Ecr. assumption.
    + destruct (b =? LF)%byte eqn:Elf.
      * rewrite !len_cons. fold (count_LF rest).
        rewrite (IH [] (i + 1) (i + 1) 0) by reflexivity. lia.
      * apply IH. rewrite drop_cr_snoc. unfold is_CR. rewrite Ecr.
        rewrite len_app, len_cons, len_nil. lia.
Qed.

Lemma count_LF_le bs : 0 <= count_LF bs <= len bs.
Proof.
  unfold count_LF, len. pose proof (filter_length_le is_LF bs). lia.
Qed.

Lemma line_starts_length bytes :
  len (line_starts bytes)
  = count_LF bytes + (if blank (final_line bytes) then 0 else 1) + 1.
Proof.
  unfold line_starts. rewrite len_app.
  change (len [len bytes + 1]) with 1.
  rewrite (starts_length bytes [] 0 0 0) by reflexivity.
  unfold final_line. lia.
Qed.

Lemma Indexed_size bytes fl :
  len bytes < 2 ^ 63 ->
  Indexed bytes fl ->
  FileLines.size fl
  = count_LF bytes + (if blank (final_line bytes) then 0 else 1).
Proof.
  intros Hfit [Hl _]. unfold FileLines.size.
  rewrite Hl, line_starts_length.
  pose proof (count_LF_le bytes).
  rewrite to_size_t_small; destruct (blank (final_line bytes)); lia.
Qed.

(** C3. After a successful [open] and [parse], [size()] (the line count)
    equals the number of line-feed bytes of the file, plus one when the
    bytes after the last line feed are not empty once carriage returns are
    dropped; for the empty file it is 0. *)
Theorem lineCount_counts_line_feeds k fl1 fl2 :
  len (k_bytes k) < 2 ^ 63 ->
  FileLines.open FileLines.new k = (true, fl1) ->
  FileLines.parse fl1 = (true, fl2) ->
  FileLines.size fl2
  = count_LF (k_bytes k)
    + (if blank (final_line (k_bytes k)) then 0 else 1)
  /\ (k_bytes k = [] -> FileLines.size fl2 = 0).
Proof.
  intros Hfit Hopen Hparse.
  pose proof (parse_indexed k fl1 fl2 Hfit Hopen Hparse) as HI.
  pose proof (Indexed_size _ _ Hfit HI) as Hs.
  split; [exact Hs|].
  intros Hnil. rewrite Hs, Hnil. reflexivity.
Qed.

(** ** The offset table *)

Lemma starts_chain : forall bs i ci cs lo e,
  lo < ci -> ci <= i -> i + len bs < e ->
  increasing (lo :: starts bs i ci cs ++ [e]).
Proof.
  induction bs as [|b rest IH]; intros i ci cs lo e Hlo Hci He.
  - cbn [starts]. rewrite len_nil in He.
    destruct (cs >? 0); cbn; repeat split; lia.
  - rewrite len_cons in He. cbn [starts].
    destruct (b =? CR)%byte; [|destruct (b =? LF)%byte].
    + apply IH; lia.
    + change (increasing (lo :: ci :: starts rest (i + 1) (i + 1) 0 ++ [e])).
      split; [assumption|]. apply IH; lia.
    + apply IH; lia.
Qed.

Lemma starts_bounds : forall bs i ci cs x,
  ci <= i -> In x (starts bs i ci cs) -> ci <= x <= i + len bs.
Proof.
  induction bs as [|b rest IH]; intros i ci cs x Hci Hin.
  - cbn [starts] in Hin. rewrite len_nil.
    destruct (cs >? 0); cbn in Hin; [|tauto].
    destruct Hin as [<-|[]]. lia.
  - rewrite len_cons. pose proof (len_nonneg rest) as Hr.
    cbn [starts] in Hin.
    destruct (b =? CR)%byte; [|destruct (b =? LF)%byte].
    + apply IH in Hin; lia.
    + destruct Hin as [<-|Hin]; [lia|]. apply IH in Hin; lia.
    + apply IH in Hin; lia.
Qed.

Lemma increasing_nth : forall l j,
  increasing l -> (S j < length l)%nat -> nth j l 0 < nth (S j) l 0.
Proof.
  induction l as [|a l IH]; intros j Hinc Hj; [cbn in Hj; lia|].
  destruct l as [|b l]; [cbn in Hj; lia|].
  destruct Hinc as [Hab Hinc].
  destruct j as [|j]; [exact Hab|].
  apply (IH j Hinc). cbn in Hj |- *. lia.
Qed.

(** Consecutive entries of the table are increasing and lie between 0 and
    the sentinel. *)
Lemma line_starts_step bytes j :
  0 <= j -> j + 1 < len (line_starts bytes) ->
  0 <= nth (Z.to_nat j) (line_starts bytes) 0
  /\ nth (Z.to_nat j) (line_starts bytes) 0
     < nth (Z.to_nat (j + 1)) (line_starts bytes) 0
  /\ nth (Z.to_nat (j + 1)) (line_starts bytes) 0 <= len bytes + 1.
Proof.
  intros Hj Hlen. unfold len in Hlen at 1.
  pose proof (len_nonneg bytes) as Hl.
  assert (Hb : forall x, In x (line_starts bytes) -> 0 <= x <= len bytes + 1).
  { intros x Hin. unfold line_starts in Hin. apply in_app_or in Hin.
    destruct Hin as [Hin|[<-|[]]]; [|lia].
    apply starts_bounds in Hin; lia. }
  assert (Hinc : increasing (line_starts bytes)).
  { pose proof (starts_chain bytes 0 0 0 (-1) (len bytes + 1)
                  ltac:(lia) ltac:(lia) ltac:(lia)) as H.
    change (increasing (-1 :: line_starts bytes)) in H.
    destruct (line_starts bytes); [exact I | apply H]. }
  replace (Z.to_nat (j + 1)) with (S (Z.to_nat j)) by lia.
  split; [|split].
  - apply Hb, nth_In. lia.
  - apply increasing_nth; [assumption | lia].
  - apply Hb, nth_In. lia.
Qed.

(** ** Stripping carriage returns *)

Lemma pop_back_cr_app l m :
  FileLines.pop_back_cr (l ++ m)
  = match FileLines.pop_back_cr l with
    | [] => FileLines.pop_back_cr m
    | kept => kept ++ m
    end.
Proof.
  induction l as [|b l IH]; [reflexivity|].
  cbn [app FileLines.pop_back_cr].
  destruct (b =? CR)%byte; [exact IH | reflexivity].
Qed.

(** The loop of [operator[]] removes the carriage returns at the end. *)
Lemma strip_cr_rstrip s : FileLines.strip_cr s = rstrip_cr s.
Proof.
  unfold FileLines.strip_cr.
  induction s as [|b s IH]; [reflexivity|].
  cbn [rev rstrip_cr]. rewrite pop_back_cr_app, <- IH.
  destruct (FileLines.pop_back_cr (rev s)) as [|x kept] eqn:E.
  - cbn [rev FileLines.pop_back_cr]. unfold is_CR.
    destruct (b =? CR)%byte; reflexivity.
  - rewrite rev_app_distr. cbn [rev app].
    destruct (rev kept ++ [x]) eqn:E'; [|reflexivity].
    apply app_eq_nil in E'. destruct E'; discriminate.
Qed.

(** ** [operator[]] *)

Lemma Indexed_size_table bytes fl :
  len bytes < 2 ^ 63 -> Indexed bytes fl ->
  FileLines.size fl = len (line_starts bytes) - 1.
Proof.
  intros Hfit HI. rewrite (Indexed_size _ _ Hfit HI), line_starts_length. lia.
Qed.

Lemma line_starts_length_le bytes : len (line_starts bytes) <= len bytes + 2.
Proof.
  rewrite line_starts_length. pose proof (count_LF_le bytes).
  destruct (blank (final_line bytes)); lia.
Qed.

(** On an indexed file under 4 GiB and without faults, [operator[]] gives
    the bytes between two entries of the table, less the last one and the
    carriage returns before it, and the index stays as it was. *)
Lemma subscript_indexed bytes fl i :
  len bytes < 2 ^ 32 ->
  Indexed bytes fl -> Steady bytes fl ->
  0 <= i < FileLines.size fl ->
  exists fl',
    FileLines.operator_subscript fl i
    = (rstrip_cr (span bytes (nth (Z.to_nat i) (line_starts bytes) 0)
                       (nth (Z.to_nat (i + 1)) (line_starts bytes) 0 - 1)),
       fl')
    /\ Indexed bytes fl' /\ Steady bytes fl' /\ mLines fl' = mLines fl.
Proof.
  intros H32 HI Hp Hi.
  rewrite (Indexed_size_table bytes fl ltac:(lia) HI) in Hi.
  destruct HI as (Hl & r & Hr & HC & Hbs).
  assert (Hp' : k_faults (os r) = [] \/ Whole bytes r).
  { destruct Hp as [Hp|(r2 & Hr2 & HW)].
    - left. unfold pending in Hp. rewrite Hr in Hp. exact Hp.
    - right. congruence. }
  clear Hp.
  pose proof (len_nonneg bytes) as Hlb.
  pose proof (line_starts_length_le bytes) as Hlt.
  destruct (line_starts_step bytes i ltac:(lia) ltac:(lia)) as (Ha & Hab & Hb).
  unfold FileLines.operator_subscript. rewrite Hr, Hl.
  rewrite (to_size_t_small (i + 1)) by lia.
  set (a := nth (Z.to_nat i) (line_starts bytes) 0) in *.
  set (b := nth (Z.to_nat (i + 1)) (line_starts bytes) 0) in *.
  rewrite (to_uint64_small (b - a - 1)) by lia.
  rewrite (to_size_t_small (b - a - 1)) by lia.
  unfold IBufferedFileReader.readstring.
  cbn [IBufferedFileReader.read HandleFileReader_impl].
  destruct (read_steady bytes r (resize (b - a - 1) []) a (b - a - 1) HC Hp')
    as (r' & Heq & HC' & Hbs' & Hp''); try lia.
  rewrite Heq.
  assert (Hd' : store (resize (b - a - 1) []) (slice bytes a (b - a - 1))
                = span bytes a (b - 1)).
  { unfold span. replace (b - 1 - a) with (b - a - 1) by lia.
    apply store_whole.
    pose proof (resize_length (b - a - 1) [] ltac:(lia)) as H1.
    pose proof (slice_length bytes a (b - a - 1)
                  ltac:(lia) ltac:(lia) ltac:(lia)) as H2.
    unfold len in H1, H2. lia. }
  eexists. split; [rewrite strip_cr_rstrip, Hd'; reflexivity|].
  split; [|split; [|reflexivity]].
  - split; [reflexivity|]. exists r'.
    split; [reflexivity|]. split; [assumption | congruence].
  - destruct Hp'' as [Hp''|HW]; [left; exact Hp''|].
    right. exists r'. split; [reflexivity | exact HW].
Qed.

Lemma after_lines_indexed bytes : forall js fl,
  len bytes < 2 ^ 32 ->
  Indexed bytes fl -> Steady bytes fl ->
  Forall (fun j => 0 <= j < FileLines.size fl) js ->
  Indexed bytes (after_lines fl js)
  /\ Steady bytes (after_lines fl js)
  /\ mLines (after_lines fl js) = mLines fl.
Proof.
  induction js as [|j js IH]; intros fl H32 HI Hp Hjs.
  - cbn. split; [assumption | split; [assumption | reflexivity]].
  - inversion Hjs as [|? ? Hj Hjs']; subst.
    destruct (subscript_indexed bytes fl j H32 HI Hp Hj)
      as (fl' & Heq & HI' & Hp' & Hl').
    unfold after_lines. cbn [fold_left]. rewrite Heq. cbn [snd].
    fold (after_lines fl' js).
    assert (Hs : FileLines.size fl' = FileLines.size fl).
    { unfold FileLines.size. rewrite Hl'. reflexivity. }
    destruct (IH fl' H32 HI' Hp') as (H1 & H2 & H3).
    { rewrite Hs. assumption. }
    split; [assumption | split; [assumption | congruence]].
Qed.

(** ** All lines *)

Lemma skipn_nth {A} (d : A) : forall (l : list A) (i : nat),
  (i < length l)%nat -> skipn i l = nth i l d :: skipn (S i) l.
Proof.
  induction l as [|x l IH]; intros [|i] Hi; cbn in Hi |- *; try lia.
  - reflexivity.
  - apply IH. lia.
Qed.

Lemma lines_from_spans bytes : forall n i fl,
  len bytes < 2 ^ 32 ->
  Indexed bytes fl -> Steady bytes fl ->
  0 <= i -> i + Z.of_nat n = FileLines.size fl ->
  lines_from n i fl
  = map rstrip_cr (spans bytes (skipn (Z.to_nat i) (line_starts bytes))).
Proof.
  induction n as [|n IH]; intros i fl H32 HI Hp Hi Hn.
  - rewrite (Indexed_size_table bytes fl ltac:(lia) HI) in Hn.
    unfold len in Hn. cbn [lines_from].
    assert (Hl : (Z.to_nat i < length (line_starts bytes))%nat) by lia.
    rewrite (skipn_nth 0 _ _ Hl), skipn_all2 by lia. reflexivity.
  - cbn [lines_from].
    destruct (subscript_indexed bytes fl i H32 HI Hp ltac:(lia))
      as (fl' & Heq & HI' & Hp' & Hl').
    rewrite Heq.
    assert (Hs : FileLines.size fl' = FileLines.size fl).
    { unfold FileLines.size. rewrite Hl'. reflexivity. }
    rewrite (IH (i + 1) fl' H32 HI' Hp') by lia.
    rewrite (Indexed_size_table bytes fl ltac:(lia) HI) in Hn.
    unfold len in Hn.
    assert (H1 : (Z.to_nat i < length (line_starts bytes))%nat) by lia.
    assert (H2 : (S (Z.to_nat i) < length (line_starts bytes))%nat) by lia.
    replace (Z.to_nat (i + 1)) with (S (Z.to_nat i)) by lia.
    assert (E : spans bytes (skipn (Z.to_nat i) (line_starts bytes))
                = span bytes (nth (Z.to_nat i) (line_starts bytes) 0)
                       (nth (S (Z.to_nat i)) (line_starts bytes) 0 - 1)
                  :: spans bytes (skipn (S (Z.to_nat i)) (line_starts bytes))).
    { rewrite (skipn_nth 0 _ _ H1), (skipn_nth 0 _ _ H2). reflexivity. }
    rewrite E. reflexivity.
Qed.

Lemma all_lines_spans bytes fl :
  len bytes < 2 ^ 32 ->
  Indexed bytes fl -> Steady bytes fl ->
  all_lines fl = map rstrip_cr (spans bytes (line_starts bytes)).
Proof.
  intros H32 HI Hp. unfold all_lines.
  assert (Hs : 0 <= FileLines.size fl).
  { rewrite (Indexed_size bytes fl ltac:(lia) HI).
    pose proof (count_LF_le bytes). destruct (blank (final_line bytes)); lia. }
  rewrite (lines_from_spans bytes _ 0 fl H32 HI Hp) by lia.
  reflexivity.
Qed.

Lemma slice_inner (pre seg rest : list byte) :
  slice (pre ++ seg ++ rest) (len pre) (len seg) = seg.
Proof.
  unfold slice, len. rewrite !Nat2Z.id.
  rewrite skipn_app, skipn_all, Nat.sub_diag. cbn [skipn app].
  rewrite firstn_app, firstn_all, Nat.sub_diag. cbn [firstn].
  apply app_nil_r.
Qed.

Lemma starts_head : forall bs i ci cs x l,
  starts bs i ci cs = x :: l -> x = ci.
Proof.
  induction bs as [|b rest IH]; intros i ci cs x l H; cbn [starts] in H.
  - destruct (cs >? 0); inversion H; reflexivity.
  - destruct (b =? CR)%byte; [|destruct (b =? LF)%byte].
    + eapply IH; eassumption.
    + inversion H; reflexivity.
    + eapply IH; eassumption.
Qed.

Lemma spans_starts bytes : forall bs pre seg cs,
  bytes = pre ++ seg ++ bs ->
  cs = len (drop_cr seg) ->
  spans bytes (starts bs (len pre + len seg) (len pre) cs ++ [len bytes + 1])
  = raw_from seg bs.
Proof.
  induction bs as [|b rest IH]; intros pre seg cs Hb Hcs.
  - cbn [starts raw_from]. rewrite blank_len, <- Hcs.
    pose proof (len_nonneg (drop_cr seg)) as Hl.
    assert (Hseg : span bytes (len pre) (len bytes + 1 - 1) = seg).
    { unfold span. rewrite Hb, !len_app, len_nil.
      replace (len pre + (len seg + 0) + 1 - 1 - len pre) with (len seg) by lia.
      apply slice_inner. }
    destruct (cs >? 0) eqn:E; rewrite Z.gtb_ltb in E.
    + apply Z.ltb_lt in E.
      destruct (cs =? 0) eqn:E'; [apply Z.eqb_eq in E'; lia|].
      cbn [app spans]. rewrite Hseg. reflexivity.
    + apply Z.ltb_ge in E.
      destruct (cs =? 0) eqn:E'; [reflexivity | apply Z.eqb_neq in E'; lia].
  - cbn [starts raw_from]. unfold is_LF.
    destruct (b =? CR)%byte eqn:Ecr; [|destruct (b =? LF)%byte eqn:Elf].
    + rewrite (CR_not_LF _ Ecr).
      replace (len pre + len seg + 1) with (len pre + len (seg ++ [b]))
        by (rewrite len_app, len_cons, len_nil; lia).
      apply IH.
      * rewrite Hb, <- app_assoc. reflexivity.
      * rewrite drop_cr_snoc. unfold is_CR. rewrite Ecr. assumption.
    + specialize (IH (pre ++ seg ++ [b]) [] 0).
      assert (Hl1 : len (pre ++ seg ++ [b]) = len pre + len seg + 1).
      { rewrite !len_app. unfold len. cbn [length]. lia. }
      rewrite Hl1 in IH. change (len (@nil byte)) with 0 in IH.
      rewrite Z.add_0_r in IH.
      rewrite <- IH;
        [|rewrite Hb, <- !app_assoc; reflexivity | reflexivity].
      destruct (starts rest (len pre + len seg + 1) (len pre + len seg + 1) 0)
        as [|x l] eqn:Est.
      * cbn [app spans]. f_equal. unfold span.
        rewrite Hb at 2. rewrite !len_app.
        replace (len pre + (len seg + len (b :: rest)) + 1 - 1 - len pre)
          with (len (seg ++ b :: rest)) by (rewrite len_app; lia).
        rewrite Hb.
        replace (pre ++ seg ++ b :: rest) with (pre ++ (seg ++ b :: rest) ++ [])
          by (rewrite app_nil_r; reflexivity).
        apply slice_inner.
      * pose proof (starts_head _ _ _ _ _ _ Est) as ->.
        assert (Hseg : span bytes (len pre) (len pre + len seg + 1 - 1) = seg).
        { unfold span.
          replace (len pre + len seg + 1 - 1 - len pre) with (len seg) by lia.
          rewrite Hb. apply slice_inner. }
        change ((len pre :: (len pre + len seg + 1 :: l)) ++ [len bytes + 1])
          with (len pre :: len pre + len seg + 1 :: l ++ [len bytes + 1]).
        change (((len pre + len seg + 1) :: l) ++ [len bytes + 1])
          with (len pre + len seg + 1 :: l ++ [len bytes + 1]).
        remember (len pre + len seg + 1 :: l ++ [len bytes + 1]) as T eqn:ET.
        cbn [spans]. rewrite ET at 1. rewrite Hseg.
        destruct (spans bytes T) eqn:Esp; [|reflexivity].
        rewrite ET in Esp. destruct l; discriminate.
    + replace (len pre + len seg + 1) with (len pre + len (seg ++ [b]))
        by (rewrite len_app, len_cons, len_nil; lia).
      apply IH.
      * rewrite Hb, <- app_assoc. reflexivity.
      * rewrite drop_cr_snoc. unfold is_CR. rewrite Ecr.
        rewrite len_app, len_cons, len_nil. lia.
Qed.

Lemma line_starts_spans bytes :
  spans bytes (line_starts bytes) = raw_from [] bytes.
Proof.
  unfold line_starts.
  apply (spans_starts bytes bytes [] [] 0); reflexivity.
Qed.

(** ** Joining the lines *)

Lemma is_LF_not_CR b : is_LF b = true -> is_CR b = false.
Proof.
  unfold is_LF, is_CR. intros H. apply byte_dec_bl in H. subst b. reflexivity.
Qed.

Lemma rstrip_cr_incl : forall s x, In x (rstrip_cr s) -> In x s.
Proof.
  induction s as [|b s IH]; intros x Hin; [exact Hin|].
  cbn [rstrip_cr] in Hin.
  destruct (rstrip_cr s) as [|y kept].
  - destruct (is_CR b); [destruct Hin|].
    destruct Hin as [<-|[]]. left; reflexivity.
  - destruct Hin as [<-|Hin]; [left; reflexivity | right; apply IH; exact Hin].
Qed.

Lemma no_LF_in cur x :
  existsb is_LF cur = false -> In x cur -> is_LF x = false.
Proof.
  intros H Hin. destruct (is_LF x) eqn:E; [|reflexivity].
  assert (existsb is_LF cur = true) by (apply existsb_exists; eauto).
  congruence.
Qed.

(** On bytes without a line feed [chomp] removes the carriage returns at
    the end. *)
Lemma chomp_line : forall cur,
  existsb is_LF cur = false -> chomp cur = rstrip_cr cur.
Proof.
  induction cur as [|b c IH]; intros H; [reflexivity|].
  cbn [existsb] in H. apply orb_false_iff in H. destruct H as [Hb Hc].
  cbn [chomp rstrip_cr]. rewrite (IH Hc).
  destruct (rstrip_cr c) as [|x kept] eqn:E.
  - rewrite andb_true_r. reflexivity.
  - assert (Hx : is_LF x = false).
    { apply (no_LF_in c); [assumption|].
      apply rstrip_cr_incl. rewrite E. left; reflexivity. }
    rewrite Hx, andb_false_r. reflexivity.
Qed.

Lemma chomp_app_LF : forall cur b rest,
  existsb is_LF cur = false -> is_LF b = true ->
  chomp (cur ++ b :: rest) = rstrip_cr cur ++ b :: chomp rest.
Proof.
  induction cur as [|a c IH]; intros b rest H Hb.
  - cbn [app chomp rstrip_cr]. rewrite (is_LF_not_CR _ Hb). reflexivity.
  - cbn [existsb] in H. apply orb_false_iff in H. destruct H as [Ha Hc].
    cbn [app chomp rstrip_cr]. rewrite (IH b rest Hc Hb).
    destruct (rstrip_cr c) as [|x kept] eqn:E.
    + cbn [app]. rewrite Hb, andb_true_r.
      destruct (is_CR a); reflexivity.
    + assert (Hx : is_LF x = false).
      { apply (no_LF_in c); [assumption|].
        apply rstrip_cr_incl. rewrite E. left; reflexivity. }
      cbn [app]. rewrite Hx, andb_false_r. reflexivity.
Qed.

Lemma blank_rstrip : forall cur, blank cur = true -> rstrip_cr cur = [].
Proof.
  unfold blank, drop_cr.
  induction cur as [|b c IH]; intros H; [reflexivity|].
  cbn [filter] in H. cbn [rstrip_cr].
  destruct (is_CR b); cbn [negb] in H; [|discriminate].
  rewrite (IH H). reflexivity.
Qed.

Lemma raw_from_nil : forall bs cur,
  raw_from cur bs = [] ->
  existsb is_LF bs = false /\ blank (final_line_from cur bs) = true.
Proof.
  induction bs as [|b rest IH]; intros cur H; cbn [raw_from] in H.
  - split; [reflexivity|]. cbn [final_line_from].
    destruct (blank cur); [reflexivity | discriminate].
  - cbn [existsb final_line_from].
    destruct (is_LF b).
    + destruct (raw_from [] rest); discriminate.
    + apply IH in H. exact H.
Qed.

Lemma concat_lf_cons (l : list byte) ls :
  concat (map (cons LF) (l :: ls)) = LF :: join_lf (l :: ls).
Proof. reflexivity. Qed.

(** Unless the file ends with a line feed, the lines of the table, each
    without the carriage returns at its end, joined with line feeds are the
    file without the carriage returns that end a line. *)
Lemma join_raw_chomp : forall bs cur,
  existsb is_LF cur = false ->
  existsb is_LF bs && blank (final_line_from cur bs) = false ->
  join_lf (map rstrip_cr (raw_from cur bs)) = chomp (cur ++ bs).
Proof.
  induction bs as [|b rest IH]; intros cur Hcur H.
  - cbn [raw_from]. rewrite app_nil_r, (chomp_line cur Hcur).
    destruct (blank cur) eqn:E.
    + rewrite (blank_rstrip cur E). reflexivity.
    + cbn. apply app_nil_r.
  - cbn [raw_from existsb final_line_from] in *.
    destruct (is_LF b) eqn:Eb.
    + cbn [orb andb] in H.
      rewrite (chomp_app_LF cur b rest Hcur Eb).
      assert (Hr : join_lf (map rstrip_cr (raw_from [] rest)) = chomp rest).
      { apply (IH [] eq_refl). rewrite H. apply andb_false_r. }
      rewrite <- Hr.
      assert (Hb : b = LF) by (apply byte_dec_bl; exact Eb).
      destruct (raw_from [] rest) as [|l ls] eqn:Er.
      * apply raw_from_nil in Er. destruct Er as [_ Er]. congruence.
      * subst b. reflexivity.
    + cbn [orb] in H.
      rewrite (IH (cur ++ [b])).
      * rewrite <- app_assoc. reflexivity.
      * rewrite existsb_app. cbn [existsb]. rewrite Hcur, Eb. reflexivity.
      * exact H.
Qed.


(** ** The vocabulary, checked *)

Lemma final_line_no_LF : forall t cur,
  existsb is_LF t = false -> final_line_from cur t = cur ++ t.
Proof.
  induction t as [|b t IH]; intros cur H; cbn [final_line_from].
  - symmetry. apply app_nil_r.
  - cbn [existsb] in H. apply orb_false_iff in H. destruct H as [Hb Ht].
    rewrite Hb, (IH _ Ht), <- app_assoc. reflexivity.
Qed.

(** [final_line] gives the bytes after the last line feed. *)
Lemma final_line_after_LF : forall pre cur b t,
  is_LF b = true -> existsb is_LF t = false ->
  final_line_from cur (pre ++ b :: t) = t.
Proof.
  induction pre as [|a pre IH]; intros cur b t Hb Ht; cbn [app final_line_from].
  - rewrite Hb. apply (final_line_no_LF t [] Ht).
  - destruct (is_LF a); apply IH; assumption.
Qed.

Lemma drop_cr_id : forall bs, existsb is_CR bs = false -> drop_cr bs = bs.
Proof.
  unfold drop_cr. induction bs as [|b bs IH]; intros H; [reflexivity|].
  cbn [existsb] in H. apply orb_false_iff in H. destruct H as [Hb Hbs].
  cbn [filter]. rewrite Hb, (IH Hbs). reflexivity.
Qed.

(** [chomp] removes carriage returns only. *)
Lemma drop_cr_chomp : forall bs, drop_cr (chomp bs) = drop_cr bs.
Proof.
  unfold drop_cr. induction bs as [|b bs IH]; [reflexivity|].
  cbn [chomp filter].
  destruct (is_CR b) eqn:Eb; cbn [andb negb].
  - destruct (chomp bs) as [|c kept] eqn:E.
    + exact IH.
    + destruct (is_LF c); [exact IH|].
      cbn [filter]. rewrite Eb. exact IH.
  - cbn [filter]. rewrite Eb. cbn [negb]. rewrite IH. reflexivity.
Qed.

Lemma chomp_no_CR : forall bs, existsb is_CR bs = false -> chomp bs = bs.
Proof.
  induction bs as [|b bs IH]; intros H; [reflexivity|].
  cbn [existsb] in H. apply orb_false_iff in H. destruct H as [Hb Hbs].
  cbn [chomp]. rewrite Hb, (IH Hbs). reflexivity.
Qed.

(** When every carriage return of the file ends a line, [chomp] removes
    all of them. *)
Lemma chomp_drop_cr bs :
  existsb is_CR (chomp bs) = false -> chomp bs = drop_cr bs.
Proof.
  intros H. rewrite <- (drop_cr_chomp bs). symmetry. apply drop_cr_id, H.
Qed.

(** So for such a file, not ending with a line feed, the joined lines are
    the file without its carriage returns. *)
Corollary join_lines_drop_cr k fl1 fl2 :
  FileLines.open FileLines.new k = (true, fl1) ->
  FileLines.parse fl1 = (true, fl2) ->
  len (k_bytes k) <= 10 * 1024 * 1024
  \/ (len (k_bytes k) < 2 ^ 32 /\ pending fl2 = []) ->
  ends_terminated (k_bytes k) = false ->
  existsb is_CR (chomp (k_bytes k)) = false ->
  join_lf (all_lines fl2) = drop_cr (k_bytes k).
Proof.
  intros Hopen Hparse Hrel Hend Hcr.
  rewrite <- (chomp_drop_cr _ Hcr).
  destruct (parse_steady k fl1 fl2 Hopen Hparse Hrel) as (H32 & HI & Hp).
  rewrite (all_lines_spans _ _ H32 HI Hp), line_starts_spans.
  apply (join_raw_chomp (k_bytes k) [] eq_refl). exact Hend.
Qed.

(** ** The range check of [read] *)

(** A request whose end is representable and lies beyond the recorded size
    is turned down at once: nothing is stored, the reader and the kernel
    state, and so the list of calls made, stay as they were. *)
Lemma read_beyond_size r dest index n :
  0 <= index -> 0 <= n -> index + n < 2 ^ 64 ->
  index + n > mFileSize r ->
  HandleFileReader.read r dest index n = (false, dest, r).
Proof.
  intros Hi Hn Hfit Hgt. unfold HandleFileReader.read.
  rewrite to_uint64_small by lia.
  destruct (index + n >? mFileSize r) eqn:E; [reflexivity|].
  rewrite Z.gtb_ltb in E. apply Z.ltb_ge in E. lia.
Qed.

Lemma firstn_short {A} (l : list A) n :
  (length l <= n)%nat -> firstn n l = l.
Proof. apply firstn_all2. Qed.

(** C6, the request the range check lets through.  On a two-byte file and
    a reader as constructed, [read(dest, 1, 2^64 - 1)] asks for bytes far
    beyond the end: [index + size] wraps to 0, the check passes, the file
    pointer is moved, [ReadFile] is called and [read] returns [true]. *)
Theorem read_wrapped_range_not_rejected :
  let r := HandleFileReader.new (mkKernel ["a"; "b"]%byte [] false 0 []) in
  HandleFileReader.isopen r = true
  /\ 1 + (2 ^ 64 - 1) > HandleFileReader.size r
  /\ exists r',
      HandleFileReader.read r [x00] 1 (2 ^ 64 - 1) = (true, ["b"%byte], r')
      /\ k_trace (os r')
         = k_trace (os r) ++ [SysSetFilePointerEx 1; SysReadFile (2 ^ 32 - 1)].
Proof.
  cbv zeta. split; [reflexivity|]. split; [reflexivity|].
  unfold HandleFileReader.read.
  change (to_uint64 (1 + (2 ^ 64 - 1))) with 0.
  change (mFileSize (HandleFileReader.new _)) with 2.
  change (mBufferSize (HandleFileReader.new _)) with 0.
  change (0 >? 2) with false. change (2 ^ 64 - 1 >? 0) with true. cbv iota.
  unfold HandleFileReader.readnobuffer.
  change (HandleFileReader.isopen (HandleFileReader.new _)) with true.
  cbv iota. cbn [negb].
  change (to_LONGLONG 1) with 1. change (to_DWORD (2 ^ 64 - 1)) with (2 ^ 32 - 1).
  unfold SetFilePointerEx, ReadFile, fault_now. cbn [negb orb].
  eexists. split.
  - apply f_equal2; [apply f_equal2; [reflexivity|] | reflexivity].
    unfold store, slice.
    match goal with
    | |- context [skipn ?a ?l] => change (skipn a l) with ["b"%byte]
    end.
    rewrite firstn_short by (cbn [length]; lia). reflexivity.
  - reflexivity.
Qed.

(** ** Failure of the constructor *)

(** C7. When the constructor leaves the reader not open (its [open]
    returned [false]: [CreateFileW] or [GetFileSizeEx] failed), the member
    [mHandle] is [INVALID_HANDLE_VALUE], no handle to the file stays open
    in the kernel, and [FileLines::open] returns [false] with [isopen()]
    false afterwards. *)
Theorem open_failure_leaves_closed k :
  k_open k = false ->
  HandleFileReader.isopen (HandleFileReader.new k) = false ->
  (fault_now k = true \/ fault_now (called SysCreateFileW k) = true)
  /\ mHandle (HandleFileReader.new k) = INVALID_HANDLE_VALUE
  /\ k_open (os (HandleFileReader.new k)) = false
  /\ exists fl, FileLines.open FileLines.new k = (false, fl)
              /\ FileLines.isopen fl = false.
Proof.
  destruct k as [bytes faults o p t]. cbn [k_open]. intros -> Hclosed.
  assert (Hfl : forall r, HandleFileReader.isopen r = false ->
            FileLines.isopen (mkFileLines [] (Some r)) = false).
  { intros r Hr. exact Hr. }
  unfold FileLines.open. cbn [FileLines.isopen FileLines.new mReader mLines].
  cbn [IBufferedFileReader.isopen HandleFileReader_impl].
  rewrite Hclosed.
  split; [|split; [|split; [|eexists; split; [reflexivity | apply Hfl, Hclosed]]]];
    revert Hclosed;
    unfold HandleFileReader.new, CreateFileW, GetFileSizeEx, fault_now;
    destruct faults as [|[|] [|[|] fs]]; cbn; intros H;
    try discriminate; try reflexivity; auto.
Qed.

(** And when it leaves the reader open, a handle is open and the size of
    the file is recorded. *)
Lemma open_success k :
  len (k_bytes k) < 2 ^ 63 ->
  HandleFileReader.isopen (HandleFileReader.new k) = true ->
  k_open (os (HandleFileReader.new k)) = true
  /\ HandleFileReader.size (HandleFileReader.new k) = len (k_bytes k).
Proof.
  intros Hfit Hopen.
  destruct (new_cached k Hfit Hopen) as ([[Hh Hb Hs _ _] _ _ _] & _).
  split; [|exact Hs].
  revert Hopen. destruct k as [bytes faults o p t].
  unfold HandleFileReader.new, CreateFileW, GetFileSizeEx, fault_now.
  destruct faults as [|[|] [|[|] fs]]; cbn; intros H;
    try discriminate; reflexivity.
Qed.

(** ** Readers reached by calls *)

Lemma step_frame r c :
  mHandle (step r c) = mHandle r /\ mFileSize (step r c) = mFileSize r
  /\ k_bytes (os (step r c)) = k_bytes (os r).
Proof.
  destruct c as [n|d|dest index n]; cbn [step]; try (repeat split; reflexivity).
  destruct (read_frame r dest index n) as (H1 & H2 & _ & _ & H5).
  repeat split; assumption.
Qed.

Lemma step_opened bytes r c : Opened bytes r -> Opened bytes (step r c).
Proof.
  intros HO. pose proof HO as [Hh Hb Hs Hf Hbs].
  destruct (step_frame r c) as (H1 & H2 & H3).
  constructor; try congruence.
  destruct c as [n|d|dest index n]; cbn [step].
  - cbn. pose proof (to_uint64_range n). pose proof (len_nonneg bytes).
    rewrite Hs, to_size_t_small; lia.
  - exact Hbs.
  - destruct (read_frame r dest index n) as (_ & _ & H & _). rewrite H.
    exact Hbs.
Qed.

Lemma run_opened bytes : forall cs r, Opened bytes r -> Opened bytes (run r cs).
Proof.
  induction cs as [|c cs IH]; intros r HO; [exact HO|].
  apply (IH (step r c)). apply step_opened. exact HO.
Qed.

Lemma run_isopen : forall cs r,
  HandleFileReader.isopen (run r cs) = HandleFileReader.isopen r.
Proof.
  induction cs as [|c cs IH]; intros r; [reflexivity|].
  cbn [run fold_left]. fold (run (step r c) cs). rewrite IH.
  unfold HandleFileReader.isopen.
  destruct (step_frame r c) as (-> & _). reflexivity.
Qed.

Lemma run_new_opened k cs :
  len (k_bytes k) < 2 ^ 63 ->
  HandleFileReader.isopen (run (HandleFileReader.new k) cs) = true ->
  Opened (k_bytes k) (run (HandleFileReader.new k) cs).
Proof.
  intros Hfit Hopen. rewrite run_isopen in Hopen.
  apply run_opened. apply (new_cached k Hfit Hopen).
Qed.

(** ** Reads of length 0 *)

(** C9, amended. For an open reader, reached from its construction by any
    calls, a read of length 0 at an offset beyond [size()] fails, and at an
    offset up to [size()], [size()] included, it succeeds when no fault is
    to come; the destination is left as it is. *)
Theorem read_zero_length k cs dest index :
  len (k_bytes k) < 2 ^ 63 ->
  HandleFileReader.isopen (run (HandleFileReader.new k) cs) = true ->
  0 <= index < 2 ^ 64 ->
  (index > HandleFileReader.size (run (HandleFileReader.new k) cs) ->
   HandleFileReader.read (run (HandleFileReader.new k) cs) dest index 0
   = (false, dest, run (HandleFileReader.new k) cs))
  /\ (index <= HandleFileReader.size (run (HandleFileReader.new k) cs) ->
      k_faults (os (run (HandleFileReader.new k) cs)) = [] ->
      exists r',
        HandleFileReader.read (run (HandleFileReader.new k) cs) dest index 0
        = (true, dest, r')).
Proof.
  intros Hfit Hopen Hi.
  pose proof (run_new_opened k cs Hfit Hopen) as HO.
  set (r := run (HandleFileReader.new k) cs) in *.
  pose proof HO as [Hh Hb Hs Hf Hbs].
  unfold HandleFileReader.size. split.
  - intros Hgt. apply read_beyond_size; lia.
  - intros Hle Hp. unfold HandleFileReader.read.
    rewrite Z.add_0_r, (to_uint64_small index) by lia.
    destruct (index >? mFileSize r) eqn:E1;
      [rewrite Z.gtb_ltb in E1; apply Z.ltb_lt in E1; lia|].
    destruct (0 >? mBufferSize r) eqn:E2;
      [rewrite Z.gtb_ltb in E2; apply Z.ltb_lt in E2; lia|].
    change (0 =? 1) with false. cbv iota.
    match goal with
    | |- context [if ?c then _ else (true, r)] => destruct c
    end.
    + rewrite (to_size_t_small index) by lia. cbv zeta.
      match goal with
      | |- context [HandleFileReader.readnobuffer ?a ?b ?c ?d] =>
          destruct (readnobuffer_spec a b c d) as
            (ok & d' & k' & Heq & _ & _ & _ & Hh')
      end.
      * apply (Opened_isopen (k_bytes k)), Opened_with_buffer, HO.
      * cbn. lia.
      * rewrite Heq. destruct (Hh' Hp) as [-> _]. cbn [negb].
        eexists. reflexivity.
    + cbn [negb]. eexists. reflexivity.
Qed.

(** ** Buffered and positioned reads *)

Lemma step_cached bytes r c :
  len bytes < 2 ^ 32 ->
  Cached bytes r -> k_faults (os r) = [] -> representable c ->
  Cached bytes (step r c) /\ k_faults (os (step r c)) = [].
Proof.
  intros H32 HC Hp Hc.
  pose proof (c_opened _ _ HC) as [Hh Hb Hs Hf Hbs].
  destruct c as [n|d|dest index n]; cbn [step].
  - split; [apply setbuffersize_cached; assumption | exact Hp].
  - split; [apply setbufferdirection_cached; assumption | exact Hp].
  - destruct Hc as (Hi & Hn & Hfit).
    destruct (Z_le_gt_dec (index + n) (len bytes)) as [Hin|Hout].
    + destruct (read_cached bytes r dest index n HC)
        as (ok & d & r' & Heq & _ & _ & Hok & _ & Hh'); try lia.
      rewrite Heq. cbn [snd]. destruct (Hh' Hp) as [-> Hp'].
      split; [apply Hok; reflexivity | exact Hp'].
    + rewrite read_beyond_size by lia. cbn [snd]. split; assumption.
Qed.

Lemma run_cached bytes : forall cs r,
  len bytes < 2 ^ 32 ->
  Cached bytes r -> k_faults (os r) = [] -> Forall representable cs ->
  Cached bytes (run r cs) /\ k_faults (os (run r cs)) = [].
Proof.
  induction cs as [|c cs IH]; intros r H32 HC Hp Hcs; [split; assumption|].
  inversion Hcs as [|? ? Hc Hcs']; subst.
  destruct (step_cached bytes r c H32 HC Hp Hc) as [HC' Hp'].
  apply (IH (step r c)); assumption.
Qed.


(** ** The buffer direction *)

Lemma readnobuffer_direction r d dest index n :
  HandleFileReader.readnobuffer (HandleFileReader.setbufferdirection r d)
                                dest index n
  = let '(ok, dest', r') := HandleFileReader.readnobuffer r dest index n in
    (ok, dest', HandleFileReader.setbufferdirection r' d).
Proof.
  destruct r as [h fs b bi bs dir k].
  unfold HandleFileReader.readnobuffer, HandleFileReader.setbufferdirection,
    HandleFileReader.isopen, SetFilePointerEx, ReadFile.
  cbn [mHandle os with_os mFileSize mBuffer mBufferIndex mBufferSize
       mBufferDirection].
  repeat match goal with
         | |- context [if ?c then _ else _] => destruct c; cbn [negb]
         end; reflexivity.
Qed.

(** [read] neither consults nor changes the direction. *)
Lemma read_direction r d dest index n :
  HandleFileReader.read (HandleFileReader.setbufferdirection r d) dest index n
  = let '(ok, dest', r') := HandleFileReader.read r dest index n in
    (ok, dest', HandleFileReader.setbufferdirection r' d).
Proof.
  unfold HandleFileReader.read.
  change (mFileSize (HandleFileReader.setbufferdirection r d))
    with (mFileSize r).
  change (mBufferSize (HandleFileReader.setbufferdirection r d))
    with (mBufferSize r).
  change (mBufferIndex (HandleFileReader.setbufferdirection r d))
    with (mBufferIndex r).
  change (mBuffer (HandleFileReader.setbufferdirection r d))
    with (mBuffer r).
  destruct (to_uint64 (index + n) >? mFileSize r); [reflexivity|].
  destruct (n >? mBufferSize r); [apply readnobuffer_direction|].
  match goal with
  | |- context [if ?c then _ else (true, r)] => destruct c
  end.
  - cbv zeta.
    match goal with
    | |- context [with_buffer ?b ?i (HandleFileReader.setbufferdirection r d)] =>
        change (with_buffer b i (HandleFileReader.setbufferdirection r d))
          with (HandleFileReader.setbufferdirection (with_buffer b i r) d)
    end.
    change (mBuffer (HandleFileReader.setbufferdirection ?x d)) with (mBuffer x).
    change (mBufferIndex (HandleFileReader.setbufferdirection ?x d))
      with (mBufferIndex x).
    rewrite readnobuffer_direction.
    destruct (HandleFileReader.readnobuffer _ _ _ _) as [[ok data] r''].
    destruct ok; cbn [negb]; [destruct (n =? 1)|]; reflexivity.
  - cbn [negb]. destruct (n =? 1); reflexivity.
Qed.

Lemma serve_direction d1 d2 st1 st2 q :
  same_but_direction st1 st2 ->
  fst (serve d1 st1 q) = fst (serve d2 st2 q)
  /\ same_but_direction (snd (serve d1 st1 q)) (snd (serve d2 st2 q)).
Proof.
  intros Hsame.
  destruct q as [k|size|dest index size].
  - destruct st1, st2; cbn; split; reflexivity.
  - destruct st1 as [r1|], st2 as [r2|]; cbn in Hsame |- *;
      try contradiction; try (split; [reflexivity | exact I]).
    split; [reflexivity|]. rewrite Hsame at 1. reflexivity.
  - destruct st1 as [r1|], st2 as [r2|]; cbn [same_but_direction] in Hsame;
      try contradiction; try (split; [reflexivity | exact I]).
    cbn [serve]. rewrite Hsame, read_direction.
    destruct (HandleFileReader.read r1 dest index size) as [[ok dest'] r1'].
    cbn. split; reflexivity.
Qed.

(** C8. Every sequence of [open], [setbuffersize] and [read] requests gets
    the same replies (results of [open], results of [read] and the bytes
    stored at the destinations) from a reader configured with direction
    [Left] as from one configured with direction [Right]. *)
Theorem direction_not_observable (qs : list Request) :
  session IBufferedFileReader.Left None qs
  = session IBufferedFileReader.Right None qs.
Proof.
  assert (H : forall qs st1 st2, same_but_direction st1 st2 ->
                session IBufferedFileReader.Left st1 qs
                = session IBufferedFileReader.Right st2 qs).
  { clear qs. induction qs as [|q qs IH]; intros st1 st2 Hsame; [reflexivity|].
    cbn [session].
    destruct (serve_direction IBufferedFileReader.Left IBufferedFileReader.Right
                st1 st2 q Hsame) as [Hr Hs].
    destruct (serve IBufferedFileReader.Left st1 q) as [rep1 st1'].
    destruct (serve IBufferedFileReader.Right st2 q) as [rep2 st2'].
    cbn [fst snd] in Hr, Hs. subst rep2. f_equal. apply IH. exact Hs. }
  apply H. exact I.
Qed.

(** * Concrete files *)

Example scenario_abc_def_ghi :
  mLines (parsed (file abc_def_ghi [])) = [0; 5; 9; 13]
  /\ all_lines (parsed (file abc_def_ghi []))
     = [["a"; "b"; "c"]; ["d"; "e"; "f"]; ["g"; "h"; "i"]]%byte.
Proof. split; vm_compute; reflexivity. Qed.

Example scenario_xyz :
  all_lines (parsed (file ["x"; "y"; "z"]%byte [])) = [["x"; "y"; "z"]%byte].
Proof. vm_compute; reflexivity. Qed.

Example scenario_empty : FileLines.size (parsed (file [] [])) = 0.
Proof. vm_compute; reflexivity. Qed.

(** C1, what the code does.  On the file of two line feeds, whenever
    [open] and [parse] succeed, [size()] is 2 and line 0 is empty, but line
    1 is the string of one line feed: the table is [0; 1; 3] and the span
    of the last line, bounded by the sentinel, takes in the line feed that
    terminates it. *)
Theorem two_line_feeds faults fl1 fl2 :
  FileLines.open FileLines.new (file [LF; LF] faults) = (true, fl1) ->
  FileLines.parse fl1 = (true, fl2) ->
  FileLines.size fl2 = 2
  /\ mLines fl2 = [0; 1; 3]
  /\ fst (FileLines.operator_subscript fl2 0) = []
  /\ fst (FileLines.operator_subscript fl2 1) = [LF]
  /\ all_lines fl2 = [[]; [LF]].
Proof.
  intros Hopen Hparse.
  destruct (open_new _ _ _ Hopen) as [-> Hisopen].
  destruct faults as [|[|] [|[|] [|[|] [|[|] fs]]]];
    vm_compute in Hisopen; try discriminate;
    vm_compute in Hparse; try discriminate;
    injection Hparse as <-; vm_compute; repeat split; reflexivity.
Qed.

Lemma two_line_feeds_witness :
  FileLines.size (parsed (file [LF; LF] [])) = 2
  /\ mLines (parsed (file [LF; LF] [])) = [0; 1; 3]
  /\ fst (FileLines.operator_subscript (parsed (file [LF; LF] [])) 0) = []
  /\ fst (FileLines.operator_subscript (parsed (file [LF; LF] [])) 1) = [LF]
  /\ all_lines (parsed (file [LF; LF] [])) = [[]; [LF]].
Proof.
  apply (two_line_feeds [] (opened (file [LF; LF] []))); reflexivity.
Defined.


(** Why the files that end with a line feed are set apart: there the last
    line of the table runs to the end of the file, keeps its line feed and
    with it the carriage return before. *)
Example terminated_last_line :
  mLines (parsed (file ["a"; CR; LF]%byte [])) = [0; 4]
  /\ all_lines (parsed (file ["a"; CR; LF]%byte [])) = [["a"; CR; LF]%byte]
  /\ chomp ["a"; CR; LF]%byte = ["a"; LF]%byte
  /\ ends_terminated ["a"; CR; LF]%byte = true.
Proof. repeat split; vm_compute; reflexivity. Qed.


Lemma lineCount_counts_line_feeds_witness :
  FileLines.size (parsed (file abc_def_ghi []))
  = count_LF abc_def_ghi + (if blank (final_line abc_def_ghi) then 0 else 1)
  /\ (abc_def_ghi = [] -> FileLines.size (parsed (file abc_def_ghi [])) = 0).
Proof.
  apply (lineCount_counts_line_feeds
           (file abc_def_ghi []) (opened (file abc_def_ghi [])));
    reflexivity.
Defined.

(** ** A line of 4 GiB and more *)

(** A file of [n] letters has one line. *)
Lemma starts_text : forall n i ci cs,
  0 <= cs -> (0 < cs \/ (0 < n)%nat) ->
  starts (repeat "a"%byte n) i ci cs = [ci].
Proof.
  induction n as [|n IH]; intros i ci cs Hcs Hpos; cbn [repeat starts].
  - destruct Hpos as [Hpos|Hpos]; [|lia].
    destruct (cs >? 0) eqn:E; [reflexivity|].
    rewrite Z.gtb_ltb in E. apply Z.ltb_ge in E. lia.
  - change ("a" =? CR)%byte with false. change ("a" =? LF)%byte with false.
    cbv iota. apply IH; lia.
Qed.

Lemma rstrip_cr_no_CR : forall s, existsb is_CR s = false -> rstrip_cr s = s.
Proof.
  induction s as [|b s IH]; intros H; [reflexivity|].
  cbn [existsb] in H. apply orb_false_iff in H. destruct H as [Hb Hs].
  cbn [rstrip_cr]. rewrite (IH Hs), Hb. destruct s; reflexivity.
Qed.

Lemma existsb_repeat (f : byte -> bool) b n :
  f b = false -> existsb f (repeat b n) = false.
Proof.
  intros H. induction n as [|n IH]; cbn [repeat existsb]; [reflexivity|].
  rewrite H, IH. reflexivity.
Qed.

(** On a file of 2^32 + 1 letters [parse] succeeds and finds the one line,
    but [operator[]] asks [ReadFile] for [(DWORD)(2^32 + 1) = 1] byte: the
    string it returns is one letter followed by 2^32 zero bytes. *)
Lemma long_line_general (n : nat) :
  Z.of_nat n = 2 ^ 32 + 1 ->
  FileLines.open FileLines.new (file (repeat "a"%byte n) [])
  = (true, opened (file (repeat "a"%byte n) []))
  /\ FileLines.parse (opened (file (repeat "a"%byte n) []))
     = (true, parsed (file (repeat "a"%byte n) []))
  /\ mLines (parsed (file (repeat "a"%byte n) [])) = [0; 2 ^ 32 + 2]
  /\ FileLines.size (parsed (file (repeat "a"%byte n) [])) = 1
  /\ fst (FileLines.operator_subscript (parsed (file (repeat "a"%byte n) [])) 0)
     = "a"%byte :: repeat x00 (n - 1)
  /\ rstrip_cr (span (repeat "a"%byte n) 0 (2 ^ 32 + 2 - 1))
     = repeat "a"%byte n
  /\ "a"%byte :: repeat x00 (n - 1) <> repeat "a"%byte n.
Proof.
  intros Hn.
  set (bytes := repeat "a"%byte n).
  assert (Hlen : len bytes = 2 ^ 32 + 1).
  { unfold len, bytes. rewrite repeat_length. exact Hn. }
  destruct (parse_healthy (file bytes [])) as (fl1 & fl2 & Hopen & Hparse & Hp).
  { cbn [k_bytes file]. rewrite Hlen. lia. }
  { reflexivity. }
  assert (E1 : opened (file bytes []) = fl1) by (unfold opened; rewrite Hopen; reflexivity).
  assert (E2 : parsed (file bytes []) = fl2).
  { unfold parsed. rewrite E1, Hparse. reflexivity. }
  rewrite E1, E2.
  split; [exact Hopen|]. split; [exact Hparse|].
  pose proof (parse_indexed (file bytes []) fl1 fl2) as HI.
  cbn [k_bytes file] in HI. specialize (HI ltac:(lia) Hopen Hparse).
  destruct HI as (Hl & r & Hr & HC & Hbs).
  assert (Hls : line_starts bytes = [0; 2 ^ 32 + 2]).
  { unfold line_starts. rewrite Hlen. unfold bytes.
    rewrite starts_text by lia. reflexivity. }
  rewrite Hls in Hl.
  split; [exact Hl|].
  split; [unfold FileLines.size; rewrite Hl; reflexivity|].
  split.
  - unfold FileLines.operator_subscript. rewrite Hl, Hr.
    change (to_size_t (0 + 1)) with 1.
    change (nth (Z.to_nat 0) [0; 2 ^ 32 + 2] 0) with 0.
    change (nth (Z.to_nat 1) [0; 2 ^ 32 + 2] 0) with (2 ^ 32 + 2).
    change (to_size_t (to_uint64 (2 ^ 32 + 2 - 0 - 1))) with (2 ^ 32 + 1).
    rewrite <- Hn.
    unfold IBufferedFileReader.readstring.
    cbn [IBufferedFileReader.read HandleFileReader_impl].
    assert (Hres : resize (Z.of_nat n) [] = repeat x00 n).
    { unfold resize. rewrite Nat2Z.id, firstn_nil. cbn [length app].
      rewrite Nat.sub_0_r. reflexivity. }
    rewrite Hres.
    pose proof (c_opened _ _ HC) as HO. pose proof HO as [Hh Hb Hsz Hfit _].
    unfold pending in Hp. rewrite Hr in Hp.
    unfold HandleFileReader.read.
    rewrite Hsz, Hbs, Hlen, Hn.
    change (to_uint64 (0 + (2 ^ 32 + 1)) >? 2 ^ 32 + 1) with false.
    change (2 ^ 32 + 1 >? Z.min (10 * 1024 * 1024) (2 ^ 32 + 1)) with true.
    cbv iota.
    destruct (readnobuffer_spec r (repeat x00 n) 0 (2 ^ 32 + 1)
                (Opened_isopen _ _ HO) ltac:(lia))
      as (ok & d & k' & Heq & _ & Hok & _ & Hh').
    rewrite Heq. destruct (Hh' Hp) as [-> _]. rewrite (Hok eq_refl).
    cbn [fst]. rewrite strip_cr_rstrip, Hb.
    change (to_DWORD (2 ^ 32 + 1)) with 1.
    destruct n as [|m]; [cbn in Hn; lia|].
    unfold bytes. cbn [repeat]. rewrite Nat.sub_succ, Nat.sub_0_r.
    change (store (x00 :: repeat x00 m) (slice ("a"%byte :: repeat "a"%byte m) 0 1))
      with ("a"%byte :: repeat x00 m).
    apply rstrip_cr_no_CR. cbn [existsb].
    rewrite existsb_repeat by reflexivity. reflexivity.
  - split.
    + unfold span. replace (2 ^ 32 + 2 - 1 - 0) with (len bytes) by lia.
      rewrite slice_all. apply rstrip_cr_no_CR.
      apply existsb_repeat. reflexivity.
    + unfold bytes. destruct n as [|[|m]]; [cbn in Hn; lia | cbn in Hn; lia |].
      cbn [repeat Nat.sub]. discriminate.
Qed.

(** C4. The code does not do this for a line of 4 GiB and more.  On a
    file of 2^32 + 1 letters, with no kernel call failing, [open] and
    [parse] succeed and find the one line, whose span is the whole file,
    but [operator[]] returns one letter followed by 2^32 zero bytes:
    [readnobuffer] hands the length to [ReadFile] as a [DWORD], which
    makes it 1, and nothing reads the rest. *)
Theorem getLine_truncates_long_line :
  FileLines.open FileLines.new (file long_line [])
  = (true, opened (file long_line []))
  /\ FileLines.parse (opened (file long_line []))
     = (true, parsed (file long_line []))
  /\ FileLines.size (parsed (file long_line [])) = 1
  /\ rstrip_cr (span long_line
                     (nth 0 (mLines (parsed (file long_line []))) 0)
                     (nth 1 (mLines (parsed (file long_line []))) 0 - 1))
     = long_line
  /\ fst (FileLines.operator_subscript (parsed (file long_line [])) 0)
     = "a"%byte :: repeat x00 (Z.to_nat (2 ^ 32))
  /\ fst (FileLines.operator_subscript (parsed (file long_line [])) 0)
     <> long_line.
Proof.
  unfold long_line.
  destruct (long_line_general (Z.to_nat (2 ^ 32 + 1)))
    as (Hopen & Hparse & Hl & Hs & Hget & Hspan & Hne).
  { apply Z2Nat.id. lia. }
  assert (E : (Z.to_nat (2 ^ 32 + 1) - 1)%nat = Z.to_nat (2 ^ 32)) by lia.
  rewrite E in Hget, Hne.
  split; [exact Hopen|]. split; [exact Hparse|]. split; [exact Hs|].
  rewrite Hget, Hl.
  change (nth 0 [0; 2 ^ 32 + 2] 0) with 0.
  change (nth 1 [0; 2 ^ 32 + 2] 0) with (2 ^ 32 + 2).
  split; [exact Hspan|]. split; [reflexivity | exact Hne].
Qed.



(** A refill that fails leaves the resized buffer and the new index in
    place: the next [read] of that window is served from it and succeeds
    with bytes that are not those of the file. *)
Example failed_refill_stays_in_buffer :
  outcome (HandleFileReader.read
             (HandleFileReader.setbuffersize
                (HandleFileReader.new (file ["a"; "b"]%byte [false; false; true]))
                2)
             [x00] 0 1)
  = (false, [x00])
  /\ outcome (HandleFileReader.read
       (run (HandleFileReader.new (file ["a"; "b"]%byte [false; false; true]))
            [CallSetBufferSize 2; CallRead [x00] 0 1]) ["z"%byte] 0 1)
     = (true, [x00])
  /\ outcome (HandleFileReader.readnobuffer
       (run (HandleFileReader.new (file ["a"; "b"]%byte [false; false; true]))
            [CallSetBufferSize 2; CallRead [x00] 0 1]) ["z"%byte] 0 1)
     = (true, ["a"%byte]).
Proof. repeat split; vm_compute; reflexivity. Qed.


(** C9 as stated fails: on a reader as constructed a read of length 0 at
    offset 1 of a two-byte file finds the empty buffer not covering offset
    1, refills it, and fails with the refill. *)
Lemma zero_length_read_fails :
  HandleFileReader.isopen
    (HandleFileReader.new (file ["a"; "b"]%byte [false; false; true])) = true
  /\ 1 <= HandleFileReader.size
            (HandleFileReader.new (file ["a"; "b"]%byte [false; false; true]))
  /\ outcome (HandleFileReader.read
                (HandleFileReader.new (file ["a"; "b"]%byte [false; false; true]))
                [] 1 0)
     = (false, []).
Proof.
  split; [reflexivity|]. split; [vm_compute; discriminate|].
  vm_compute; reflexivity.
Qed.

Lemma read_zero_length_witness :
  (2 > HandleFileReader.size
         (run (HandleFileReader.new (file ["a"; "b"]%byte []))
              [CallSetBufferSize 1]) ->
   HandleFileReader.read
     (run (HandleFileReader.new (file ["a"; "b"]%byte []))
          [CallSetBufferSize 1])
     [] 2 0
   = (false, [],
      run (HandleFileReader.new (file ["a"; "b"]%byte []))
          [CallSetBufferSize 1]))
  /\ (2 <= HandleFileReader.size
            (run (HandleFileReader.new (file ["a"; "b"]%byte []))
                 [CallSetBufferSize 1]) ->
      k_faults (os (run (HandleFileReader.new (file ["a"; "b"]%byte []))
                        [CallSetBufferSize 1])) = [] ->
      exists r',
        HandleFileReader.read
          (run (HandleFileReader.new (file ["a"; "b"]%byte []))
               [CallSetBufferSize 1]) [] 2 0
        = (true, [], r')).
Proof.
  apply (read_zero_length (file ["a"; "b"]%byte []) [CallSetBufferSize 1] [] 2);
    try reflexivity.
  split; vm_compute; [discriminate | reflexivity].
Defined.

Lemma open_failure_leaves_closed_witness :
  (fault_now (file abc_def_ghi [false; true]) = true
   \/ fault_now (called SysCreateFileW (file abc_def_ghi [false; true])) = true)
  /\ mHandle (HandleFileReader.new (file abc_def_ghi [false; true]))
     = INVALID_HANDLE_VALUE
  /\ k_open (os (HandleFileReader.new (file abc_def_ghi [false; true]))) = false
  /\ exists fl,
      FileLines.open FileLines.new (file abc_def_ghi [false; true]) = (false, fl)
      /\ FileLines.isopen fl = false.
Proof.
  apply (open_failure_leaves_closed (file abc_def_ghi [false; true]));
    reflexivity.
Defined.

Lemma readstring_length_witness :
  len (snd (fst (IBufferedFileReader.readstring
                   (HandleFileReader.new (file abc_def_ghi [])) 10 5
                   ["x"; "y"]%byte))) = 5
  /\ (fst (fst (IBufferedFileReader.readstring
                  (HandleFileReader.new (file abc_def_ghi [])) 10 5
                  ["x"; "y"]%byte)) = false ->
      snd (fst (IBufferedFileReader.readstring
                  (HandleFileReader.new (file abc_def_ghi [])) 10 5
                  ["x"; "y"]%byte))
      = resize 5 ["x"; "y"]%byte)
  /\ (fst (fst (IBufferedFileReader.readstring
                  (HandleFileReader.new (file abc_def_ghi [])) 10 5
                  ["x"; "y"]%byte)) = false ->
      len ["x"; "y"]%byte <> 5 ->
      snd (fst (IBufferedFileReader.readstring
                  (HandleFileReader.new (file abc_def_ghi [])) 10 5
                  ["x"; "y"]%byte))
      <> ["x"; "y"]%byte).
Proof.
  apply (readstring_length (HandleFileReader.new (file abc_def_ghi [])) 10 5
           ["x"; "y"]%byte _ _
           (snd (IBufferedFileReader.readstring
                   (HandleFileReader.new (file abc_def_ghi [])) 10 5
                   ["x"; "y"]%byte)));
    [vm_compute; split; discriminate | reflexivity].
Defined.

(** A failed [readstring] leaves the resized string, not the old one. *)
Example readstring_failure_resizes :
  IBufferedFileReader.readstring
    (HandleFileReader.new (file abc_def_ghi [])) 10 5 ["x"; "y"]%byte
  = (false, ["x"; "y"; x00; x00; x00]%byte,
     HandleFileReader.new (file abc_def_ghi [])).
Proof. vm_compute; reflexivity. Qed.

(** * Further properties *)

(** ** The kernel calls of [read] *)

Lemma to_LONGLONG_to_size_t z : to_LONGLONG (to_size_t z) = to_LONGLONG z.
Proof.
  unfold to_LONGLONG, to_size_t. rewrite Z.mod_mod by lia. reflexivity.
Qed.

Lemma readnobuffer_calls r dest index n :
  let '(ok, _, r') := HandleFileReader.readnobuffer r dest index n in
  k_open (os r') = k_open (os r)
  /\ (HandleFileReader.isopen r = false -> os r' = os r)
  /\ exists s, k_trace (os r') = k_trace (os r) ++ s
            /\ read_calls index s
            /\ (ok = true ->
                s = [SysSetFilePointerEx (to_LONGLONG index);
                     SysReadFile (to_DWORD n)]).
Proof.
  unfold HandleFileReader.readnobuffer.
  destruct (HandleFileReader.isopen r); cbn [negb].
  - unfold SetFilePointerEx.
    destruct (fault_now (os r) || (to_LONGLONG index <? 0)); cbn [negb].
    + split; [reflexivity|]. split; [discriminate|].
      eexists. split; [reflexivity|].
      split; [right; left; reflexivity | discriminate].
    + unfold ReadFile.
      match goal with |- context [fault_now ?k] => destruct (fault_now k) end.
      * split; [reflexivity|]. split; [discriminate|].
        eexists. cbn. rewrite <- app_assoc. split; [reflexivity|].
        split; [|discriminate].
        right; right. exists (to_DWORD n).
        split; [apply to_DWORD_range | reflexivity].
      * split; [reflexivity|]. split; [discriminate|].
        eexists. cbn. rewrite <- app_assoc. split; [reflexivity|].
        split; [|reflexivity].
        right; right. exists (to_DWORD n).
        split; [apply to_DWORD_range | reflexivity].
  - split; [reflexivity|]. split; [reflexivity|].
    exists []. rewrite app_nil_r. split; [reflexivity|].
    split; [left; reflexivity | discriminate].
Qed.

Lemma read_calls_general r dest index n :
  let r' := snd (HandleFileReader.read r dest index n) in
  k_open (os r') = k_open (os r)
  /\ (HandleFileReader.isopen r = false -> os r' = os r)
  /\ exists s, k_trace (os r') = k_trace (os r) ++ s /\ read_calls index s.
Proof.
  unfold HandleFileReader.read.
  destruct (to_uint64 (index + n) >? mFileSize r).
  { cbn. split; [reflexivity|]. split; [reflexivity|].
    exists []. rewrite app_nil_r. split; [reflexivity | left; reflexivity]. }
  destruct (n >? mBufferSize r).
  { pose proof (readnobuffer_calls r dest index n) as H.
    destruct (HandleFileReader.readnobuffer r dest index n) as [[ok d] r'].
    cbn [snd]. destruct H as (H1 & H2 & s & H3 & H4 & _).
    split; [exact H1|]. split; [exact H2|]. exists s. split; assumption. }
  match goal with
  | |- context [if ?c then _ else (true, r)] => destruct c
  end.
  - cbv zeta.
    match goal with
    | |- context [HandleFileReader.readnobuffer ?a ?b ?c ?d] =>
        pose proof (readnobuffer_calls a b c d) as H;
        destruct (HandleFileReader.readnobuffer a b c d) as [[ok d'] r']
    end.
    cbn [mBufferIndex with_buffer os] in H.
    destruct H as (H1 & H2 & s & H3 & H4 & _).
    unfold read_calls in H4 |- *. rewrite to_LONGLONG_to_size_t in H4.
    assert (G : k_open (os r') = k_open (os r)
                /\ (HandleFileReader.isopen r = false -> os r' = os r)
                /\ exists s, k_trace (os r') = k_trace (os r) ++ s
                          /\ read_calls index s).
    { split; [exact H1|]. split; [exact H2|]. exists s. split; assumption. }
    destruct ok; cbn [negb]; [destruct (n =? 1)|]; exact G.
  - cbn [negb].
    assert (G : k_open (os r) = k_open (os r)
                /\ (HandleFileReader.isopen r = false -> os r = os r)
                /\ exists s, k_trace (os r) = k_trace (os r) ++ s
                          /\ read_calls index s).
    { split; [reflexivity|]. split; [reflexivity|].
      exists []. rewrite app_nil_r. split; [reflexivity | left; reflexivity]. }
    destruct (n =? 1); exact G.
Qed.

(** X1. Whatever the reader and the request, one [read] makes no kernel
    call, or moves the file pointer to the requested offset, or moves it
    there and calls [ReadFile] once for less than 4 GiB; it opens and
    closes nothing and keeps the handle, the recorded size, the buffer
    size and the bytes of the file. *)
Theorem read_makes_at_most_two_calls r dest index n :
  exists s,
    k_trace (os (snd (HandleFileReader.read r dest index n)))
    = k_trace (os r) ++ s
    /\ read_calls index s
    /\ k_open (os (snd (HandleFileReader.read r dest index n)))
       = k_open (os r)
    /\ mHandle (snd (HandleFileReader.read r dest index n)) = mHandle r
    /\ mFileSize (snd (HandleFileReader.read r dest index n)) = mFileSize r
    /\ mBufferSize (snd (HandleFileReader.read r dest index n))
       = mBufferSize r
    /\ k_bytes (os (snd (HandleFileReader.read r dest index n)))
       = k_bytes (os r).
Proof.
  destruct (read_calls_general r dest index n) as (Ho & _ & s & Hs & Hc).
  destruct (read_frame r dest index n) as (H1 & H2 & H3 & _ & H5).
  exists s. repeat split; assumption.
Qed.

(** ** The window of the buffer *)

Lemma run_new_cached k cs :
  len (k_bytes k) < 2 ^ 32 ->
  k_faults k = [] ->
  Forall representable cs ->
  Cached (k_bytes k) (run (HandleFileReader.new k) cs)
  /\ k_faults (os (run (HandleFileReader.new k) cs)) = [].
Proof.
  intros H32 Hp Hcs.
  assert (Hopen : HandleFileReader.isopen (HandleFileReader.new k) = true).
  { rewrite new_isopen, Hp. reflexivity. }
  destruct (new_cached k ltac:(lia) Hopen) as (HC0 & _ & Hp0).
  rewrite Hp in Hp0. cbn [tl] in Hp0.
  apply run_cached; assumption.
Qed.

(** After a refill the window starts at the requested offset and has the
    length the buffer was resized to. *)
Lemma read_refill_shape bytes r dest index n :
  Cached bytes r ->
  0 <= index -> 0 <= n <= mBufferSize r -> index + n <= len bytes ->
  ~ covered r index n ->
  let r' := snd (HandleFileReader.read r dest index n) in
  mBufferIndex r' = index
  /\ len (mBuffer r') = Z.min (mBufferSize r) (len bytes - index).
Proof.
  intros HC Hi Hn Hin Hnc.
  pose proof HC as [HO Hidx Hwin Hmir].
  pose proof HO as [Hh Hb Hsz Hfit Hbs].
  pose proof (len_nonneg (mBuffer r)) as Hl.
  unfold HandleFileReader.read.
  rewrite to_uint64_small by lia.
  destruct (index + n >? mFileSize r) eqn:E1; [apply Z.gtb_lt in E1; lia|].
  destruct (n >? mBufferSize r) eqn:E2; [apply Z.gtb_lt in E2; lia|].
  rewrite (to_size_t_small (mBufferIndex r + len (mBuffer r))) by lia.
  destruct ((index <? mBufferIndex r)
            || (index + n >? mBufferIndex r + len (mBuffer r))) eqn:E3.
  - rewrite (to_uint64_small (mBufferSize r)) by lia.
    rewrite (to_uint64_small (mFileSize r - index)) by lia.
    rewrite Hsz.
    set (B := Z.min (mBufferSize r) (len bytes - index)).
    assert (HB : 0 <= B) by (unfold B; lia).
    rewrite (to_size_t_small B), (to_size_t_small index) by lia.
    cbv zeta.
    match goal with
    | |- context [HandleFileReader.readnobuffer ?a ?b ?c ?d] =>
        destruct (readnobuffer_frame a b c d)
          as (ok & d' & k' & Heq & _ & _ & Hd); rewrite Heq
    end.
    cbn [mBuffer with_buffer mBufferIndex with_os] in Hd |- *.
    assert (Hlen : len d' = B).
    { pose proof (resize_length B (mBuffer r) HB) as Hr.
      rewrite Hr in Hd.
      destruct Hd as [->|[p ->]]; [exact Hr|].
      match goal with
      | |- context [slice ?v ?o ?m] => pose proof (slice_length_le v o m) as Hs
      end.
      pose proof (to_DWORD_le B HB) as Hd.
      unfold len in *. rewrite store_keeps_length; [exact Hr|]. lia. }
    destruct ok; cbn [negb]; [destruct (n =? 1)|]; cbn;
      split; (reflexivity || exact Hlen).
  - exfalso. apply Hnc. apply orb_false_iff in E3. destruct E3 as [E3 E4].
    apply Z.ltb_ge in E3. rewrite Z.gtb_ltb in E4. apply Z.ltb_ge in E4.
    split; assumption.
Qed.

Lemma covered_dec r index n : covered r index n \/ ~ covered r index n.
Proof. unfold covered. lia. Qed.

(** After a successful read through the buffer the window covers the
    request. *)
Lemma read_covers bytes r dest index n ok d r' :
  Cached bytes r ->
  0 <= index -> 0 <= n <= mBufferSize r -> index + n <= len bytes ->
  HandleFileReader.read r dest index n = (ok, d, r') ->
  covered r' index n.
Proof.
  intros HC Hi Hn Hin Heq.
  destruct (covered_dec r index n) as [Hc|Hnc].
  - destruct Hc as [H1 H2].
    rewrite (read_hit bytes r dest index n HC Hn H1 H2) in Heq.
    assert (r' = r) by congruence. subst r'. split; assumption.
  - pose proof (read_refill_shape bytes r dest index n HC Hi Hn Hin Hnc) as H.
    rewrite Heq in H. cbn [snd] in H. destruct H as [H1 H2].
    unfold covered. lia.
Qed.


(** X3. What was just read is in the buffer.  On a reader of a file under
    4 GiB without faults, after a [read] of a range that fits the buffer
    size, a [read] of any part of that range makes no kernel call: it
    succeeds with the bytes of the file and leaves the reader, kernel
    state included, as it is. *)
Theorem read_again_from_buffer k cs dest index n dest2 index2 n2 :
  len (k_bytes k) < 2 ^ 32 ->
  k_faults k = [] ->
  Forall representable cs ->
  0 <= index ->
  0 <= n <= mBufferSize (run (HandleFileReader.new k) cs) ->
  index + n <= HandleFileReader.size (run (HandleFileReader.new k) cs) ->
  index <= index2 -> 0 <= n2 -> index2 + n2 <= index + n ->
  HandleFileReader.read
    (snd (HandleFileReader.read (run (HandleFileReader.new k) cs) dest index n))
    dest2 index2 n2
  = (true, store dest2 (slice (k_bytes k) index2 n2),
     snd (HandleFileReader.read (run (HandleFileReader.new k) cs) dest index n)).
Proof.
  intros H32 Hp Hcs Hi Hn Hin Hi2 Hn2 Hin2.
  destruct (run_new_cached k cs H32 Hp Hcs) as [HC Hpr].
  set (r := run (HandleFileReader.new k) cs) in *.
  unfold HandleFileReader.size in *.
  pose proof (c_opened _ _ HC) as [_ _ Hsz _ Hbs].
  rewrite Hsz in Hin.
  destruct (read_cached _ r dest index n HC)
    as (ok & d & r' & Heq & _ & Hbs' & Hok & _ & Hh); try lia.
  destruct (Hh Hpr) as [-> _]. destruct (Hok eq_refl) as [_ HC'].
  pose proof (read_covers _ r dest index n _ _ _ HC Hi Hn Hin Heq) as [Hc1 Hc2].
  rewrite Heq. cbn [snd].
  apply read_hit; try assumption; lia.
Qed.

(** ** The handle *)

Lemma closes_app a b : closes (a ++ b) = (closes a + closes b)%nat.
Proof. unfold closes. rewrite filter_app, length_app. reflexivity. Qed.

Lemma read_calls_no_close index s : read_calls index s -> closes s = 0%nat.
Proof.
  intros [->|[->|(m & _ & ->)]]; reflexivity.
Qed.

(** The calls on a reader neither open nor close the handle. *)
Lemma step_handle r c :
  HandleFileReader.isopen (step r c) = HandleFileReader.isopen r
  /\ k_open (os (step r c)) = k_open (os r)
  /\ closes (k_trace (os (step r c))) = closes (k_trace (os r))
  /\ (HandleFileReader.isopen r = false -> os (step r c) = os r).
Proof.
  destruct c as [n|d|dest index n]; cbn [step];
    try (repeat split; reflexivity).
  destruct (read_calls_general r dest index n) as (Ho & Hc & s & Ht & Hs).
  destruct (read_frame r dest index n) as (Hh & _).
  split; [unfold HandleFileReader.isopen; rewrite Hh; reflexivity|].
  split; [exact Ho|]. split; [|exact Hc].
  rewrite Ht, closes_app, (read_calls_no_close _ _ Hs). lia.
Qed.

Lemma run_handle : forall cs r,
  HandleFileReader.isopen (run r cs) = HandleFileReader.isopen r
  /\ k_open (os (run r cs)) = k_open (os r)
  /\ closes (k_trace (os (run r cs))) = closes (k_trace (os r))
  /\ (HandleFileReader.isopen r = false -> os (run r cs) = os r).
Proof.
  induction cs as [|c cs IH]; intros r; [repeat split; reflexivity|].
  cbn [run fold_left]. fold (run (step r c) cs).
  destruct (IH (step r c)) as (H1 & H2 & H3 & H4).
  destruct (step_handle r c) as (G1 & G2 & G3 & G4).
  split; [congruence|]. split; [congruence|]. split; [congruence|].
  intros Hc. rewrite H4 by congruence. apply G4. exact Hc.
Qed.

(** The constructor leaves the handle open exactly when the reader is
    open, and has closed it once when the size could not be obtained. *)
Lemma new_handle k :
  k_open k = false ->
  k_open (os (HandleFileReader.new k))
  = HandleFileReader.isopen (HandleFileReader.new k)
  /\ closes (k_trace (os (HandleFileReader.new k)))
     = (closes (k_trace k)
        + (if fault_now k then 0
           else if HandleFileReader.isopen (HandleFileReader.new k)
                then 0 else 1))%nat.
Proof.
  destruct k as [bytes faults o p t]. cbn [k_open]. intros ->.
  unfold HandleFileReader.new, CreateFileW, GetFileSizeEx, fault_now,
    CloseHandle, called, set_pointer, set_open.
  destruct faults as [|[|] [|[|] fs]]; cbn -[closes];
    rewrite <- ?app_assoc, ?closes_app; cbn; split; (reflexivity || lia).
Qed.

(** X4. The handle is closed exactly once.  For a file that is not open
    yet, constructing a reader, calling it in any way and destroying it
    leaves the file closed, and [CloseHandle] has been called once if
    [CreateFileW] succeeded and not at all if it failed. *)
Theorem destructor_closes_once k cs :
  k_open k = false ->
  HandleFileReader.isopen
    (HandleFileReader.delete (run (HandleFileReader.new k) cs)) = false
  /\ k_open (os (HandleFileReader.delete (run (HandleFileReader.new k) cs)))
     = false
  /\ closes (k_trace
               (os (HandleFileReader.delete (run (HandleFileReader.new k) cs))))
     = (closes (k_trace k) + (if fault_now k then 0 else 1))%nat.
Proof.
  intros Hk.
  destruct (new_handle k Hk) as [Ho Hc].
  destruct (run_handle cs (HandleFileReader.new k)) as (H1 & H2 & H3 & _).
  unfold HandleFileReader.delete.
  destruct (HandleFileReader.isopen (run (HandleFileReader.new k) cs)) eqn:E.
  - cbn [os mHandle CloseHandle k_open k_trace].
    split; [reflexivity|]. split; [reflexivity|].
    rewrite closes_app, H3, Hc, <- H1.
    destruct (fault_now k) eqn:F; [|cbn; lia].
    exfalso. rewrite new_isopen in H1. unfold fault_now in F.
    rewrite F in H1. discriminate.
  - split; [exact E|]. split; [congruence|].
    rewrite H3, Hc, <- H1. destruct (fault_now k); reflexivity.
Qed.

(** X5. A reader whose construction failed makes no kernel call: whatever
    is called on it, it stays closed and the kernel stays as the
    constructor left it. *)
Theorem closed_reader_makes_no_call k cs :
  HandleFileReader.isopen (HandleFileReader.new k) = false ->
  HandleFileReader.isopen (run (HandleFileReader.new k) cs) = false
  /\ os (run (HandleFileReader.new k) cs) = os (HandleFileReader.new k).
Proof.
  intros Hc.
  destruct (run_handle cs (HandleFileReader.new k)) as (H1 & _ & _ & H4).
  split; [congruence|]. apply H4. exact Hc.
Qed.

(** ** The derived accessors *)


(** X7. [readstring] and [readvector] replace the string or vector by the
    requested bytes of the file.  On a reader of a file under 4 GiB
    without faults and for a range inside the file, nothing of the
    previous content is left, whatever its length. *)
Theorem readvector_returns_range k cs index n old :
  len (k_bytes k) < 2 ^ 32 ->
  k_faults k = [] ->
  Forall representable cs ->
  0 <= index -> 0 <= n ->
  index + n <= HandleFileReader.size (run (HandleFileReader.new k) cs) ->
  (exists r',
     IBufferedFileReader.readvector (run (HandleFileReader.new k) cs)
                                    index n old
     = (true, slice (k_bytes k) index n, r'))
  /\ (exists r',
        IBufferedFileReader.readstring (run (HandleFileReader.new k) cs)
                                       index n old
        = (true, slice (k_bytes k) index n, r')).
Proof.
  intros H32 Hp Hcs Hi Hn Hin.
  destruct (run_new_cached k cs H32 Hp Hcs) as [HC Hpr].
  set (r := run (HandleFileReader.new k) cs) in *.
  unfold HandleFileReader.size in Hin.
  pose proof (c_opened _ _ HC) as [_ _ Hsz _ Hbs].
  rewrite Hsz in Hin.
  destruct (read_cached _ r (resize n old) index n HC)
    as (ok & d & r' & Heq & _ & _ & Hok & _ & Hh); try lia.
  destruct (Hh Hpr) as [-> _]. destruct (Hok eq_refl) as [-> _].
  assert (Hst : store (resize n old) (slice (k_bytes k) index n)
                = slice (k_bytes k) index n).
  { apply store_whole.
    pose proof (resize_length n old Hn) as H1.
    pose proof (slice_length (k_bytes k) index n Hi Hn Hin) as H2.
    unfold len in *. lia. }
  rewrite Hst in Heq.
  split; exists r'; exact Heq.
Qed.

(** ** The offset table, entry by entry *)

(** Every offset [parse] pushes is 0 or follows a line feed. *)
Lemma starts_after_LF bytes : forall bs pre ci cs x,
  bytes = pre ++ bs ->
  ci = 0 \/ nth (Z.to_nat (ci - 1)) bytes x00 = LF ->
  In x (starts bs (len pre) ci cs) ->
  x = 0 \/ nth (Z.to_nat (x - 1)) bytes x00 = LF.
Proof.
  induction bs as [|b rest IH]; intros pre ci cs x Hb Hci Hin.
  - cbn [starts] in Hin. destruct (cs >? 0); [|destruct Hin].
    destruct Hin as [<-|[]]. exact Hci.
  - assert (Hb' : bytes = (pre ++ [b]) ++ rest).
    { rewrite Hb, <- app_assoc. reflexivity. }
    assert (Hpre : len (pre ++ [b]) = len pre + 1).
    { rewrite len_app, len_cons. change (len (@nil byte)) with 0. lia. }
    cbn [starts] in Hin. rewrite <- Hpre in Hin.
    destruct (b =? CR)%byte; [|destruct (b =? LF)%byte eqn:Eb].
    + apply (IH _ _ _ _ Hb' Hci Hin).
    + destruct Hin as [<-|Hin]; [exact Hci|].
      apply (IH _ _ _ _ Hb') in Hin; [exact Hin|].
      right. rewrite Hpre. replace (len pre + 1 - 1) with (len pre) by lia.
      unfold len. rewrite Nat2Z.id, Hb, app_nth2, Nat.sub_diag by lia.
      apply byte_dec_bl. exact Eb.
    + apply (IH _ _ _ _ Hb' Hci Hin).
Qed.

Lemma line_starts_increasing bytes : increasing (line_starts bytes).
Proof.
  pose proof (len_nonneg bytes) as Hl.
  pose proof (starts_chain bytes 0 0 0 (-1) (len bytes + 1)
                ltac:(lia) ltac:(lia) ltac:(lia)) as H.
  change (increasing (-1 :: line_starts bytes)) in H.
  destruct (line_starts bytes); [exact I | apply H].
Qed.

Lemma line_starts_first bytes :
  1 < len (line_starts bytes) -> nth 0 (line_starts bytes) 0 = 0.
Proof.
  unfold line_starts. rewrite len_app. change (len [len bytes + 1]) with 1.
  destruct (starts bytes 0 0 0) as [|x l] eqn:E.
  - change (len (@nil Z)) with 0. lia.
  - intros _. cbn. apply (starts_head _ _ _ _ _ _ E).
Qed.

(** X8. The offset table [parse] builds.  After a successful [open] and
    [parse] the table increases strictly and ends with the size of the
    file plus one; the first line starts at offset 0 and every later line
    starts just after a line feed of the file. *)
Theorem offset_table_shape k fl1 fl2 :
  len (k_bytes k) < 2 ^ 63 ->
  FileLines.open FileLines.new k = (true, fl1) ->
  FileLines.parse fl1 = (true, fl2) ->
  increasing (mLines fl2)
  /\ last (mLines fl2) 0 = len (k_bytes k) + 1
  /\ (0 < FileLines.size fl2 -> nth 0 (mLines fl2) 0 = 0)
  /\ forall j, 0 < j < FileLines.size fl2 ->
       nth (Z.to_nat (nth (Z.to_nat j) (mLines fl2) 0 - 1)) (k_bytes k) x00
       = LF.
Proof.
  intros Hfit Hopen Hparse.
  pose proof (parse_indexed k fl1 fl2 Hfit Hopen Hparse) as HI.
  rewrite (Indexed_size_table _ _ Hfit HI).
  destruct HI as [-> _].
  set (bytes := k_bytes k) in *.
  split; [apply line_starts_increasing|].
  split; [unfold line_starts; apply last_last|].
  split; [intros H; apply line_starts_first; lia|].
  intros j Hj.
  destruct (line_starts_step bytes (j - 1) ltac:(lia) ltac:(lia))
    as (H0 & H1 & _).
  replace (j - 1 + 1) with j in H1 by lia.
  assert (Hin : In (nth (Z.to_nat j) (line_starts bytes) 0)
                   (starts bytes 0 0 0)).
  { unfold line_starts. rewrite app_nth1.
    - apply nth_In. unfold line_starts, len in Hj.
      rewrite length_app in Hj. cbn [length] in Hj. lia.
    - unfold line_starts, len in Hj.
      rewrite length_app in Hj. cbn [length] in Hj. lia. }
  destruct (starts_after_LF bytes bytes [] 0 0 _ eq_refl (or_introl eq_refl) Hin)
    as [Hz|HLF]; [lia | exact HLF].
Qed.

(** ** The text of a line *)

Lemma rstrip_cr_last : forall s t, rstrip_cr s <> t ++ [CR].
Proof.
  induction s as [|b s IH]; intros t H; cbn [rstrip_cr] in H.
  - destruct t; discriminate.
  - destruct (rstrip_cr s) as [|x kept] eqn:E.
    + destruct (is_CR b) eqn:Eb; [destruct t; discriminate|].
      destruct t as [|y [|z t]]; try discriminate.
      inversion H. subst b. discriminate.
    + destruct t as [|y t]; [discriminate|].
      inversion H. apply (IH t). assumption.
Qed.

(** X9. A line never ends with a carriage return: whatever the table and
    the reader hold, whatever the index, and whether or not the read
    succeeded, the string [operator[]] returns is empty or ends with
    another byte. *)
Theorem getLine_never_ends_with_CR fl index t :
  fst (FileLines.operator_subscript fl index) <> t ++ [CR].
Proof.
  unfold FileLines.operator_subscript.
  destruct (mReader fl) as [r|]; [|destruct t; discriminate].
  destruct (IBufferedFileReader.readstring _ _ _ _) as [[ok result] r'].
  cbn [fst]. rewrite strip_cr_rstrip. apply rstrip_cr_last.
Qed.

Lemma spans_length bytes : forall T, length (spans bytes T) = pred (length T).
Proof.
  induction T as [|a T IH]; [reflexivity|].
  destruct T as [|b T]; [reflexivity|].
  change (spans bytes (a :: b :: T))
    with (span bytes a (b - 1) :: spans bytes (b :: T)).
  cbn [length pred] in IH |- *. rewrite IH. reflexivity.
Qed.

Lemma nth_spans bytes : forall T i,
  (S i < length T)%nat ->
  nth i (spans bytes T) [] = span bytes (nth i T 0) (nth (S i) T 0 - 1).
Proof.
  induction T as [|a T IH]; intros i Hi; [cbn in Hi; lia|].
  destruct T as [|b T]; [cbn in Hi; lia|].
  change (spans bytes (a :: b :: T))
    with (span bytes a (b - 1) :: spans bytes (b :: T)).
  destruct i as [|i]; [reflexivity|].
  cbn [nth]. rewrite IH by (cbn [length] in Hi |- *; lia). reflexivity.
Qed.

(** Every span but the last is the text between two line feeds. *)
Lemma raw_from_split : forall bs cur i,
  (S i < length (raw_from cur bs))%nat ->
  nth i (raw_from cur bs) [] = nth i (split_lf_from cur bs) [].
Proof.
  induction bs as [|b rest IH]; intros cur i Hi.
  - cbn [raw_from] in Hi. destruct (blank cur); cbn in Hi; lia.
  - cbn [raw_from split_lf_from] in Hi |- *.
    destruct (is_LF b); [|apply IH; exact Hi].
    destruct (raw_from [] rest) as [|l ls] eqn:E; [cbn in Hi; lia|].
    destruct i as [|i]; [reflexivity|].
    change (nth i (l :: ls) [] = nth i (split_lf_from [] rest) []).
    rewrite <- E. apply IH. rewrite E.
    cbn [length] in Hi |- *. lia.
Qed.

(** X10. Every line but the last is the text between two line feeds.  After
    a successful [open] and [parse], and reads that do not fail,
    [operator[]] at an index [i] below the last one returns the [i]-th of
    the pieces the line feeds cut the file into, without the carriage
    returns at its end. *)
Theorem getLine_is_segment k fl1 fl2 js i :
  FileLines.open FileLines.new k = (true, fl1) ->
  FileLines.parse fl1 = (true, fl2) ->
  len (k_bytes k) <= 10 * 1024 * 1024
  \/ (len (k_bytes k) < 2 ^ 32 /\ pending fl2 = []) ->
  Forall (fun j => 0 <= j < FileLines.size fl2) js ->
  0 <= i -> i + 1 < FileLines.size fl2 ->
  fst (FileLines.operator_subscript (after_lines fl2 js) i)
  = rstrip_cr (nth (Z.to_nat i) (split_lf (k_bytes k)) []).
Proof.
  intros Hopen Hparse Hrel Hjs Hi Hi1.
  destruct (parse_steady k fl1 fl2 Hopen Hparse Hrel) as (H32 & HI & Hp).
  destruct (after_lines_indexed _ js fl2 H32 HI Hp Hjs) as (HI' & Hp' & Hl').
  assert (Hs : FileLines.size (after_lines fl2 js) = FileLines.size fl2).
  { unfold FileLines.size. rewrite Hl'. reflexivity. }
  assert (Hv : 0 <= i < FileLines.size (after_lines fl2 js))
    by (rewrite Hs; lia).
  destruct (subscript_indexed _ _ i H32 HI' Hp' Hv) as (fl' & Heq & _).
  rewrite Heq. cbn [fst]. f_equal.
  rewrite (Indexed_size_table (k_bytes k) fl2 ltac:(lia) HI) in Hi1.
  set (bytes := k_bytes k) in *.
  unfold len in Hi1.
  replace (Z.to_nat (i + 1)) with (S (Z.to_nat i)) by lia.
  rewrite <- nth_spans by lia.
  rewrite line_starts_spans. unfold split_lf.
  apply raw_from_split.
  rewrite <- line_starts_spans, spans_length. lia.
Qed.

(** ** [parse], whatever the table holds *)

(** [parse] appends the offset table of the file to the table it finds. *)
Lemma parse_cached bytes fl r :
  mReader fl = Some r -> Cached bytes r ->
  exists ok fl',
    FileLines.parse fl = (ok, fl')
    /\ (ok = true ->
        mLines fl' = mLines fl ++ line_starts bytes
        /\ exists r', mReader fl' = Some r' /\ Cached bytes r'
                      /\ mBufferSize r' = Z.min (10 * 1024 * 1024) (len bytes))
    /\ (k_faults (os r) = [] -> ok = true /\ pending fl' = []).
Proof.
  intros Hr HC.
  pose proof (Opened_isopen _ _ (c_opened _ _ HC)) as Hisopen.
  pose proof (o_fits _ _ (c_opened _ _ HC)) as Hfit.
  pose proof (len_nonneg bytes) as Hl.
  unfold FileLines.parse. rewrite Hr.
  cbn [IBufferedFileReader.isopen IBufferedFileReader.size
       IBufferedFileReader.setbuffersize IBufferedFileReader.setbufferdirection
       HandleFileReader_impl].
  rewrite Hisopen. cbn [negb].
  set (r0 := HandleFileReader.setbuffersize _ _).
  assert (HC0 : Cached bytes r0 /\ mBufferSize r0
                = Z.min (10 * 1024 * 1024) (len bytes)).
  { destruct (setbuffersize_cached bytes
                (HandleFileReader.setbufferdirection r
                   IBufferedFileReader.Right) (10 * 1024 * 1024)
                (setbufferdirection_cached _ _ _ HC)) as [H1 H2].
    split; [exact H1|]. unfold r0. rewrite H2. reflexivity. }
  destruct HC0 as [HC0 Hbs].
  assert (Hos : os r0 = os r) by reflexivity.
  unfold HandleFileReader.size.
  rewrite (o_size _ _ (c_opened _ _ HC)).
  unfold len at 1. rewrite Nat2Z.id.
  destruct (parse_loop_starts bytes bytes [] r0 (mLines fl) 0 0 eq_refl HC0
              ltac:(lia) ltac:(unfold len; cbn; lia) ltac:(unfold len; cbn; lia))
    as (ok & r' & l' & ci' & cs' & Heq & HO' & Hbs' & Hok & Hh).
  change (len (@nil byte)) with 0 in Heq. rewrite Heq.
  rewrite Hos in Hh.
  destruct ok; cbn [negb].
  - destruct (Hok eq_refl) as (Hl' & Hci & HC').
    rewrite (to_uint64_small ci') by lia.
    rewrite (to_uint64_small (len bytes + 1)) by lia.
    eexists _, _. split; [reflexivity|]. cbn [mLines mReader]. split.
    + intros _. split.
      * unfold line_starts. rewrite app_assoc. f_equal. exact Hl'.
      * exists r'. split; [reflexivity|]. split; [assumption | congruence].
    + intros Hp. destruct (Hh Hp) as [_ Hp']. split; [reflexivity|].
      exact Hp'.
  - eexists _, _. split; [reflexivity|]. split; [discriminate|].
    intros Hp. destruct (Hh Hp) as [Hx _]. discriminate.
Qed.

Lemma lines_le_bytes : forall bs cur,
  count_LF bs + (if blank (final_line_from cur bs) then 0 else 1)
  <= len bs + (if blank cur then 0 else 1).
Proof.
  induction bs as [|b rest IH]; intros cur.
  - cbn [final_line_from]. unfold count_LF. cbn [filter].
    change (len (@nil byte)) with 0. lia.
  - cbn [final_line_from]. unfold count_LF. cbn [filter].
    fold (count_LF rest). rewrite len_cons.
    destruct (is_LF b).
    + rewrite len_cons. fold (count_LF rest).
      specialize (IH []). cbn [blank drop_cr filter] in IH.
      destruct (blank cur); lia.
    + fold (count_LF rest).
      specialize (IH (cur ++ [b])).
      destruct (blank (cur ++ [b])), (blank cur); lia.
Qed.

(** X11. [parse] does not start from an empty table.  A second [parse]
    that succeeds appends a second copy of the offset table, so that a
    file of [n] lines then counts [2 n + 1]; without a kernel failure the
    second [parse] does succeed. *)
Theorem parse_twice_appends k fl1 fl2 :
  len (k_bytes k) < 2 ^ 63 ->
  FileLines.open FileLines.new k = (true, fl1) ->
  FileLines.parse fl1 = (true, fl2) ->
  (forall fl3, FileLines.parse fl2 = (true, fl3) ->
     mLines fl3 = mLines fl2 ++ mLines fl2
     /\ FileLines.size fl3 = 2 * FileLines.size fl2 + 1)
  /\ (pending fl2 = [] -> fst (FileLines.parse fl2) = true).
Proof.
  intros Hfit Hopen Hparse.
  pose proof (parse_indexed k fl1 fl2 Hfit Hopen Hparse) as HI.
  pose proof (Indexed_size_table _ _ Hfit HI) as Hs.
  destruct HI as (Hl & r & Hr & HC & Hbs).
  destruct (parse_cached _ fl2 r Hr HC) as (ok & fl' & Heq & Hok & Hh).
  split.
  - intros fl3 H3. rewrite H3 in Heq.
    assert (ok = true) by congruence. subst ok.
    assert (fl' = fl3) by congruence. subst fl'.
    destruct (Hok eq_refl) as (Hl3 & _).
    split; [rewrite Hl3, Hl; reflexivity|].
    unfold FileLines.size at 1. rewrite Hl3, Hs, len_app, Hl.
    rewrite line_starts_length.
    pose proof (lines_le_bytes (k_bytes k) []) as H.
    fold (final_line (k_bytes k)) in H. cbn [blank drop_cr filter] in H.
    pose proof (count_LF_le (k_bytes k)).
    rewrite to_size_t_small; destruct (blank (final_line (k_bytes k))); lia.
  - intros Hp. rewrite Heq. cbn [fst]. apply Hh.
    unfold pending in Hp. rewrite Hr in Hp. exact Hp.
Qed.

(** X12. [open] and [parse] fail only when the kernel does.  When no
    kernel call fails both succeed, whatever the bytes of the file, and
    the table has at most one line per byte. *)
Theorem parse_succeeds_without_faults k :
  len (k_bytes k) < 2 ^ 63 ->
  k_faults k = [] ->
  fst (FileLines.open FileLines.new k) = true
  /\ fst (FileLines.parse (opened k)) = true
  /\ 0 <= FileLines.size (parsed k) <= len (k_bytes k).
Proof.
  intros Hfit Hp.
  destruct (parse_healthy k Hfit Hp) as (fl1 & fl2 & Hopen & Hparse & _).
  assert (H1 : opened k = fl1) by (unfold opened; rewrite Hopen; reflexivity).
  assert (H2 : parsed k = fl2).
  { unfold parsed. rewrite H1, Hparse. reflexivity. }
  rewrite Hopen, H2, H1, Hparse.
  split; [reflexivity|]. split; [reflexivity|].
  rewrite (Indexed_size _ _ Hfit (parse_indexed k fl1 fl2 Hfit Hopen Hparse)).
  pose proof (lines_le_bytes (k_bytes k) []) as H.
  fold (final_line (k_bytes k)) in H. cbn [blank drop_cr filter] in H.
  pose proof (count_LF_le (k_bytes k)).
  destruct (blank (final_line (k_bytes k))); lia.
Qed.

(** ** The kernel calls of [parse] *)


(** A refill that succeeds makes one [SetFilePointerEx] to the requested
    offset and one [ReadFile] of the length of the new window. *)
Lemma read_refill_calls bytes r dest index n d r' :
  Cached bytes r ->
  0 <= index -> 0 <= n <= mBufferSize r -> index + n <= len bytes ->
  mBufferSize r < 2 ^ 32 ->
  ~ covered r index n ->
  HandleFileReader.read r dest index n = (true, d, r') ->
  k_trace (os r')
  = k_trace (os r)
    ++ [SysSetFilePointerEx index;
        SysReadFile (Z.min (mBufferSize r) (len bytes - index))].
Proof.
  intros HC Hi Hn Hin H32 Hnc.
  pose proof HC as [HO Hidx Hwin Hmir].
  pose proof HO as [Hh Hb Hsz Hfit Hbs].
  pose proof (len_nonneg (mBuffer r)) as Hl.
  unfold HandleFileReader.read.
  rewrite to_uint64_small by lia.
  destruct (index + n >? mFileSize r) eqn:E1; [apply Z.gtb_lt in E1; lia|].
  destruct (n >? mBufferSize r) eqn:E2; [apply Z.gtb_lt in E2; lia|].
  rewrite (to_size_t_small (mBufferIndex r + len (mBuffer r))) by lia.
  destruct ((index <? mBufferIndex r)
            || (index + n >? mBufferIndex r + len (mBuffer r))) eqn:E3.
  - rewrite (to_uint64_small (mBufferSize r)) by lia.
    rewrite (to_uint64_small (mFileSize r - index)) by lia.
    rewrite Hsz.
    set (B := Z.min (mBufferSize r) (len bytes - index)).
    assert (HB : 0 <= B) by (unfold B; lia).
    rewrite (to_size_t_small B), (to_size_t_small index) by lia.
    cbv zeta.
    match goal with
    | |- context [HandleFileReader.readnobuffer ?a ?b ?c ?d] =>
        pose proof (readnobuffer_calls a b c d) as Hc;
        destruct (HandleFileReader.readnobuffer a b c d) as [[ok d'] r1]
    end.
    destruct Hc as (_ & _ & s & Ht & _ & Hs).
    cbn [mBuffer with_buffer mBufferIndex os] in Ht, Hs.
    rewrite (resize_length B (mBuffer r) HB) in Hs.
    rewrite (to_LONGLONG_small index), (to_DWORD_small B) in Hs
      by (unfold B; lia).
    destruct ok; cbn [negb]; [|discriminate].
    rewrite (Hs eq_refl) in Ht.
    destruct (n =? 1); intros H; inversion H; subst r'; exact Ht.
  - exfalso. apply Hnc. apply orb_false_iff in E3. destruct E3 as [E3 E4].
    apply Z.ltb_ge in E3. rewrite Z.gtb_ltb in E4. apply Z.ltb_ge in E4.
    split; assumption.
Qed.

(** The scan of a file that fits the buffer reads the file with one
    [ReadFile], at its first byte. *)
Lemma parse_loop_fresh_calls bytes r lines r' lines' ci' cs' :
  Cached bytes r ->
  mBuffer r = [] -> mBufferIndex r = 0 -> mBufferSize r = len bytes ->
  len bytes < 2 ^ 32 ->
  FileLines.parse_loop (length bytes) 0 r lines 0 0
  = (true, r', lines', ci', cs') ->
  k_trace (os r')
  = k_trace (os r)
    ++ (if len bytes =? 0 then []
        else [SysSetFilePointerEx 0; SysReadFile (len bytes)]).
Proof.
  intros HC Hbuf Hidx Hbs H32 Heq.
  destruct bytes as [|ch rest] eqn:Eb.
  - cbn in Heq. assert (Hr : r' = r) by congruence. subst r'.
    cbn. rewrite app_nil_r. reflexivity.
  - rewrite <- Eb in *.
    assert (H1 : 1 <= len bytes).
    { rewrite Eb, len_cons. pose proof (len_nonneg rest). lia. }
    destruct (len bytes =? 0) eqn:E0; [apply Z.eqb_eq in E0; lia|].
    assert (Hlen : length bytes = S (length rest)) by (rewrite Eb; reflexivity).
    rewrite Hlen in Heq. cbn [FileLines.parse_loop] in Heq.
    unfold IBufferedFileReader.readchar in Heq.
    cbn [IBufferedFileReader.read HandleFileReader_impl] in Heq.
    destruct (HandleFileReader.read r [x00] 0 1) as [[ok d] r1] eqn:Hrd.
    destruct ok; cbn [negb] in Heq; [|discriminate].
    assert (Hnc : ~ covered r 0 1).
    { unfold covered. rewrite Hbuf, Hidx. change (len (@nil byte)) with 0. lia. }
    pose proof (read_refill_calls bytes r [x00] 0 1 d r1 HC
                  ltac:(lia) ltac:(lia) ltac:(lia) ltac:(lia) Hnc Hrd) as Ht.
    rewrite Hbs in Ht.
    replace (Z.min (len bytes) (len bytes - 0)) with (len bytes) in Ht by lia.
    assert (HW : Whole bytes r1).
    { pose proof (read_fresh_window bytes r [x00] HC Hbuf Hidx Hbs H1) as Hw.
      rewrite Hrd in Hw. cbn [snd] in Hw. destruct Hw as [Hw1 Hw2].
      destruct (read_cached bytes r [x00] 0 1 HC)
        as (ok & d2 & r2 & Heq2 & _ & Hbs2 & Hok2 & _); try lia.
      rewrite Hrd in Heq2.
      assert (ok = true) by congruence. subst ok.
      assert (r2 = r1) by congruence. subst r2.
      destruct (Hok2 eq_refl) as [_ HC1].
      split; [assumption|]. split; [assumption|].
      split; [assumption | congruence]. }
    change (to_uint64 (0 + 1)) with (len [ch]) in Heq.
    change (to_size_t (0 + 1)) with (len [ch]) in Heq.
    destruct (hd x00 d =? CR)%byte; [|destruct (hd x00 d =? LF)%byte];
      match type of Heq with
      | FileLines.parse_loop _ _ _ ?l ?a ?b = _ =>
          destruct (parse_loop_whole bytes rest [ch] r1 l a b Eb HW)
            as (l2 & ci2 & cs2 & Heq2)
      end;
      rewrite Heq2 in Heq; assert (Hr : r' = r1) by congruence;
      subst r'; exact Ht.
Qed.

Lemma new_trace k :
  HandleFileReader.isopen (HandleFileReader.new k) = true ->
  k_trace (os (HandleFileReader.new k))
  = k_trace k ++ [SysCreateFileW; SysGetFileSizeEx].
Proof.
  destruct k as [bytes faults o p t].
  unfold HandleFileReader.new, CreateFileW, GetFileSizeEx, fault_now.
  destruct faults as [|[|] [|[|] fs]]; cbn; intros H;
    try discriminate; rewrite <- app_assoc; reflexivity.
Qed.

(** With the whole file in the buffer [operator[]] changes nothing. *)
Lemma subscript_whole bytes fl r i :
  mLines fl = line_starts bytes ->
  mReader fl = Some r -> Whole bytes r ->
  0 <= i < FileLines.size fl ->
  snd (FileLines.operator_subscript fl i) = fl.
Proof.
  intros Hl Hr HW Hi.
  pose proof (o_fits _ _ (c_opened _ _ (proj1 HW))) as Hfit.
  assert (Hs : FileLines.size fl = len (line_starts bytes) - 1).
  { unfold FileLines.size. rewrite Hl.
    pose proof (line_starts_length_le bytes).
    assert (0 < len (line_starts bytes)).
    { unfold line_starts. rewrite len_app. change (len [len bytes + 1]) with 1.
      pose proof (len_nonneg (starts bytes 0 0 0)). lia. }
    apply to_size_t_small. lia. }
  rewrite Hs in Hi.
  pose proof (len_nonneg bytes) as Hlb.
  pose proof (line_starts_length_le bytes) as Hlt.
  destruct (line_starts_step bytes i ltac:(lia) ltac:(lia)) as (Ha & Hab & Hb).
  unfold FileLines.operator_subscript. rewrite Hr, Hl.
  rewrite (to_size_t_small (i + 1)) by lia.
  set (a := nth (Z.to_nat i) (line_starts bytes) 0) in *.
  set (b := nth (Z.to_nat (i + 1)) (line_starts bytes) 0) in *.
  rewrite (to_uint64_small (b - a - 1)) by lia.
  rewrite (to_size_t_small (b - a - 1)) by lia.
  unfold IBufferedFileReader.readstring.
  cbn [IBufferedFileReader.read HandleFileReader_impl].
  rewrite (read_whole bytes r _ a (b - a - 1) HW) by lia.
  cbn [snd]. destruct fl as [l o]. cbn [mLines mReader] in *.
  subst o. rewrite Hl. reflexivity.
Qed.

Lemma after_lines_whole bytes r : forall js fl,
  mLines fl = line_starts bytes ->
  mReader fl = Some r -> Whole bytes r ->
  Forall (fun j => 0 <= j < FileLines.size fl) js ->
  after_lines fl js = fl.
Proof.
  induction js as [|j js IH]; intros fl Hl Hr HW Hjs; [reflexivity|].
  inversion Hjs as [|? ? Hj Hjs']; subst.
  unfold after_lines. cbn [fold_left].
  rewrite (subscript_whole bytes fl r j Hl Hr HW Hj).
  apply IH; assumption.
Qed.

(** X13. A file of at most 10 MiB is read from disk once.  [open] and
    [parse], when they succeed, make four kernel calls in all:
    [CreateFileW], [GetFileSizeEx], one [SetFilePointerEx] to offset 0 and
    one [ReadFile] of the whole size (the last two not for an empty
    file); every later [operator[]] at a valid index is served from the
    buffer and leaves the reader and the kernel untouched. *)
Theorem small_file_is_read_once k fl1 fl2 :
  len (k_bytes k) <= 10 * 1024 * 1024 ->
  FileLines.open FileLines.new k = (true, fl1) ->
  FileLines.parse fl1 = (true, fl2) ->
  (exists r,
     mReader fl2 = Some r
     /\ k_trace (os r)
        = k_trace k ++ [SysCreateFileW; SysGetFileSizeEx]
          ++ (if len (k_bytes k) =? 0 then []
              else [SysSetFilePointerEx 0; SysReadFile (len (k_bytes k))]))
  /\ forall js i,
       Forall (fun j => 0 <= j < FileLines.size fl2) js ->
       0 <= i < FileLines.size fl2 ->
       snd (FileLines.operator_subscript (after_lines fl2 js) i) = fl2.
Proof.
  intros Hfit Hopen Hparse.
  pose proof (parse_indexed k fl1 fl2 ltac:(lia) Hopen Hparse) as [Hl _].
  destruct (parse_whole k fl1 fl2 Hfit Hopen Hparse) as (rw & Hrw & HW).
  split.
  - destruct (open_new _ _ _ Hopen) as [-> Hisopen]. symmetry in Hisopen.
    destruct (new_cached k ltac:(lia) Hisopen) as (HC & Hbs0 & _).
    destruct (new_fresh k) as [Hbuf Hidx].
    pose proof (new_trace k Hisopen) as Ht0.
    set (bytes := k_bytes k) in *.
    pose proof (len_nonneg bytes) as Hlb.
    revert Hparse. unfold FileLines.parse. cbn [mReader mLines].
    cbn [IBufferedFileReader.isopen IBufferedFileReader.size
         IBufferedFileReader.setbuffersize
         IBufferedFileReader.setbufferdirection HandleFileReader_impl].
    rewrite Hisopen. cbn [negb].
    set (r0 := HandleFileReader.setbuffersize _ _).
    assert (HC0 : Cached bytes r0 /\ mBufferSize r0 = len bytes).
    { destruct (setbuffersize_cached bytes
                  (HandleFileReader.setbufferdirection (HandleFileReader.new k)
                     IBufferedFileReader.Right) (10 * 1024 * 1024)
                  (setbufferdirection_cached _ _ _ HC)) as [H1 H2].
      split; [exact H1|]. unfold r0. rewrite H2.
      change (to_uint64 (10 * 1024 * 1024)) with (10 * 1024 * 1024). lia. }
    destruct HC0 as [HC0 Hbs].
    assert (Hos : os r0 = os (HandleFileReader.new k)) by reflexivity.
    unfold HandleFileReader.size.
    rewrite (o_size _ _ (c_opened _ _ HC)).
    unfold len at 1. rewrite Nat2Z.id.
    destruct (FileLines.parse_loop (length bytes) 0 r0 [] 0 0)
      as [[[[ok r'] l'] ci'] cs'] eqn:Heq.
    destruct ok; cbn [negb]; [|discriminate].
    intros H. inversion H; subst fl2; clear H.
    exists r'. split; [reflexivity|].
    rewrite (parse_loop_fresh_calls bytes r0 [] r' l' ci' cs' HC0
               Hbuf Hidx Hbs ltac:(lia) Heq).
    rewrite Hos, Ht0, <- app_assoc. reflexivity.
  - intros js i Hjs Hi.
    rewrite (after_lines_whole _ rw js fl2 Hl Hrw HW Hjs).
    apply (subscript_whole _ fl2 rw i Hl Hrw HW Hi).
Qed.

(** ** [loadFile] *)

(** The scan of [parse] neither opens nor closes the handle. *)
Lemma parse_loop_handle : forall n i r lines ci cs,
  let r' := snd (fst (fst (fst (FileLines.parse_loop n i r lines ci cs)))) in
  mHandle r' = mHandle r
  /\ k_open (os r') = k_open (os r)
  /\ exists s, k_trace (os r') = k_trace (os r) ++ s /\ closes s = 0%nat.
Proof.
  induction n as [|n IH]; intros i r lines ci cs.
  - cbn. repeat split; try reflexivity. exists []. rewrite app_nil_r.
    split; reflexivity.
  - cbn [FileLines.parse_loop]. unfold IBufferedFileReader.readchar.
    cbn [IBufferedFileReader.read HandleFileReader_impl].
    destruct (read_calls_general r [x00] i 1) as (Ho & _ & s & Ht & Hs).
    destruct (read_frame r [x00] i 1) as (Hh & _).
    destruct (HandleFileReader.read r [x00] i 1) as [[ok d] r1].
    cbn [snd] in Ho, Ht, Hh.
    apply read_calls_no_close in Hs.
    assert (Hbase : mHandle r1 = mHandle r /\ k_open (os r1) = k_open (os r)
                    /\ exists s, k_trace (os r1) = k_trace (os r) ++ s
                                 /\ closes s = 0%nat).
    { split; [exact Hh|]. split; [exact Ho|]. exists s. split; assumption. }
    assert (Hnext : forall i' l' a b,
      let r' := snd (fst (fst (fst (FileLines.parse_loop n i' r1 l' a b)))) in
      mHandle r' = mHandle r /\ k_open (os r') = k_open (os r)
      /\ exists s, k_trace (os r') = k_trace (os r) ++ s /\ closes s = 0%nat).
    { intros i' l' a b. destruct (IH i' r1 l' a b) as (G1 & G2 & s2 & G3 & G4).
      cbv zeta. split; [congruence|]. split; [congruence|].
      exists (s ++ s2). rewrite G3, Ht, <- app_assoc. split; [reflexivity|].
      rewrite closes_app. lia. }
    destruct ok; cbn [negb]; [|exact Hbase].
    destruct (hd x00 d =? CR)%byte; [|destruct (hd x00 d =? LF)%byte];
      apply Hnext.
Qed.

(** [parse] keeps the reader it finds, open or not, and closes nothing. *)
Lemma parse_handle fl r :
  mReader fl = Some r ->
  exists r',
    mReader (snd (FileLines.parse fl)) = Some r'
    /\ HandleFileReader.isopen r' = HandleFileReader.isopen r
    /\ k_open (os r') = k_open (os r)
    /\ exists s, k_trace (os r') = k_trace (os r) ++ s /\ closes s = 0%nat.
Proof.
  intros Hr. unfold FileLines.parse. rewrite Hr.
  cbn [IBufferedFileReader.isopen IBufferedFileReader.size
       IBufferedFileReader.setbuffersize IBufferedFileReader.setbufferdirection
       HandleFileReader_impl].
  assert (Hsame : exists r', Some r = Some r'
            /\ HandleFileReader.isopen r' = HandleFileReader.isopen r
            /\ k_open (os r') = k_open (os r)
            /\ exists s, k_trace (os r') = k_trace (os r) ++ s
                         /\ closes s = 0%nat).
  { exists r. repeat split; try reflexivity. exists [].
    rewrite app_nil_r. split; reflexivity. }
  destruct (HandleFileReader.isopen r) eqn:E; cbn [negb];
    [|cbn [snd]; rewrite Hr; exact Hsame].
  match goal with
  | |- context [FileLines.parse_loop ?n ?i ?r0 ?l ?a ?b] =>
      pose proof (parse_loop_handle n i r0 l a b) as H;
      destruct (FileLines.parse_loop n i r0 l a b)
        as [[[[ok r'] l'] ci'] cs']
  end.
  cbn [snd fst] in H. cbn [mHandle os HandleFileReader.setbuffersize
                           HandleFileReader.setbufferdirection] in H.
  destruct H as (Hh & Ho & s & Ht & Hs).
  exists r'. destruct ok; cbn [negb snd mReader];
    (split; [reflexivity|]);
    (split; [unfold HandleFileReader.isopen in *; rewrite Hh; exact E|]);
    (split; [exact Ho|]); exists s; split; assumption.
Qed.

Lemma new_trace_head k :
  exists s, k_trace (os (HandleFileReader.new k))
            = k_trace k ++ SysCreateFileW :: s.
Proof.
  destruct k as [bytes faults o p t].
  unfold HandleFileReader.new, CreateFileW, GetFileSizeEx, fault_now,
    CloseHandle.
  destruct faults as [|[|] [|[|] fs]]; cbn; rewrite <- ?app_assoc;
    eexists; reflexivity.
Qed.

(** [loadFile] on a view that holds no file, whose file is not open. *)
Lemma loadFile_fresh path k g :
  len path <> 0 -> k_open k = false ->
  let v' := loadFile (mkSourceView path None k g) in
  mSourcePath v' = path
  /\ tidy v'
  /\ (exists s, k_trace (kernel v') = k_trace k ++ SysCreateFileW :: s)
  /\ match mFileLines v' with
     | None =>
         (exists w, gui v' = g ++ [QMessageBox_warning w])
         /\ closes (k_trace (disk v'))
            = (closes (k_trace k) + (if fault_now k then 0 else 1))%nat
         /\ (fst (FileLines.open FileLines.new k) = false
             \/ fst (FileLines.parse (opened k)) = false)
     | Some fl =>
         FileLines.open FileLines.new k = (true, opened k)
         /\ FileLines.parse (opened k) = (true, fl)
         /\ gui v' = g ++ [setRowCount (FileLines.size fl);
                           setTableOffset 0; reloadData]
     end.
Proof.
  intros Hpath Hk. unfold loadFile. cbn [mSourcePath mFileLines disk gui].
  destruct (len path =? 0) eqn:E0; [apply Z.eqb_eq in E0; contradiction|].
  destruct (new_handle k Hk) as [Ho Hc].
  destruct (new_trace_head k) as (s0 & Ht0).
  unfold opened, FileLines.open.
  cbn [FileLines.isopen FileLines.new mReader mLines snd
       IBufferedFileReader.isopen HandleFileReader_impl].
  destruct (HandleFileReader.isopen (HandleFileReader.new k)) eqn:E;
    cbn [negb].
  - destruct (parse_handle (mkFileLines [] (Some (HandleFileReader.new k)))
                (HandleFileReader.new k) eq_refl)
      as (r' & Hr' & Hi' & Ho' & s & Ht & Hs).
    destruct (FileLines.parse
                (mkFileLines [] (Some (HandleFileReader.new k))))
      as [ok fl2] eqn:Hp.
    cbn [snd] in Hr'. rewrite E in Hi'.
    destruct ok; cbn [negb]; cbv zeta;
      unfold tidy, kernel, delete_FileLines;
      cbn [mSourcePath mFileLines disk gui]; rewrite Hr'.
    + split; [reflexivity|].
      split; [|split; [|split; [|split; reflexivity]]].
      * unfold FileLines.isopen. rewrite Hr'.
        cbn [IBufferedFileReader.isopen HandleFileReader_impl].
        split; [exact Hi' | congruence].
      * exists (s0 ++ s). rewrite Ht, Ht0, <- app_assoc. reflexivity.
      * reflexivity.
    + unfold HandleFileReader.delete. rewrite Hi'.
      cbn [os CloseHandle k_open k_trace].
      split; [reflexivity|]. split; [reflexivity|].
      split; [|split; [|split; [|right; reflexivity]]].
      * exists (s0 ++ s ++ [SysCloseHandle]).
        rewrite Ht, Ht0, <- !app_assoc. reflexivity.
      * eexists. reflexivity.
      * rewrite closes_app, Ht, closes_app, Hs, Hc.
        assert (F : fault_now k = false).
        { rewrite new_isopen in E. unfold fault_now.
          destruct (hd false (k_faults k)); [discriminate | reflexivity]. }
        rewrite F. cbn. lia.
  - cbv zeta. unfold tidy, kernel, delete_FileLines, HandleFileReader.delete.
    cbn [mSourcePath mFileLines disk gui mReader]. rewrite E.
    split; [reflexivity|]. split; [congruence|].
    split; [|split; [|split; [|left; reflexivity]]].
    + exists s0. exact Ht0.
    + eexists. reflexivity.
    + rewrite Hc. destruct (fault_now k); reflexivity.
Qed.

(** X14. What [loadFile] leaves behind.  On a view that holds no file and
    whose file is not open, [loadFile] with a path that is not empty ends
    in one of two ways.  Either it holds a [FileLines] that is open and
    has the offset table of the file, and it has set the row count to the
    number of lines.  Or it has shown one warning and holds none: then the
    handle is closed again, [CloseHandle] was called once if [CreateFileW]
    succeeded, and a kernel call did fail. *)
Theorem loadFile_outcome path k g :
  len path <> 0 -> k_open k = false -> len (k_bytes k) < 2 ^ 63 ->
  match mFileLines (loadFile (mkSourceView path None k g)) with
  | Some fl =>
      FileLines.isopen fl = true
      /\ mLines fl = line_starts (k_bytes k)
      /\ gui (loadFile (mkSourceView path None k g))
         = g ++ [setRowCount (count_LF (k_bytes k)
                              + (if blank (final_line (k_bytes k))
                                 then 0 else 1));
                 setTableOffset 0; reloadData]
  | None =>
      (exists w, gui (loadFile (mkSourceView path None k g))
                 = g ++ [QMessageBox_warning w])
      /\ k_open (disk (loadFile (mkSourceView path None k g))) = false
      /\ closes (k_trace (disk (loadFile (mkSourceView path None k g))))
         = (closes (k_trace k) + (if fault_now k then 0 else 1))%nat
      /\ k_faults k <> []
  end.
Proof.
  intros Hpath Hk Hfit.
  destruct (loadFile_fresh path k g Hpath Hk) as (_ & Ht & _ & H).
  unfold tidy in Ht.
  destruct (mFileLines (loadFile (mkSourceView path None k g))) as [fl|].
  - destruct H as (Hopen & Hparse & Hg). destruct Ht as [Hi _].
    pose proof (parse_indexed k _ fl Hfit Hopen Hparse) as HI.
    split; [exact Hi|]. split; [apply HI|].
    rewrite Hg, (Indexed_size _ _ Hfit HI). reflexivity.
  - destruct H as (Hw & Hc & Hfail).
    split; [exact Hw|]. split; [exact Ht|]. split; [exact Hc|].
    intros Hp.
    destruct (parse_healthy k Hfit Hp) as (fl1 & fl2 & Hopen & Hparse & _).
    assert (H1 : opened k = fl1) by (unfold opened; rewrite Hopen; reflexivity).
    rewrite H1, Hopen, Hparse in Hfail. destruct Hfail; discriminate.
Qed.

Lemma delete_tidy v : tidy v -> k_open (delete_SourceView v) = false.
Proof.
  unfold tidy, delete_SourceView, kernel, delete_FileLines, FileLines.isopen.
  destruct (mFileLines v) as [fl|]; [|intros H; exact H].
  destruct (mReader fl) as [r|]; [|intros [H _]; discriminate].
  cbn [IBufferedFileReader.isopen HandleFileReader_impl].
  intros [Hi _]. unfold HandleFileReader.delete. rewrite Hi. reflexivity.
Qed.

(** X15. The view never holds two handles and leaks none.  Whether or not
    it holds a file already, [loadFile] with a path that is not empty
    closes the handle it holds before it calls [CreateFileW]; afterwards
    the view holds an open [FileLines] with the handle open, or none with
    the handle closed; and the destructor leaves the handle closed. *)
Theorem loadFile_closes_before_reopening v :
  len (mSourcePath v) <> 0 ->
  tidy v ->
  tidy (loadFile v)
  /\ (exists s,
        k_trace (kernel (loadFile v))
        = k_trace (kernel v)
          ++ match mFileLines v with
             | Some _ => [SysCloseHandle]
             | None => []
             end ++ SysCreateFileW :: s)
  /\ k_open (delete_SourceView (loadFile v)) = false.
Proof.
  intros Hpath Ht.
  assert (H : tidy (loadFile v)
              /\ exists s,
                   k_trace (kernel (loadFile v))
                   = k_trace (kernel v)
                     ++ match mFileLines v with
                        | Some _ => [SysCloseHandle]
                        | None => []
                        end ++ SysCreateFileW :: s).
  { destruct v as [path [old|] k g]; cbn [mSourcePath] in Hpath.
    - unfold tidy, kernel, FileLines.isopen in Ht.
      cbn [mFileLines disk] in Ht.
      destruct (mReader old) as [r|] eqn:Hr; [|destruct Ht; discriminate].
      cbn [IBufferedFileReader.isopen HandleFileReader_impl] in Ht.
      destruct Ht as [Hi Ho].
      assert (Hd : delete_FileLines old k = CloseHandle (os r)).
      { unfold delete_FileLines, HandleFileReader.delete.
        rewrite Hr, Hi. reflexivity. }
      assert (Hl : loadFile (mkSourceView path (Some old) k g)
                   = loadFile (mkSourceView path None (CloseHandle (os r)) g)).
      { unfold loadFile. cbn [mSourcePath mFileLines disk gui].
        rewrite Hd.
        destruct (len path =? 0) eqn:E0; [|reflexivity].
        apply Z.eqb_eq in E0. contradiction. }
      rewrite Hl.
      destruct (loadFile_fresh path (CloseHandle (os r)) g Hpath eq_refl)
        as (_ & Ht' & (s & Hs) & _).
      split; [exact Ht'|]. exists s. rewrite Hs.
      change (kernel (mkSourceView path (Some old) k g))
        with (match mReader old with Some r0 => os r0 | None => k end).
      rewrite Hr.
      cbn [CloseHandle k_trace]. rewrite <- app_assoc. reflexivity.
    - destruct (loadFile_fresh path k g Hpath Ht) as (_ & Ht' & Hs & _).
      split; [exact Ht' | exact Hs]. }
  destruct H as [H1 H2].
  split; [exact H1|]. split; [exact H2|]. apply delete_tidy. exact H1.
Qed.

(** ** The disk reads of [parse] *)

Lemma reads_app a b : reads (a ++ b) = reads a + reads b.
Proof. unfold reads. rewrite filter_app, len_app. reflexivity. Qed.

Lemma requested_app a b : requested (a ++ b) = requested a + requested b.
Proof.
  induction a as [|c a IH]; [reflexivity|].
  destruct c; cbn [app requested]; rewrite IH; lia.
Qed.

Lemma chunks_step a B :
  1 <= B -> 1 <= a ->
  1 + (a - Z.min B a + B - 1) / B = (a + B - 1) / B.
Proof.
  intros HB Ha. destruct (Z.le_gt_cases a B) as [Hle|Hgt].
  - replace (a - Z.min B a + B - 1) with (B - 1) by lia.
    rewrite (Z.div_small (B - 1) B) by lia.
    replace (a + B - 1) with ((a - 1) + 1 * B) by lia.
    rewrite Z.div_add by lia. rewrite (Z.div_small (a - 1) B) by lia.
    reflexivity.
  - replace (a - Z.min B a + B - 1) with (a - 1) by lia.
    replace (a + B - 1) with ((a - 1) + 1 * B) by lia.
    rewrite Z.div_add by lia. lia.
Qed.

(** A scan that succeeds asks the disk for the bytes after the window,
    once each, a buffer size at a time. *)
Lemma parse_loop_reads bytes : forall bs pre r lines ci cs r' lines' ci' cs',
  bytes = pre ++ bs ->
  Cached bytes r -> 1 <= mBufferSize r < 2 ^ 32 ->
  mBufferIndex r <= len pre <= mBufferIndex r + len (mBuffer r) ->
  FileLines.parse_loop (length bs) (len pre) r lines ci cs
  = (true, r', lines', ci', cs') ->
  reads (k_trace (os r'))
  = reads (k_trace (os r))
    + (len bytes - (mBufferIndex r + len (mBuffer r)) + mBufferSize r - 1)
      / mBufferSize r
  /\ requested (k_trace (os r'))
     = requested (k_trace (os r))
       + (len bytes - (mBufferIndex r + len (mBuffer r))).
Proof.
  induction bs as [|ch rest IH];
    intros pre r lines ci cs r' lines' ci' cs' Hb HC HB Hw Heq.
  - cbn in Heq. assert (r' = r) by congruence. subst r'.
    pose proof (c_window _ _ HC) as Hwin.
    rewrite Hb, app_nil_r in Hwin |- *.
    replace (len pre - (mBufferIndex r + len (mBuffer r))) with 0 by lia.
    rewrite Z.div_small by lia. lia.
  - pose proof (len_nonneg pre) as Hp. pose proof (len_nonneg rest) as Hr.
    pose proof (o_fits _ _ (c_opened _ _ HC)) as Hf.
    pose proof (c_window _ _ HC) as Hwin.
    assert (Hlen : len bytes = len pre + 1 + len rest).
    { rewrite Hb, len_app, len_cons. lia. }
    assert (Hpre : len (pre ++ [ch]) = len pre + 1).
    { rewrite len_app, len_cons, len_nil. lia. }
    assert (Hb' : bytes = (pre ++ [ch]) ++ rest).
    { rewrite Hb, <- app_assoc. reflexivity. }
    cbn [length FileLines.parse_loop] in Heq.
    unfold IBufferedFileReader.readchar in Heq.
    cbn [IBufferedFileReader.read HandleFileReader_impl] in Heq.
    rewrite (to_uint64_small (len pre + 1)) in Heq by lia.
    rewrite <- Hpre in Heq.
    destruct (covered_dec r (len pre) 1) as [Hc|Hnc].
    + destruct Hc as [H1 H2].
      rewrite (read_hit bytes r [x00] (len pre) 1 HC ltac:(lia) H1 H2) in Heq.
      cbn [negb] in Heq.
      destruct (hd x00 _ =? CR)%byte; [|destruct (hd x00 _ =? LF)%byte];
        apply (IH _ _ _ _ _ _ _ _ _ Hb' HC HB ltac:(lia) Heq).
    + assert (He : len pre = mBufferIndex r + len (mBuffer r)).
      { unfold covered in Hnc. lia. }
      destruct (read_cached bytes r [x00] (len pre) 1 HC)
        as (ok & d & r1 & Hrd & _ & Hbs1 & Hok & _); try lia.
      rewrite Hrd in Heq.
      destruct ok; cbn [negb] in Heq; [|discriminate].
      destruct (Hok eq_refl) as [_ HC1].
      pose proof (read_refill_calls bytes r [x00] (len pre) 1 d r1 HC
                    ltac:(lia) ltac:(lia) ltac:(lia) ltac:(lia) Hnc Hrd) as Ht.
      pose proof (read_refill_shape bytes r [x00] (len pre) 1 HC
                    ltac:(lia) ltac:(lia) ltac:(lia) Hnc) as Hsh.
      rewrite Hrd in Hsh. cbn [snd] in Hsh. destruct Hsh as [Hi1 Hl1].
      assert (Hgoal :
        reads (k_trace (os r'))
        = reads (k_trace (os r1))
          + (len bytes - (mBufferIndex r1 + len (mBuffer r1))
             + mBufferSize r1 - 1) / mBufferSize r1
        /\ requested (k_trace (os r'))
           = requested (k_trace (os r1))
             + (len bytes - (mBufferIndex r1 + len (mBuffer r1)))).
      { destruct (hd x00 d =? CR)%byte; [|destruct (hd x00 d =? LF)%byte];
          apply (IH _ _ _ _ _ _ _ _ _ Hb' HC1 ltac:(lia) ltac:(lia) Heq). }
      destruct Hgoal as [G1 G2].
      rewrite G1, G2, Ht, reads_app, requested_app, Hi1, Hl1, Hbs1.
      change (reads [SysSetFilePointerEx (len pre);
                     SysReadFile (Z.min (mBufferSize r)
                                        (len bytes - len pre))])
        with 1.
      cbn [requested]. rewrite <- He.
      pose proof (chunks_step (len bytes - len pre) (mBufferSize r)
                    ltac:(lia) ltac:(lia)) as Hch.
      replace (len bytes
               - (len pre + Z.min (mBufferSize r) (len bytes - len pre))
               + mBufferSize r - 1)
        with (len bytes - len pre
              - Z.min (mBufferSize r) (len bytes - len pre)
              + mBufferSize r - 1) by lia.
      split; lia.
Qed.

(** X16. [parse] reads every byte of the file from disk once, 10 MiB at a
    time.  After a successful [open] and [parse] of a file under 4 GiB the
    [ReadFile] calls made number the size divided by 10 MiB, rounded up,
    and the sizes they ask for add up to the size of the file. *)
Theorem parse_reads_each_byte_once k fl1 fl2 :
  len (k_bytes k) < 2 ^ 32 ->
  FileLines.open FileLines.new k = (true, fl1) ->
  FileLines.parse fl1 = (true, fl2) ->
  exists r,
    mReader fl2 = Some r
    /\ reads (k_trace (os r))
       = reads (k_trace k)
         + (len (k_bytes k) + 10 * 1024 * 1024 - 1) / (10 * 1024 * 1024)
    /\ requested (k_trace (os r)) = requested (k_trace k) + len (k_bytes k).
Proof.
  intros H32 Hopen Hparse.
  destruct (open_new _ _ _ Hopen) as [-> Hisopen]. symmetry in Hisopen.
  destruct (new_cached k ltac:(lia) Hisopen) as (HC & Hbs0 & _).
  destruct (new_fresh k) as [Hbuf Hidx].
  pose proof (new_trace k Hisopen) as Ht0.
  set (bytes := k_bytes k) in *.
  pose proof (len_nonneg bytes) as Hlb.
  revert Hparse. unfold FileLines.parse. cbn [mReader mLines].
  cbn [IBufferedFileReader.isopen IBufferedFileReader.size
       IBufferedFileReader.setbuffersize
       IBufferedFileReader.setbufferdirection HandleFileReader_impl].
  rewrite Hisopen. cbn [negb].
  set (r0 := HandleFileReader.setbuffersize _ _).
  assert (HC0 : Cached bytes r0 /\ mBufferSize r0
                = Z.min (10 * 1024 * 1024) (len bytes)).
  { destruct (setbuffersize_cached bytes
                (HandleFileReader.setbufferdirection (HandleFileReader.new k)
                   IBufferedFileReader.Right) (10 * 1024 * 1024)
                (setbufferdirection_cached _ _ _ HC)) as [H1 H2].
    split; [exact H1|]. unfold r0. rewrite H2. reflexivity. }
  destruct HC0 as [HC0 Hbs].
  assert (Hos : os r0 = os (HandleFileReader.new k)) by reflexivity.
  assert (Hb0 : mBuffer r0 = []) by exact Hbuf.
  assert (Hi0 : mBufferIndex r0 = 0) by exact Hidx.
  unfold HandleFileReader.size.
  rewrite (o_size _ _ (c_opened _ _ HC)).
  unfold len at 1. rewrite Nat2Z.id.
  destruct (FileLines.parse_loop (length bytes) 0 r0 [] 0 0)
    as [[[[ok r'] l'] ci'] cs'] eqn:Heq.
  destruct ok; cbn [negb]; [|discriminate].
  intros H. inversion H; subst fl2; clear H.
  exists r'. split; [reflexivity|].
  assert (Hbase : reads (k_trace (os r0)) = reads (k_trace k)
                  /\ requested (k_trace (os r0)) = requested (k_trace k)).
  { rewrite Hos, Ht0, reads_app, requested_app. cbn. split; lia. }
  destruct Hbase as [Hr0 Hq0].
  destruct (Z.eq_dec (len bytes) 0) as [Hz|Hnz].
  - assert (Hn : length bytes = 0%nat) by (unfold len in Hz; lia).
    rewrite Hn in Heq. cbn in Heq.
    assert (r' = r0) by congruence. subst r'.
    rewrite Hr0, Hq0, Hz. cbn. split; lia.
  - destruct (parse_loop_reads bytes bytes [] r0 [] 0 0 r' l' ci' cs'
                eq_refl HC0) as [G1 G2].
    + rewrite Hbs. lia.
    + rewrite Hi0, Hb0. change (len (@nil byte)) with 0. lia.
    + exact Heq.
    + rewrite G1, G2, Hr0, Hq0, Hi0, Hb0, Hbs.
      change (len (@nil byte)) with 0.
      split; [|lia]. f_equal.
      destruct (Z.le_gt_cases (len bytes) (10 * 1024 * 1024)) as [Hle|Hgt].
      * rewrite Z.min_r by lia.
        replace (len bytes - (0 + 0) + len bytes - 1)
          with ((len bytes - 1) + 1 * len bytes) by lia.
        rewrite Z.div_add by lia. rewrite (Z.div_small (len bytes - 1)) by lia.
        replace (len bytes + 10 * 1024 * 1024 - 1)
          with ((len bytes - 1) + 1 * (10 * 1024 * 1024)) by lia.
        rewrite Z.div_add by lia. rewrite Z.div_small by lia. reflexivity.
      * rewrite Z.min_l by lia. f_equal. lia.
Qed.

(** ** What [read] writes *)

Lemma store_skipn dest src m :
  (length src <= m)%nat -> (m <= length dest)%nat ->
  skipn m (store dest src) = skipn m dest.
Proof.
  intros H1 H2. unfold store.
  rewrite skipn_app, (skipn_all2 src) by assumption.
  cbn [app]. rewrite skipn_skipn. f_equal. lia.
Qed.

Lemma store_nothing (dest : list byte) : store dest [] = dest.
Proof. reflexivity. Qed.

(** What [read] leaves at the destination is what was there with at most
    [size] bytes stored over its beginning. *)
Lemma read_dest_shape r dest index n :
  0 <= n ->
  exists src,
    snd (fst (HandleFileReader.read r dest index n)) = store dest src
    /\ (length src <= Z.to_nat n)%nat.
Proof.
  intros Hn.
  assert (Hnone : exists src, dest = store dest src
                              /\ (length src <= Z.to_nat n)%nat).
  { exists []. split; [reflexivity | cbn; lia]. }
  unfold HandleFileReader.read.
  destruct (to_uint64 (index + n) >? mFileSize r); [exact Hnone|].
  destruct (n >? mBufferSize r).
  - destruct (readnobuffer_frame r dest index n)
      as (ok & d & k' & Heq & _ & _ & Hd). rewrite Heq. cbn [fst snd].
    destruct Hd as [->|[p ->]]; [exact Hnone|].
    eexists. split; [reflexivity|].
    pose proof (slice_length_le (k_bytes (os r)) p (to_DWORD n)).
    pose proof (to_DWORD_le n Hn). lia.
  - assert (Hcopy : forall r1 : HandleFileReader,
      exists src,
        snd (fst (if n =? 1
                  then (true,
                        store dest
                          [nth (Z.to_nat (to_uint64 (index - mBufferIndex r1)))
                               (mBuffer r1) x00], r1)
                  else (true,
                        store dest
                          (slice (mBuffer r1)
                                 (to_uint64 (index - mBufferIndex r1)) n),
                        r1)))
        = store dest src
        /\ (length src <= Z.to_nat n)%nat).
    { intros r1. destruct (n =? 1) eqn:E; cbn [fst snd];
        eexists; (split; [reflexivity|]).
      - apply Z.eqb_eq in E. cbn [length]. lia.
      - apply slice_length_le. }
    match goal with
    | |- context [if ?c then _ else (true, r)] => destruct c
    end.
    + match goal with
      | |- context [HandleFileReader.readnobuffer ?a ?b ?c ?d] =>
          destruct (readnobuffer_frame a b c d)
            as (ok & d' & k' & Heq & _); rewrite Heq
      end.
      destruct ok; cbn [negb]; [apply Hcopy | exact Hnone].
    + cbn [negb]. apply Hcopy.
Qed.

(** X17. [read] writes no more than it was asked for.  Given a destination
    with room for [size] bytes, whatever the reader, the request and the
    outcome, the destination keeps its length and every byte after the
    first [size] is as it was. *)
Theorem read_writes_at_most_size r dest index n :
  0 <= n <= len dest ->
  len (snd (fst (HandleFileReader.read r dest index n))) = len dest
  /\ skipn (Z.to_nat n) (snd (fst (HandleFileReader.read r dest index n)))
     = skipn (Z.to_nat n) dest.
Proof.
  intros [Hn Hl].
  destruct (read_dest_shape r dest index n Hn) as (src & -> & Hs).
  unfold len in *. split.
  - rewrite store_keeps_length by lia. reflexivity.
  - apply store_skipn; lia.
Qed.

(** ** A [parse] that fails *)

(** Whether or not the scan succeeds, what it pushes is a prefix of the
    offsets a complete scan pushes. *)
Lemma parse_loop_prefix bytes : forall bs pre r lines ci cs,
  bytes = pre ++ bs ->
  Cached bytes r -> mBufferSize r < 2 ^ 32 ->
  0 <= ci <= len pre -> 0 <= cs <= len pre ->
  exists p q,
    snd (fst (fst (FileLines.parse_loop (length bs) (len pre) r lines ci cs)))
    = lines ++ p
    /\ starts bs (len pre) ci cs = p ++ q.
Proof.
  induction bs as [|ch rest IH]; intros pre r lines ci cs Hb HC H32 Hci Hcs.
  - cbn [length FileLines.parse_loop fst snd].
    exists [], (starts [] (len pre) ci cs).
    split; [symmetry; apply app_nil_r | reflexivity].
  - pose proof (len_nonneg pre) as Hp. pose proof (len_nonneg rest) as Hr.
    pose proof (o_fits _ _ (c_opened _ _ HC)) as Hfit.
    assert (Hlen : len bytes = len pre + 1 + len rest).
    { rewrite Hb, len_app, len_cons. lia. }
    assert (Hpre : len (pre ++ [ch]) = len pre + 1).
    { rewrite len_app, len_cons, len_nil. lia. }
    assert (Hb' : bytes = (pre ++ [ch]) ++ rest).
    { rewrite Hb, <- app_assoc. reflexivity. }
    cbn [length FileLines.parse_loop starts].
    destruct (readchar_cached bytes pre ch rest r Hb HC H32)
      as (ok & c & r1 & Heq & HO1 & Hbs1 & Hok & Hh).
    rewrite Heq. destruct ok; cbn [negb].
    + destruct (Hok eq_refl) as [-> HC1].
      rewrite (to_uint64_small (len pre + 1)) by lia.
      rewrite (to_size_t_small (len pre + 1)) by lia.
      rewrite (to_uint64_small ci) by lia.
      rewrite (to_size_t_small (cs + 1)) by lia.
      rewrite <- Hpre.
      destruct (ch =? CR)%byte eqn:Ecr; [|destruct (ch =? LF)%byte eqn:Elf].
      * apply (IH (pre ++ [ch]) r1 lines ci cs Hb' HC1); lia.
      * destruct (IH (pre ++ [ch]) r1 (lines ++ [ci]) (len (pre ++ [ch])) 0
                     Hb' HC1) as (p & q & H1 & H2); try lia.
        exists (ci :: p), q. rewrite H1, H2, <- app_assoc.
        split; reflexivity.
      * apply (IH (pre ++ [ch]) r1 lines ci (cs + 1) Hb' HC1); lia.
    + cbn [fst snd]. eexists [], _.
      split; [symmetry; apply app_nil_r | reflexivity].
Qed.

(** X18. A [parse] that fails leaves the table cut short.  When [open] has
    succeeded and [parse] returns [false], the table is a proper prefix of
    the offset table of the file, so that the sentinel is missing; the
    [FileLines] is still open; and a kernel call has failed. *)
Theorem parse_failure_leaves_prefix k fl1 fl2 :
  len (k_bytes k) < 2 ^ 63 ->
  FileLines.open FileLines.new k = (true, fl1) ->
  FileLines.parse fl1 = (false, fl2) ->
  (exists q, q <> [] /\ line_starts (k_bytes k) = mLines fl2 ++ q)
  /\ ~ In (len (k_bytes k) + 1) (mLines fl2)
  /\ FileLines.isopen fl2 = true
  /\ k_faults k <> [].
Proof.
  intros Hfit Hopen Hparse.
  assert (Hfaults : k_faults k <> []).
  { intros Hp.
    destruct (parse_healthy k Hfit Hp) as (g1 & g2 & Ho & Hpa & _).
    rewrite Hopen in Ho. assert (g1 = fl1) by congruence. subst g1.
    rewrite Hparse in Hpa. discriminate. }
  destruct (open_new _ _ _ Hopen) as [-> Hisopen]. symmetry in Hisopen.
  destruct (new_cached k Hfit Hisopen) as (HC & Hbs0 & _).
  destruct (parse_handle (mkFileLines [] (Some (HandleFileReader.new k)))
              _ eq_refl) as (r2 & Hr2 & Hi2 & _).
  rewrite Hparse in Hr2. cbn [snd] in Hr2.
  set (bytes := k_bytes k) in *.
  pose proof (len_nonneg bytes) as Hl.
  revert Hparse. unfold FileLines.parse. cbn [mReader mLines].
  cbn [IBufferedFileReader.isopen IBufferedFileReader.size
       IBufferedFileReader.setbuffersize IBufferedFileReader.setbufferdirection
       HandleFileReader_impl].
  rewrite Hisopen. cbn [negb].
  set (r0 := HandleFileReader.setbuffersize _ _).
  assert (HC0 : Cached bytes r0 /\ mBufferSize r0
                = Z.min (10 * 1024 * 1024) (len bytes)).
  { destruct (setbuffersize_cached bytes
                (HandleFileReader.setbufferdirection (HandleFileReader.new k)
                   IBufferedFileReader.Right) (10 * 1024 * 1024)
                (setbufferdirection_cached _ _ _ HC)) as [H1 H2].
    split; [exact H1|]. unfold r0. rewrite H2. reflexivity. }
  destruct HC0 as [HC0 Hbs].
  unfold HandleFileReader.size.
  rewrite (o_size _ _ (c_opened _ _ HC)).
  unfold len at 1. rewrite Nat2Z.id.
  destruct (parse_loop_prefix bytes bytes [] r0 [] 0 0 eq_refl HC0
              ltac:(lia) ltac:(unfold len; cbn; lia) ltac:(unfold len; cbn; lia))
    as (p & q & Hp & Hq).
  change (len (@nil byte)) with 0 in Hp, Hq.
  destruct (FileLines.parse_loop (length bytes) 0 r0 [] 0 0)
    as [[[[ok r'] l'] ci'] cs'].
  cbn [fst snd app] in Hp. subst l'.
  destruct ok; cbn [negb]; [discriminate|].
  intros H. inversion H; subst fl2; clear H. cbn [mLines].
  split; [|split; [|split; [|exact Hfaults]]].
  - exists (q ++ [len bytes + 1]). split.
    + intros E. apply app_eq_nil in E. destruct E; discriminate.
    + unfold line_starts. rewrite Hq, app_assoc. reflexivity.
  - intros Hin.
    assert (Hin' : In (len bytes + 1) (starts bytes 0 0 0)).
    { rewrite Hq. apply in_or_app. left. exact Hin. }
    apply starts_bounds in Hin'; lia.
  - unfold FileLines.isopen. cbn [mReader] in Hr2 |- *.
    cbn [IBufferedFileReader.isopen HandleFileReader_impl].
    assert (r' = r2) by congruence. subst r'. congruence.
Qed.

(** ** Lines below 4 GiB in a file of any size *)

(** A [read] inside the file, of any length, keeps the buffer a mirror of
    the file and cannot meet a fault where none is to come. *)
Lemma read_steady_any bytes r dest index n :
  Cached bytes r ->
  k_faults (os r) = [] \/ Whole bytes r ->
  0 <= index -> 0 <= n -> index + n <= len bytes ->
  mBufferSize r < 2 ^ 32 ->
  Cached bytes (snd (HandleFileReader.read r dest index n))
  /\ mBufferSize (snd (HandleFileReader.read r dest index n)) = mBufferSize r
  /\ (k_faults (os (snd (HandleFileReader.read r dest index n))) = []
      \/ Whole bytes (snd (HandleFileReader.read r dest index n))).
Proof.
  intros HC Hp Hi Hn Hin Hb32.
  destruct (Z.lt_ge_cases n (2 ^ 32)) as [Hs|Hl].
  - destruct (read_steady bytes r dest index n HC Hp Hi Hn Hin Hs Hb32)
      as (r' & Heq & HC' & Hbs' & Hp').
    rewrite Heq. cbn [snd]. split; [assumption|]. split; assumption.
  - pose proof (c_opened _ _ HC) as HO. pose proof HO as [Hh Hb Hsz Hfit Hbs].
    assert (Hf : k_faults (os r) = []).
    { destruct Hp as [Hp|(_ & _ & _ & Hw)]; [exact Hp | lia]. }
    unfold HandleFileReader.read.
    rewrite to_uint64_small by lia. rewrite Hsz.
    destruct (index + n >? len bytes) eqn:E1; [apply Z.gtb_lt in E1; lia|].
    destruct (n >? mBufferSize r) eqn:E2;
      [|rewrite Z.gtb_ltb in E2; apply Z.ltb_ge in E2; lia].
    destruct (readnobuffer_spec r dest index n (Opened_isopen _ _ HO)
                ltac:(lia)) as (ok & d & k' & Heq & Hk & _ & _ & Hh').
    rewrite Heq. cbn [snd].
    split; [apply Cached_with_os; assumption|].
    split; [reflexivity|]. left. apply (Hh' Hf).
Qed.

(** [operator[]] at a valid index keeps the index and the reader as they
    have to be for the next call, whatever the length of the line; it
    returns the span of the line when that is below 4 GiB. *)
Lemma subscript_steady bytes fl i :
  Indexed bytes fl -> Steady bytes fl ->
  0 <= i < FileLines.size fl ->
  Indexed bytes (snd (FileLines.operator_subscript fl i))
  /\ Steady bytes (snd (FileLines.operator_subscript fl i))
  /\ mLines (snd (FileLines.operator_subscript fl i)) = mLines fl
  /\ (nth (Z.to_nat (i + 1)) (line_starts bytes) 0
      - nth (Z.to_nat i) (line_starts bytes) 0 - 1 < 2 ^ 32 ->
      fst (FileLines.operator_subscript fl i)
      = rstrip_cr (span bytes (nth (Z.to_nat i) (line_starts bytes) 0)
                        (nth (Z.to_nat (i + 1)) (line_starts bytes) 0 - 1))).
Proof.
  intros HI Hp Hi.
  assert (Hfit : len bytes < 2 ^ 63).
  { destruct HI as (_ & r & _ & HC & _). apply (o_fits _ _ (c_opened _ _ HC)). }
  rewrite (Indexed_size_table bytes fl Hfit HI) in Hi.
  destruct HI as (Hl & r & Hr & HC & Hbs).
  assert (Hp' : k_faults (os r) = [] \/ Whole bytes r).
  { destruct Hp as [Hp|(r2 & Hr2 & HW)].
    - left. unfold pending in Hp. rewrite Hr in Hp. exact Hp.
    - right. congruence. }
  clear Hp.
  pose proof (len_nonneg bytes) as Hlb.
  pose proof (line_starts_length_le bytes) as Hlt.
  destruct (line_starts_step bytes i ltac:(lia) ltac:(lia)) as (Ha & Hab & Hb).
  unfold FileLines.operator_subscript. rewrite Hr, Hl.
  rewrite (to_size_t_small (i + 1)) by lia.
  set (a := nth (Z.to_nat i) (line_starts bytes) 0) in *.
  set (b := nth (Z.to_nat (i + 1)) (line_starts bytes) 0) in *.
  rewrite (to_uint64_small (b - a - 1)) by lia.
  rewrite (to_size_t_small (b - a - 1)) by lia.
  unfold IBufferedFileReader.readstring.
  cbn [IBufferedFileReader.read HandleFileReader_impl].
  destruct (read_steady_any bytes r (resize (b - a - 1) []) a (b - a - 1)
              HC Hp') as (HC' & Hbs' & Hp''); try lia.
  assert (Hshort : b - a - 1 < 2 ^ 32 ->
            fst (fst (HandleFileReader.read r (resize (b - a - 1) [])
                        a (b - a - 1)))
            = true
            /\ snd (fst (HandleFileReader.read r (resize (b - a - 1) [])
                           a (b - a - 1)))
               = span bytes a (b - 1)).
  { intros Hs.
    destruct (read_steady bytes r (resize (b - a - 1) []) a (b - a - 1)
                HC Hp') as (r' & Heq & _); try lia.
    rewrite Heq. cbn [fst snd]. split; [reflexivity|].
    unfold span. replace (b - 1 - a) with (b - a - 1) by lia.
    apply store_whole.
    pose proof (resize_length (b - a - 1) [] ltac:(lia)) as H1.
    pose proof (slice_length bytes a (b - a - 1)
                  ltac:(lia) ltac:(lia) ltac:(lia)) as H2.
    unfold len in H1, H2. lia. }
  destruct (HandleFileReader.read r (resize (b - a - 1) []) a (b - a - 1))
    as [[ok result] r'].
  cbn [fst snd] in *.
  split; [|split; [|split; [reflexivity|]]].
  - split; [reflexivity|]. exists r'.
    split; [reflexivity|]. split; [assumption | congruence].
  - destruct Hp'' as [Hp''|HW]; [left; exact Hp''|].
    right. exists r'. split; [reflexivity | exact HW].
  - intros Hs. destruct (Hshort Hs) as [_ ->]. apply strip_cr_rstrip.
Qed.

Lemma after_lines_steady bytes : forall js fl,
  Indexed bytes fl -> Steady bytes fl ->
  Forall (fun j => 0 <= j < FileLines.size fl) js ->
  Indexed bytes (after_lines fl js)
  /\ Steady bytes (after_lines fl js)
  /\ mLines (after_lines fl js) = mLines fl.
Proof.
  induction js as [|j js IH]; intros fl HI Hp Hjs.
  - cbn. split; [assumption | split; [assumption | reflexivity]].
  - inversion Hjs as [|? ? Hj Hjs']; subst.
    destruct (subscript_steady bytes fl j HI Hp Hj) as (HI' & Hp' & Hl' & _).
    unfold after_lines. cbn [fold_left].
    fold (after_lines (snd (FileLines.operator_subscript fl j)) js).
    assert (Hs : FileLines.size (snd (FileLines.operator_subscript fl j))
                 = FileLines.size fl).
    { unfold FileLines.size. rewrite Hl'. reflexivity. }
    destruct (IH _ HI' Hp') as (H1 & H2 & H3).
    { rewrite Hs. assumption. }
    split; [assumption | split; [assumption | congruence]].
Qed.

(** X19. A line below 4 GiB is read whole, whatever the size of the file.
    After a successful [open] and [parse], and after any earlier calls for
    valid indices, [operator[]] at a valid index whose span is below 4 GiB
    returns the bytes of the file from offset [mLines[i]] up to, not
    including, offset [mLines[i+1] - 1], without the carriage returns at
    their end, provided its reads do not fail: for a file of at most
    10 MiB they cannot; for a larger file no call to the kernel may fail
    after [parse]. *)
Theorem getLine_reads_short_span k fl1 fl2 js i :
  len (k_bytes k) < 2 ^ 63 ->
  FileLines.open FileLines.new k = (true, fl1) ->
  FileLines.parse fl1 = (true, fl2) ->
  len (k_bytes k) <= 10 * 1024 * 1024 \/ pending fl2 = [] ->
  Forall (fun j => 0 <= j < FileLines.size fl2) js ->
  0 <= i < FileLines.size fl2 ->
  nth (Z.to_nat (i + 1)) (mLines fl2) 0 - nth (Z.to_nat i) (mLines fl2) 0 - 1
  < 2 ^ 32 ->
  fst (FileLines.operator_subscript (after_lines fl2 js) i)
  = rstrip_cr (span (k_bytes k)
                    (nth (Z.to_nat i) (mLines fl2) 0)
                    (nth (Z.to_nat (i + 1)) (mLines fl2) 0 - 1)).
Proof.
  intros Hfit Hopen Hparse Hrel Hjs Hi Hshort.
  pose proof (parse_indexed k fl1 fl2 Hfit Hopen Hparse) as HI.
  assert (Hp : Steady (k_bytes k) fl2).
  { destruct Hrel as [Hsmall|Hp]; [right | left; exact Hp].
    apply (parse_whole k fl1 fl2 Hsmall Hopen Hparse). }
  destruct (after_lines_steady _ js fl2 HI Hp Hjs) as (HI' & Hp' & Hl').
  assert (Hv : 0 <= i < FileLines.size (after_lines fl2 js)).
  { unfold FileLines.size in *. rewrite Hl'. exact Hi. }
  destruct (subscript_steady _ _ i HI' Hp' Hv) as (_ & _ & _ & Hget).
  destruct HI as [Hl _]. rewrite Hl in Hshort |- *.
  apply Hget. exact Hshort.
Qed.

(** ** Instances on the scenario file *)


Lemma read_again_from_buffer_witness :
  HandleFileReader.read
    (snd (HandleFileReader.read
            (run (HandleFileReader.new (file abc_def_ghi []))
                 [CallSetBufferSize 4; CallRead [x00] 1 1])
            [x00; x00; x00] 5 3))
    [x00] 6 1
  = (true, store [x00] (slice (k_bytes (file abc_def_ghi [])) 6 1),
     snd (HandleFileReader.read
            (run (HandleFileReader.new (file abc_def_ghi []))
                 [CallSetBufferSize 4; CallRead [x00] 1 1])
            [x00; x00; x00] 5 3)).
Proof.
  apply (read_again_from_buffer (file abc_def_ghi [])
           [CallSetBufferSize 4; CallRead [x00] 1 1]
           [x00; x00; x00] 5 3 [x00] 6 1);
    try reflexivity.
  - repeat constructor; vm_compute; discriminate.
  - vm_compute; discriminate.
  - vm_compute; split; discriminate.
  - vm_compute; discriminate.
  - vm_compute; discriminate.
  - vm_compute; discriminate.
  - vm_compute; discriminate.
Defined.

Lemma destructor_closes_once_witness :
  HandleFileReader.isopen
    (HandleFileReader.delete
       (run (HandleFileReader.new (file abc_def_ghi [false; false; true]))
            [CallSetBufferSize 4; CallRead [x00] 1 1])) = false
  /\ k_open (os (HandleFileReader.delete
                   (run (HandleFileReader.new
                           (file abc_def_ghi [false; false; true]))
                        [CallSetBufferSize 4; CallRead [x00] 1 1])))
     = false
  /\ closes (k_trace
               (os (HandleFileReader.delete
                      (run (HandleFileReader.new
                              (file abc_def_ghi [false; false; true]))
                           [CallSetBufferSize 4; CallRead [x00] 1 1]))))
     = (closes (k_trace (file abc_def_ghi [false; false; true]))
        + (if fault_now (file abc_def_ghi [false; false; true])
           then 0 else 1))%nat.
Proof.
  apply (destructor_closes_once (file abc_def_ghi [false; false; true])
           [CallSetBufferSize 4; CallRead [x00] 1 1]).
  reflexivity.
Defined.

Lemma closed_reader_makes_no_call_witness :
  HandleFileReader.isopen
    (run (HandleFileReader.new (file abc_def_ghi [true]))
         [CallSetBufferSize 4; CallRead [x00] 1 1; CallRead [x00] 1 1])
  = false
  /\ os (run (HandleFileReader.new (file abc_def_ghi [true]))
             [CallSetBufferSize 4; CallRead [x00] 1 1; CallRead [x00] 1 1])
     = os (HandleFileReader.new (file abc_def_ghi [true])).
Proof.
  apply (closed_reader_makes_no_call (file abc_def_ghi [true])
           [CallSetBufferSize 4; CallRead [x00] 1 1; CallRead [x00] 1 1]).
  reflexivity.
Defined.


Lemma readvector_returns_range_witness :
  (exists r',
     IBufferedFileReader.readvector
       (run (HandleFileReader.new (file abc_def_ghi []))
            [CallSetBufferSize 4; CallRead [x00] 1 1])
       5 3 ["v"; "w"; "x"; "y"; "z"]%byte
     = (true, slice (k_bytes (file abc_def_ghi [])) 5 3, r'))
  /\ (exists r',
        IBufferedFileReader.readstring
          (run (HandleFileReader.new (file abc_def_ghi []))
               [CallSetBufferSize 4; CallRead [x00] 1 1])
          5 3 ["v"; "w"; "x"; "y"; "z"]%byte
        = (true, slice (k_bytes (file abc_def_ghi [])) 5 3, r')).
Proof.
  apply (readvector_returns_range (file abc_def_ghi [])
           [CallSetBufferSize 4; CallRead [x00] 1 1]
           5 3 ["v"; "w"; "x"; "y"; "z"]%byte);
    try reflexivity.
  - repeat constructor; vm_compute; discriminate.
  - vm_compute; discriminate.
  - vm_compute; discriminate.
  - vm_compute; discriminate.
Defined.

Lemma offset_table_shape_witness :
  increasing (mLines (parsed (file abc_def_ghi [])))
  /\ last (mLines (parsed (file abc_def_ghi []))) 0
     = len (k_bytes (file abc_def_ghi [])) + 1
  /\ (0 < FileLines.size (parsed (file abc_def_ghi [])) ->
      nth 0 (mLines (parsed (file abc_def_ghi []))) 0 = 0)
  /\ forall j, 0 < j < FileLines.size (parsed (file abc_def_ghi [])) ->
       nth (Z.to_nat (nth (Z.to_nat j)
                          (mLines (parsed (file abc_def_ghi []))) 0 - 1))
           (k_bytes (file abc_def_ghi [])) x00
       = LF.
Proof.
  apply (offset_table_shape (file abc_def_ghi [])
           (opened (file abc_def_ghi [])) (parsed (file abc_def_ghi [])));
    reflexivity.
Defined.

Lemma getLine_is_segment_witness :
  fst (FileLines.operator_subscript
         (after_lines (parsed (file abc_def_ghi [])) [2; 0]) 1)
  = rstrip_cr (nth (Z.to_nat 1) (split_lf (k_bytes (file abc_def_ghi []))) []).
Proof.
  apply (getLine_is_segment (file abc_def_ghi [])
           (opened (file abc_def_ghi [])) (parsed (file abc_def_ghi []))
           [2; 0] 1); try reflexivity.
  - left. vm_compute. discriminate.
  - repeat constructor; vm_compute; discriminate.
  - vm_compute; discriminate.
Defined.

Lemma parse_twice_appends_witness :
  (forall fl3,
     FileLines.parse (parsed (file abc_def_ghi [])) = (true, fl3) ->
     mLines fl3 = mLines (parsed (file abc_def_ghi []))
                  ++ mLines (parsed (file abc_def_ghi []))
     /\ FileLines.size fl3
        = 2 * FileLines.size (parsed (file abc_def_ghi [])) + 1)
  /\ (pending (parsed (file abc_def_ghi [])) = [] ->
      fst (FileLines.parse (parsed (file abc_def_ghi []))) = true).
Proof.
  apply (parse_twice_appends (file abc_def_ghi [])
           (opened (file abc_def_ghi [])) (parsed (file abc_def_ghi [])));
    reflexivity.
Defined.

Lemma parse_succeeds_without_faults_witness :
  fst (FileLines.open FileLines.new (file abc_def_ghi [])) = true
  /\ fst (FileLines.parse (opened (file abc_def_ghi []))) = true
  /\ 0 <= FileLines.size (parsed (file abc_def_ghi []))
     <= len (k_bytes (file abc_def_ghi [])).
Proof.
  apply (parse_succeeds_without_faults (file abc_def_ghi [])); reflexivity.
Defined.

Lemma small_file_is_read_once_witness :
  (exists r,
     mReader (parsed (file abc_def_ghi [])) = Some r
     /\ k_trace (os r)
        = k_trace (file abc_def_ghi [])
          ++ [SysCreateFileW; SysGetFileSizeEx]
          ++ (if len (k_bytes (file abc_def_ghi [])) =? 0 then []
              else [SysSetFilePointerEx 0;
                    SysReadFile (len (k_bytes (file abc_def_ghi [])))]))
  /\ forall js i,
       Forall (fun j => 0 <= j < FileLines.size (parsed (file abc_def_ghi [])))
              js ->
       0 <= i < FileLines.size (parsed (file abc_def_ghi [])) ->
       snd (FileLines.operator_subscript
              (after_lines (parsed (file abc_def_ghi [])) js) i)
       = parsed (file abc_def_ghi []).
Proof.
  apply (small_file_is_read_once (file abc_def_ghi [])
           (opened (file abc_def_ghi [])) (parsed (file abc_def_ghi [])));
    try reflexivity.
  vm_compute; discriminate.
Defined.

Lemma loadFile_outcome_witness :
  match mFileLines
          (loadFile (mkSourceView [97] None
                       (file abc_def_ghi [false; false; false; true]) []))
  with
  | Some fl =>
      FileLines.isopen fl = true
      /\ mLines fl
         = line_starts (k_bytes (file abc_def_ghi [false; false; false; true]))
      /\ gui (loadFile (mkSourceView [97] None
                          (file abc_def_ghi [false; false; false; true]) []))
         = [] ++ [setRowCount
                    (count_LF (k_bytes (file abc_def_ghi
                                          [false; false; false; true]))
                     + (if blank (final_line
                                    (k_bytes (file abc_def_ghi
                                                [false; false; false; true])))
                        then 0 else 1));
                  setTableOffset 0; reloadData]
  | None =>
      (exists w,
         gui (loadFile (mkSourceView [97] None
                          (file abc_def_ghi [false; false; false; true]) []))
         = [] ++ [QMessageBox_warning w])
      /\ k_open (disk (loadFile (mkSourceView [97] None
                                   (file abc_def_ghi
                                      [false; false; false; true]) [])))
         = false
      /\ closes (k_trace
                   (disk (loadFile (mkSourceView [97] None
                                      (file abc_def_ghi
                                         [false; false; false; true]) []))))
         = (closes (k_trace (file abc_def_ghi [false; false; false; true]))
            + (if fault_now (file abc_def_ghi [false; false; false; true])
               then 0 else 1))%nat
      /\ k_faults (file abc_def_ghi [false; false; false; true]) <> []
  end.
Proof.
  apply (loadFile_outcome [97]
           (file abc_def_ghi [false; false; false; true]) []);
    try reflexivity.
  vm_compute; discriminate.
Defined.

Lemma loadFile_closes_before_reopening_witness :
  tidy (loadFile (mkSourceView [97] (Some (parsed (file abc_def_ghi [])))
                               (file abc_def_ghi []) []))
  /\ (exists s,
        k_trace (kernel (loadFile
                           (mkSourceView [97]
                              (Some (parsed (file abc_def_ghi [])))
                              (file abc_def_ghi []) [])))
        = k_trace (kernel (mkSourceView [97]
                             (Some (parsed (file abc_def_ghi [])))
                             (file abc_def_ghi []) []))
          ++ match mFileLines
                     (mkSourceView [97]
                        (Some (parsed (file abc_def_ghi [])))
                        (file abc_def_ghi []) [])
             with
             | Some _ => [SysCloseHandle]
             | None => []
             end ++ SysCreateFileW :: s)
  /\ k_open (delete_SourceView
               (loadFile (mkSourceView [97]
                            (Some (parsed (file abc_def_ghi [])))
                            (file abc_def_ghi []) [])))
     = false.
Proof.
  apply (loadFile_closes_before_reopening
           (mkSourceView [97] (Some (parsed (file abc_def_ghi [])))
                         (file abc_def_ghi []) [])).
  - vm_compute; discriminate.
  - vm_compute; split; reflexivity.
Defined.

Lemma parse_reads_each_byte_once_witness :
  exists r,
    mReader (parsed (file abc_def_ghi [])) = Some r
    /\ reads (k_trace (os r))
       = reads (k_trace (file abc_def_ghi []))
         + (len (k_bytes (file abc_def_ghi [])) + 10 * 1024 * 1024 - 1)
           / (10 * 1024 * 1024)
    /\ requested (k_trace (os r))
       = requested (k_trace (file abc_def_ghi []))
         + len (k_bytes (file abc_def_ghi [])).
Proof.
  apply (parse_reads_each_byte_once (file abc_def_ghi [])
           (opened (file abc_def_ghi [])) (parsed (file abc_def_ghi [])));
    reflexivity.
Defined.

Lemma read_writes_at_most_size_witness :
  len (snd (fst (HandleFileReader.read
                   (HandleFileReader.new (file abc_def_ghi []))
                   ["v"; "w"; "x"; "y"; "z"]%byte 5 3)))
  = len ["v"; "w"; "x"; "y"; "z"]%byte
  /\ skipn (Z.to_nat 3)
           (snd (fst (HandleFileReader.read
                        (HandleFileReader.new (file abc_def_ghi []))
                        ["v"; "w"; "x"; "y"; "z"]%byte 5 3)))
     = skipn (Z.to_nat 3) ["v"; "w"; "x"; "y"; "z"]%byte.
Proof.
  apply (read_writes_at_most_size
           (HandleFileReader.new (file abc_def_ghi []))
           ["v"; "w"; "x"; "y"; "z"]%byte 5 3).
  vm_compute; split; discriminate.
Defined.

Lemma parse_failure_leaves_prefix_witness :
  (exists q, q <> []
             /\ line_starts (k_bytes (file abc_def_ghi
                                        [false; false; false; true]))
                = mLines (parsed (file abc_def_ghi
                                    [false; false; false; true])) ++ q)
  /\ ~ In (len (k_bytes (file abc_def_ghi [false; false; false; true])) + 1)
          (mLines (parsed (file abc_def_ghi [false; false; false; true])))
  /\ FileLines.isopen (parsed (file abc_def_ghi [false; false; false; true]))
     = true
  /\ k_faults (file abc_def_ghi [false; false; false; true]) <> [].
Proof.
  apply (parse_failure_leaves_prefix
           (file abc_def_ghi [false; false; false; true])
           (opened (file abc_def_ghi [false; false; false; true]))
           (parsed (file abc_def_ghi [false; false; false; true])));
    reflexivity.
Defined.

Lemma getLine_reads_short_span_witness :
  fst (FileLines.operator_subscript
         (after_lines
            (parsed (file abc_def_ghi [false; false; false; false; true]))
            [2; 0]) 1)
  = rstrip_cr
      (span (k_bytes (file abc_def_ghi [false; false; false; false; true]))
            (nth (Z.to_nat 1)
                 (mLines (parsed (file abc_def_ghi
                                    [false; false; false; false; true]))) 0)
            (nth (Z.to_nat (1 + 1))
                 (mLines (parsed (file abc_def_ghi
                                    [false; false; false; false; true]))) 0
             - 1)).
Proof.
  apply (getLine_reads_short_span
           (file abc_def_ghi [false; false; false; false; true])
           (opened (file abc_def_ghi [false; false; false; false; true]))
           (parsed (file abc_def_ghi [false; false; false; false; true]))
           [2; 0] 1); try reflexivity.
  - left. vm_compute. discriminate.
  - repeat constructor; vm_compute; discriminate.
  - split; vm_compute; [discriminate | reflexivity].
Defined.
